(** * Progress streaming and build repair of lovable-ui

    A shallow embedding of

    - [app/api/modify-app/route.ts]: the [POST] handler that spawns the
      modification script, demultiplexes its standard output line by line
      and forwards typed events to the subscriber over a server-sent-event
      stream;
    - [scripts/modify-app.ts]: [verifyAndFixBuild], the bounded
      build / repair loop, in its two forms (the script that runs inside
      the sandbox, and the TypeScript driver).

    JavaScript strings are sequences of UTF-16 code units.  The built-ins
    the code calls ([split], [pop], [trim], [includes], [indexOf],
    [substring], [JSON.parse]) are written out in module [JS]. *)

From Stdlib Require Import List NArith ZArith String Ascii Bool Lia.
From Stdlib Require Import DecimalString.
From Stdlib Require DecimalNat DecimalFacts.
Import ListNotations.
Open Scope string_scope.
Open Scope list_scope.

Set Implicit Arguments.
Set Warnings "-register-all".

(* ================================================================= *)
(** ** JavaScript strings and values *)

Module JS.

Definition char := N.
Definition jsstring := list char.

(** An ASCII literal of the source as a sequence of code units. *)
Definition lit (s : string) : jsstring :=
  map N_of_ascii (list_ascii_of_string s).

Arguments lit : simpl never.

Fixpoint str_eqb (a b : jsstring) : bool :=
  match a, b with
  | [], [] => true
  | x :: a', y :: b' => (x =? y)%N && str_eqb a' b'
  | _, _ => false
  end.

(** [WhiteSpace] and [LineTerminator] code points of ECMAScript, the ones
    [String.prototype.trim] strips. *)
Definition is_space (c : char) : bool :=
  ((c =? 9) || (c =? 10) || (c =? 11) || (c =? 12) || (c =? 13) ||
   (c =? 32) || (c =? 160) || (c =? 5760) ||
   ((8192 <=? c) && (c <=? 8202)) ||
   (c =? 8232) || (c =? 8233) || (c =? 8239) || (c =? 8287) ||
   (c =? 12288) || (c =? 65279))%N.

Fixpoint trimStart (s : jsstring) : jsstring :=
  match s with
  | [] => []
  | c :: s' => if is_space c then trimStart s' else s
  end.

Definition trimEnd (s : jsstring) : jsstring := rev (trimStart (rev s)).

Definition trim (s : jsstring) : jsstring := trimEnd (trimStart s).

(** An empty string is falsy. *)
Definition truthy (s : jsstring) : bool :=
  match s with [] => false | _ => true end.

Fixpoint startsWith (pat s : jsstring) : bool :=
  match pat, s with
  | [], _ => true
  | p :: pat', c :: s' => (p =? c)%N && startsWith pat' s'
  | _ :: _, [] => false
  end.

(** Position of the first occurrence of [pat] in [s], counted from [i]. *)
Fixpoint find_from (pat s : jsstring) (i : nat) : option nat :=
  if startsWith pat s then Some i
  else match s with
       | [] => None
       | _ :: s' => find_from pat s' (S i)
       end.

(** [s.indexOf(pat)]: -1 when [pat] does not occur. *)
Definition indexOf (s pat : jsstring) : Z :=
  match find_from pat s 0 with
  | Some i => Z.of_nat i
  | None => (-1)%Z
  end.

(** [s.includes(pat)]. *)
Definition includes (s pat : jsstring) : bool :=
  match find_from pat s 0 with
  | Some _ => true
  | None => false
  end.

(** [s.substring(start)]: a negative start counts as 0. *)
Definition substring (s : jsstring) (start : Z) : jsstring :=
  skipn (Z.to_nat (Z.max 0 start)) s.

(** [s.split(sep)] for a separator of one code unit; the result always has
    at least one element. *)
Fixpoint split (sep : char) (s : jsstring) : list jsstring :=
  match s with
  | [] => [[]]
  | c :: s' =>
      if (c =? sep)%N then [] :: split sep s'
      else match split sep s' with
           | [] => [[c]]
           | l :: ls => (c :: l) :: ls
           end
  end.

(** [a.pop()]: the last element (or [undefined]) and the shortened array. *)
Definition pop {A : Type} (a : list A) : option A * list A :=
  match a with
  | [] => (None, [])
  | x :: a' => (Some (last a' x), removelast a)
  end.

(** [x || ''] for [x] a string or [undefined]. *)
Definition or_empty (x : option jsstring) : jsstring :=
  match x with
  | Some s => if truthy s then s else []
  | None => []
  end.

Definition NL : char := 10%N.

(** Decimal numerals, as template literals print integers. *)
Definition decimal_nat (n : nat) : jsstring :=
  lit (NilZero.string_of_uint (Nat.to_uint n)).

Definition decimal_Z (z : Z) : jsstring :=
  lit (NilZero.string_of_int (Z.to_int z)).

Arguments decimal_nat : simpl never.
Arguments decimal_Z : simpl never.

(** Values that [JSON.parse] builds and object literals hold.  A number is
    kept as its numeral. *)
Inductive value : Type :=
| VUndefined
| VNull
| VBool (b : bool)
| VNum (numeral : jsstring)
| VStr (s : jsstring)
| VArr (items : list value)
| VObj (props : list (jsstring * value)).

(** *** [JSON.parse]

    The JSON grammar of ECMA-404, by recursive descent.  [None] stands for
    the [SyntaxError] that [JSON.parse] throws. *)

Definition is_json_ws (c : char) : bool :=
  ((c =? 32) || (c =? 9) || (c =? 10) || (c =? 13))%N.

Fixpoint skip_ws (s : jsstring) : jsstring :=
  match s with
  | [] => []
  | c :: s' => if is_json_ws c then skip_ws s' else s
  end.

Definition is_digit (c : char) : bool := ((48 <=? c) && (c <=? 57))%N.

Definition hex_digit (c : char) : option N :=
  if is_digit c then Some (c - 48)%N
  else if ((97 <=? c) && (c <=? 102))%N then Some (c - 87)%N
  else if ((65 <=? c) && (c <=? 70))%N then Some (c - 55)%N
  else None.

Definition hex4 (a b c d : char) : option char :=
  match hex_digit a, hex_digit b, hex_digit c, hex_digit d with
  | Some x, Some y, Some z, Some w => Some (((x * 16 + y) * 16 + z) * 16 + w)%N
  | _, _, _, _ => None
  end.

(** The single-character escapes: quotation mark, reverse solidus, solidus,
    b, f, n, r, t. *)
Definition simple_escape (c : char) : option char :=
  if (c =? 34)%N then Some 34%N
  else if (c =? 92)%N then Some 92%N
  else if (c =? 47)%N then Some 47%N
  else if (c =? 98)%N then Some 8%N
  else if (c =? 102)%N then Some 12%N
  else if (c =? 110)%N then Some 10%N
  else if (c =? 114)%N then Some 13%N
  else if (c =? 116)%N then Some 9%N
  else None.

(** The characters of a string after its opening quotation mark, up to and
    including the closing one. *)
Fixpoint parse_chars (s : jsstring) : option (jsstring * jsstring) :=
  match s with
  | [] => None
  | c :: s1 =>
      if (c =? 34)%N then Some ([], s1)
      else if (c <? 32)%N then None
      else if (c =? 92)%N then
        match s1 with
        | [] => None
        | e :: s2 =>
            if (e =? 117)%N then
              match s2 with
              | h1 :: h2 :: h3 :: h4 :: s3 =>
                  match hex4 h1 h2 h3 h4, parse_chars s3 with
                  | Some u, Some (str, r) => Some (u :: str, r)
                  | _, _ => None
                  end
              | _ => None
              end
            else
              match simple_escape e, parse_chars s2 with
              | Some u, Some (str, r) => Some (u :: str, r)
              | _, _ => None
              end
        end
      else
        match parse_chars s1 with
        | Some (str, r) => Some (c :: str, r)
        | None => None
        end
  end.

Fixpoint take_digits (s : jsstring) : jsstring * jsstring :=
  match s with
  | [] => ([], [])
  | c :: s' =>
      if is_digit c then let '(d, r) := take_digits s' in (c :: d, r)
      else ([], s)
  end.

(** A number: optional minus, integer part without a leading zero,
    optional fraction, optional exponent.  Returns the numeral. *)
Definition parse_number (s : jsstring) : option (jsstring * jsstring) :=
  let '(sign, s1) :=
    match s with
    | c :: r => if (c =? 45)%N then ([c], r) else ([], s)
    | [] => ([], s)
    end in
  match s1 with
  | [] => None
  | c :: r =>
      if negb (is_digit c) then None
      else
        let '(int, s2) :=
          if (c =? 48)%N then ([c], r)
          else let '(d, r') := take_digits r in (c :: d, r') in
        let frac :=
          match s2 with
          | p :: r2 =>
              if (p =? 46)%N then
                match take_digits r2 with
                | ([], _) => None
                | (d, r3) => Some (p :: d, r3)
                end
              else Some ([], s2)
          | [] => Some ([], s2)
          end in
        match frac with
        | None => None
        | Some (fr, s3) =>
            let exp :=
              match s3 with
              | e :: r3 =>
                  if ((e =? 101) || (e =? 69))%N then
                    let '(sg, r4) :=
                      match r3 with
                      | g :: r' =>
                          if ((g =? 43) || (g =? 45))%N then ([g], r')
                          else ([], r3)
                      | [] => ([], r3)
                      end in
                    match take_digits r4 with
                    | ([], _) => None
                    | (d, r5) => Some (e :: sg ++ d, r5)
                    end
                  else Some ([], s3)
              | [] => Some ([], s3)
              end in
            match exp with
            | None => None
            | Some (ex, s4) => Some (sign ++ int ++ fr ++ ex, s4)
            end
        end
  end.

Definition parse_keyword (kw : jsstring) (v : value) (s : jsstring)
  : option (value * jsstring) :=
  if startsWith kw s then Some (v, skipn (List.length kw) s) else None.

Fixpoint parse_value (fuel : nat) (s : jsstring) {struct fuel}
  : option (value * jsstring) :=
  match fuel with
  | O => None
  | S fuel' =>
      match skip_ws s with
      | [] => None
      | c :: r =>
          if (c =? 123)%N then
            match skip_ws r with
            | c2 :: r2 =>
                if (c2 =? 125)%N then Some (VObj [], r2)
                else parse_members fuel' r []
            | [] => None
            end
          else if (c =? 91)%N then
            match skip_ws r with
            | c2 :: r2 =>
                if (c2 =? 93)%N then Some (VArr [], r2)
                else parse_elements fuel' r []
            | [] => None
            end
          else if (c =? 34)%N then
            match parse_chars r with
            | Some (str, r') => Some (VStr str, r')
            | None => None
            end
          else if (c =? 116)%N then parse_keyword (lit "true") (VBool true) (c :: r)
          else if (c =? 102)%N then parse_keyword (lit "false") (VBool false) (c :: r)
          else if (c =? 110)%N then parse_keyword (lit "null") VNull (c :: r)
          else
            match parse_number (c :: r) with
            | Some (n, r') => Some (VNum n, r')
            | None => None
            end
      end
  end
with parse_elements (fuel : nat) (s : jsstring) (acc : list value) {struct fuel}
  : option (value * jsstring) :=
  match fuel with
  | O => None
  | S fuel' =>
      match parse_value fuel' s with
      | Some (v, r) =>
          match skip_ws r with
          | c :: r' =>
              if (c =? 44)%N then parse_elements fuel' r' (v :: acc)
              else if (c =? 93)%N then Some (VArr (rev (v :: acc)), r')
              else None
          | [] => None
          end
      | None => None
      end
  end
with parse_members (fuel : nat) (s : jsstring) (acc : list (jsstring * value))
  {struct fuel} : option (value * jsstring) :=
  match fuel with
  | O => None
  | S fuel' =>
      match skip_ws s with
      | c :: r =>
          if (c =? 34)%N then
            match parse_chars r with
            | Some (k, r1) =>
                match skip_ws r1 with
                | c1 :: r2 =>
                    if (c1 =? 58)%N then
                      match parse_value fuel' r2 with
                      | Some (v, r3) =>
                          match skip_ws r3 with
                          | c3 :: r4 =>
                              if (c3 =? 44)%N then
                                parse_members fuel' r4 ((k, v) :: acc)
                              else if (c3 =? 125)%N then
                                Some (VObj (rev ((k, v) :: acc)), r4)
                              else None
                          | [] => None
                          end
                      | None => None
                      end
                    else None
                | [] => None
                end
            | None => None
            end
          else None
      | [] => None
      end
  end.

(** [JSON.parse(text)]: one value, surrounded by white space only.  Every
    nested call consumes a character, so twice the length is fuel enough. *)
Definition JSON_parse (text : jsstring) : option value :=
  match parse_value (2 * List.length text + 2) text with
  | Some (v, r) => match skip_ws r with [] => Some v | _ :: _ => None end
  | None => None
  end.

(** Own property [k] of an object: the last member with that name wins. *)
Fixpoint lookup (k : jsstring) (props : list (jsstring * value)) : value :=
  match props with
  | [] => VUndefined
  | (k', v) :: props' =>
      match lookup k props' with
      | VUndefined => if str_eqb k k' then v else VUndefined
      | w => w
      end
  end.

End JS.

Import JS.

(* ================================================================= *)
(** ** Exceptions and state *)

(** A thrown [Error] object; only its [message] is ever read. *)
Inductive exn : Type :=
| SyntaxError
| TypeError
| Error (message : jsstring).

(** [error.message].  The text of the engine's own errors is not fixed by
    the language; no event shows it. *)
Definition message (e : exn) : jsstring :=
  match e with
  | SyntaxError => lit "SyntaxError"
  | TypeError => lit "TypeError"
  | Error m => m
  end.

Inductive outcome (A : Type) : Type :=
| Ok (a : A)
| Throw (e : exn).

Arguments Ok {A} a.
Arguments Throw {A} e.

Section Monad.

Variable State : Type.

(** A computation over a state [State] that returns or throws. *)
Definition M (A : Type) : Type := State -> outcome A * State.

Definition ret {A} (a : A) : M A := fun s => (Ok a, s).

Definition throw {A} (e : exn) : M A := fun s => (Throw e, s).

Definition bind {A B} (m : M A) (k : A -> M B) : M B :=
  fun s =>
    match m s with
    | (Ok a, s') => k a s'
    | (Throw e, s') => (Throw e, s')
    end.

(** [try { body } catch (e) { handler }]. *)
Definition try_catch {A} (body : M A) (handler : exn -> M A) : M A :=
  fun s =>
    match body s with
    | (Ok a, s') => (Ok a, s')
    | (Throw e, s') => handler e s'
    end.

(** [try { body } finally { finalizer }]: the finalizer runs on both
    exits; when it throws, its exception replaces the pending one. *)
Definition try_finally {A} (body : M A) (finalizer : M unit) : M A :=
  fun s =>
    match body s with
    | (r, s') =>
        match finalizer s' with
        | (Ok _, s'') => (r, s'')
        | (Throw e, s'') => (Throw e, s'')
        end
    end.

Definition try_catch_finally {A} (body : M A) (handler : exn -> M A)
  (finalizer : M unit) : M A :=
  try_finally (try_catch body handler) finalizer.

(** [for (const x of xs) { body }]. *)
Fixpoint for_of {A} (xs : list A) (body : A -> M unit) : M unit :=
  match xs with
  | [] => ret tt
  | x :: xs' => bind (body x) (fun _ => for_of xs' body)
  end.

(** An [async] callback handed to an event emitter: the emitter drops
    the promise, so an exception inside the callback ends that callback
    and reaches nobody. *)
Definition detached (callback : M unit) : M unit :=
  fun s => (Ok tt, snd (callback s)).

Definition gets {A} (f : State -> A) : M A := fun s => (Ok (f s), s).

Definition modify (f : State -> State) : M unit := fun s => (Ok tt, f s).

End Monad.

Arguments ret {State A} a.
Arguments throw {State A} e.
Arguments bind {State A B} m k.
Arguments try_catch {State A} body handler.
Arguments try_finally {State A} body finalizer.
Arguments try_catch_finally {State A} body handler finalizer.
Arguments for_of {State A} xs body.
Arguments detached {State} callback.
Arguments gets {State A} f.
Arguments modify {State} f.

Declare Scope monad_scope.
Delimit Scope monad_scope with monad.
Notation "x <- m ;; k" := (bind m (fun x => k))
  (at level 61, m at next level, right associativity) : monad_scope.
Notation "m ;; k" := (bind m (fun _ => k))
  (at level 61, right associativity) : monad_scope.
Open Scope monad_scope.

(** [JSON.parse(text)] as a computation: throws [SyntaxError]. *)
Definition JSON_parse_M {State} (text : jsstring) : M State value :=
  match JSON_parse text with
  | Some v => ret v
  | None => throw SyntaxError
  end.

(** [v.k] for the property names the handlers read ([content], [name],
    [input], [attempt], [error], [attempts]); none of them is inherited or
    an index.  Reading a property of [null] throws [TypeError]. *)
Definition get {State} (v : value) (k : string) : M State value :=
  match v with
  | VNull | VUndefined => throw TypeError
  | VObj props => ret (lookup (lit k) props)
  | _ => ret VUndefined
  end.

(** An object literal with string keys. *)
Definition obj (props : list (string * value)) : value :=
  VObj (map (fun kv => (lit (fst kv), snd kv)) props).

Definition str (s : string) : value := VStr (lit s).

(* ================================================================= *)
(** ** The stream forwarder: [POST] of [app/api/modify-app/route.ts] *)

Module Route.

(** What [writer.write] is given.  [Data v] is the encoded text
    [data: ${JSON.stringify(v)}\n\n]; [DONE] is [data: [DONE]\n\n]. *)
Inductive frame : Type :=
| Data (v : value)
| DONE.

(** The variables of the asynchronous block: the partial-line [buffer] and
    the writer.  [delivered] is what the subscriber has received, in
    order; the two counters record the calls of [writer.write] and
    [writer.close]. *)
Record state : Type := mkState {
  buffer : jsstring;
  delivered : list frame;
  write_calls : nat;
  close_calls : nat
}.

Definition initial : state := mkState [] [] 0 0.

Definition with_buffer (b : jsstring) (s : state) : state :=
  mkState b (delivered s) (write_calls s) (close_calls s).

Definition set_buffer (b : jsstring) : M state unit := modify (with_buffer b).

Definition CLAUDE_MESSAGE := lit "__CLAUDE_MESSAGE__".
Definition TOOL_USE := lit "__TOOL_USE__".
Definition CLAUDE_FIX := lit "__CLAUDE_FIX__".
Definition TOOL_FIX := lit "__TOOL_FIX__".
Definition HEALING_START := lit "__HEALING_START__".
Definition HEALING_END := lit "__HEALING_END__".
Definition HEAL_SUCCESS := lit "__HEAL_SUCCESS__".
Definition HEAL_FAILED := lit "__HEAL_FAILED__".
Definition MODIFICATION_COMPLETE := lit "__MODIFICATION_COMPLETE__".

(** [line.substring(line.indexOf(marker) + marker.length).trim()]. *)
Definition payload (line marker : jsstring) : jsstring :=
  let jsonStart := (indexOf line marker + Z.of_nat (List.length marker))%Z in
  trim (substring line jsonStart).

Section Writer.

(** The sink is the writable side of a [TransformStream]; whether it
    takes a chunk is up to the stream and its reader.  [accepts n] tells
    whether the call number [n] of [writer.write] (from 0) resolves;
    otherwise it rejects with [rejection]. *)
Variable accepts : nat -> bool.
Variable rejection : exn.

(** [await writer.write(encoder.encode(...))]. *)
Definition writer_write (f : frame) : M state unit :=
  fun s =>
    if accepts (write_calls s) then
      (Ok tt, mkState (buffer s) (delivered s ++ [f])
                      (S (write_calls s)) (close_calls s))
    else
      (Throw rejection, mkState (buffer s) (delivered s)
                                (S (write_calls s)) (close_calls s)).

(** [await writer.close()]. *)
Definition writer_close : M state unit :=
  modify (fun s => mkState (buffer s) (delivered s) (write_calls s)
                           (S (close_calls s))).

(** The body of [for (const line of lines)], lines 52 to 190. *)
Definition on_line (line : jsstring) : M state unit :=
  if negb (truthy (trim line)) then ret tt
  else if includes line CLAUDE_MESSAGE then
    try_catch
      (message <- JSON_parse_M (payload line CLAUDE_MESSAGE) ;;
       content <- get message "content" ;;
       writer_write (Data (obj [("type", str "claude_message");
                                ("content", content)])))
      (fun _ => ret tt)
  else if includes line TOOL_USE then
    try_catch
      (toolUse <- JSON_parse_M (payload line TOOL_USE) ;;
       name <- get toolUse "name" ;;
       input <- get toolUse "input" ;;
       writer_write (Data (obj [("type", str "tool_use");
                                ("name", name);
                                ("input", input)])))
      (fun _ => ret tt)
  else if includes line CLAUDE_FIX then
    try_catch
      (fixMessage <- JSON_parse_M (payload line CLAUDE_FIX) ;;
       content <- get fixMessage "content" ;;
       attempt <- get fixMessage "attempt" ;;
       writer_write (Data (obj [("type", str "healing_message");
                                ("content", content);
                                ("attempt", attempt)])))
      (fun _ => ret tt)
  else if includes line TOOL_FIX then
    try_catch
      (toolFix <- JSON_parse_M (payload line TOOL_FIX) ;;
       name <- get toolFix "name" ;;
       input <- get toolFix "input" ;;
       attempt <- get toolFix "attempt" ;;
       writer_write (Data (obj [("type", str "healing_tool");
                                ("name", name);
                                ("input", input);
                                ("attempt", attempt)])))
      (fun _ => ret tt)
  else if includes line HEALING_START then
    writer_write (Data (obj [("type", str "healing_status");
                             ("status", str "starting")]))
  else if includes line HEALING_END then
    writer_write (Data (obj [("type", str "healing_status");
                             ("status", str "ended")]))
  else if includes line HEAL_SUCCESS then
    writer_write (Data (obj [("type", str "healing_status");
                             ("status", str "success")]))
  else if includes line HEAL_FAILED then
    try_catch
      (failInfo <- JSON_parse_M (payload line HEAL_FAILED) ;;
       error <- get failInfo "error" ;;
       attempts <- get failInfo "attempts" ;;
       writer_write (Data (obj [("type", str "healing_status");
                                ("status", str "failed");
                                ("error", error);
                                ("attempts", attempts)])))
      (fun _ =>
         writer_write (Data (obj [("type", str "healing_status");
                                  ("status", str "failed")])))
  else if includes line MODIFICATION_COMPLETE then
    writer_write (Data (obj [("type", str "modification_complete")]))
  else
    let output := trim line in
    if truthy output
       && negb (includes output (lit "[Claude]:"))
       && negb (includes output (lit "[Tool]:"))
       && negb (includes output (lit "__"))
    then
      writer_write (Data (obj [("type", str "progress");
                               ("message", VStr output)]))
    else ret tt.

(** The [data] callback of [child.stdout], lines 46 to 192. *)
Definition stdout_data (data : jsstring) : M state unit :=
  buf <- gets buffer ;;
  let buffer1 := buf ++ data in
  let '(fragment, lines) := pop (split NL buffer1) in
  set_buffer (or_empty fragment) ;;
  for_of lines on_line.

(** The [data] callback of [child.stderr], lines 195 to 208. *)
Definition stderr_data (data : jsstring) : M state unit :=
  let error := data in
  if includes error (lit "Error") || includes error (lit "Failed") then
    writer_write (Data (obj [("type", str "error");
                             ("message", VStr (trim error))]))
  else ret tt.

(** What the child process does, as the handler sees it. *)
Inductive io_event : Type :=
| Stdout (data : jsstring)
| Stderr (data : jsstring).

(** How the wait for the child ends: an [exit] event with its code
    ([null] when a signal killed it), or an [error] event. *)
Inductive ending : Type :=
| Exit (code : option Z)
| ErrorEvent (e : exn).

Record process : Type := mkProcess {
  spawn_throws : option exn;   (* [spawn] itself throws *)
  io : list io_event;
  ends : ending
}.

Definition spawn (p : process) : M state unit :=
  match spawn_throws p with
  | Some e => throw e
  | None => ret tt
  end.

Definition dispatch (ev : io_event) : M state unit :=
  match ev with
  | Stdout data => detached (stdout_data data)
  | Stderr data => detached (stderr_data data)
  end.

(** The promise of lines 211 to 221. *)
Definition wait_for_exit (e : ending) : M state unit :=
  match e with
  | Exit (Some 0%Z) => ret tt
  | Exit (Some code) =>
      throw (Error (lit "Process exited with code " ++ decimal_Z code))
  | Exit None => throw (Error (lit "Process exited with code null"))
  | ErrorEvent e => throw e
  end.

(** The asynchronous block of lines 31 to 245.  The callbacks run, one
    event at a time, while the block waits for the child to end. *)
Definition forward (p : process) : M state unit :=
  try_catch_finally
    (spawn p ;;
     set_buffer [] ;;
     for_of (io p) dispatch ;;
     wait_for_exit (ends p) ;;
     writer_write (Data (obj [("type", str "complete")])) ;;
     writer_write DONE)
    (fun error =>
       writer_write (Data (obj [("type", str "error");
                                ("message", VStr (message error))])) ;;
       writer_write DONE)
    writer_close.

End Writer.

(** A sink that takes every chunk. *)
Definition always : nat -> bool := fun _ => true.

(** *** Notions the statements use *)

(** The complete lines of a text and the fragment after its last line
    terminator: what [split] and [pop] make of it at lines 48 and 49. *)
Definition complete_lines (text : jsstring) : list jsstring :=
  snd (pop (split NL text)).

Definition fragment (text : jsstring) : jsstring :=
  or_empty (fst (pop (split NL text))).

(** The frames [fs] written to an accepting sink. *)
Definition push (fs : list frame) (s : state) : state :=
  fold_left
    (fun s f => mkState (buffer s) (delivered s ++ [f])
                        (S (write_calls s)) (close_calls s))
    fs s.

(** The frames the loop body writes for one line, when the sink takes
    them. *)
Definition line_frames (line : jsstring) : list frame :=
  delivered (snd (on_line always TypeError line initial)).

(** The state after the [data] callback of standard output has taken
    [text], when the sink takes every frame. *)
Definition fed (text : jsstring) (s : state) : state :=
  push (flat_map line_frames (complete_lines (buffer s ++ text)))
       (with_buffer (fragment (buffer s ++ text)) s).

(** The markers in the order the [if] chain tests them, and the one whose
    branch a line takes. *)
Definition markers : list jsstring :=
  [CLAUDE_MESSAGE; TOOL_USE; CLAUDE_FIX; TOOL_FIX; HEALING_START;
   HEALING_END; HEAL_SUCCESS; HEAL_FAILED; MODIFICATION_COMPLETE].

Definition selected (line : jsstring) : option jsstring :=
  find (includes line) markers.

(** The markers whose branch parses a payload and drops the line when the
    parse fails. *)
Definition parsed_markers : list jsstring :=
  [CLAUDE_MESSAGE; TOOL_USE; CLAUDE_FIX; TOOL_FIX].

Definition failed_status : frame :=
  Data (obj [("type", str "healing_status"); ("status", str "failed")]).

Definition complete_event : frame := Data (obj [("type", str "complete")]).

Definition error_event (text : jsstring) : frame :=
  Data (obj [("type", str "error"); ("message", VStr text)]).

(** How the wait for the child ends, whatever the sink does: normally, or
    with the exception the [catch] of line 233 receives. *)
Definition termination (p : process) : outcome unit :=
  fst ((spawn p ;; wait_for_exit (ends p)) initial).

(** The terminal signal that goes with it. *)
Definition terminal_event (p : process) : frame :=
  match termination p with
  | Ok _ => complete_event
  | Throw e => error_event (message e)
  end.

(** A frame a [data] callback can write: an event object whose [type] is
    not [complete]; never the sentinel. *)
Definition callback_frame (f : frame) : bool :=
  match f with
  | Data (VObj ((k, VStr t) :: _)) =>
      str_eqb k (lit "type") && negb (str_eqb t (lit "complete"))
  | _ => false
  end.

(** A computation that never calls [writer.close] and writes nothing but
    [allowed] frames. *)
Definition tame (allowed : frame -> bool) {A} (m : M state A) : Prop :=
  forall s,
    close_calls (snd (m s)) = close_calls s
    /\ exists fs,
         delivered (snd (m s)) = delivered s ++ fs
         /\ Forall (fun f => allowed f = true) fs.

(** The state in which the wait for the child ends: after [spawn] and
    all the [data] callbacks. *)
Definition forwarding (accepts : nat -> bool) (rejection : exn) (p : process)
  : state :=
  snd ((spawn p ;; set_buffer [] ;;
        for_of (io p) (dispatch accepts rejection)) initial).

(** The standard-output callbacks of a list of chunks, run one after the
    other from the state in which the block starts, with a sink that takes
    every frame. *)
Definition feed (rejection : exn) (chunks : list jsstring) : state :=
  snd (for_of chunks (fun c => dispatch always rejection (Stdout c)) initial).

(** A child process that only writes to its standard output. *)
Definition stdout_only (chunks : list jsstring) (code : option Z) : process :=
  mkProcess None (map Stdout chunks) (Exit code).

End Route.

(* ================================================================= *)
(** ** The build / repair loop: [verifyAndFixBuild] of [scripts/modify-app.ts] *)

Module Repair.

(** One argument of [console.log]: a string, or [JSON.stringify(v)]. *)
Inductive arg : Type :=
| Str (s : jsstring)
| Json (v : value)
| Undefined.

(** One call of [console.log] or [console.error]. *)
Inductive console_call : Type :=
| Log (args : list arg)
| LogError (args : list arg).

(** What [runCommand] resolves to. *)
Record command_result : Type := mkResult {
  success : bool;
  output : jsstring
}.

(** A message of the generation SDK's [query] stream. *)
Inductive sdk_message : Type :=
| Text (text : value)
| ToolUse (name input : value)
| OtherMessage.

Definition HEALING_START := lit "__HEALING_START__".
Definition HEALING_END := lit "__HEALING_END__".
Definition HEAL_FAILED := lit "__HEAL_FAILED__".
Definition CLAUDE_FIX := lit "__CLAUDE_FIX__".
Definition TOOL_FIX := lit "__TOOL_FIX__".

(** The text the script gives up with, line 222. *)
Definition give_up_text : jsstring :=
  lit "Build verification failed after multiple fix attempts".

(** The repair prompt of lines 167 to 180, around the build's output. *)
Definition fix_prompt (build_output : jsstring) : jsstring :=
  lit "I have a Next.js application that failed to build with the following error:

" ++ build_output ++ lit "

Please analyze the error and fix it by:
1. Reading the relevant files to understand the issue
2. Creating any missing components or files
3. Fixing import/export issues
4. Ensuring all required dependencies are properly installed
5. Making sure the application builds successfully

The application is located in the current directory. Focus on fixing the specific build errors mentioned.

Important: Only make the minimal necessary changes to fix the build errors.".

Arguments fix_prompt : simpl never.

Section Script.

(** The sandbox the script runs in: its files and processes.  A build
    and a repair both read and change it. *)
Variable World : Type.

(** [runCommand('npm run build', { cwd: projectDir })]; its promise only
    ever resolves. *)
Variable npm_run_build : World -> command_result * World.

(** [query({ prompt, options })]: the messages the stream yields, then
    its normal end ([None]) or the exception it throws. *)
Variable query : jsstring -> World -> (list sdk_message * option exn) * World.

(** The sandbox, the console, and two counters for the calls of the
    build check and of the repair capability. *)
Record state : Type := mkState {
  world : World;
  console : list console_call;
  builds : nat;
  repairs : nat
}.

Definition start (w : World) : state := mkState w [] 0 0.

Definition console_log (args : list arg) : M state unit :=
  modify (fun s => mkState (world s) (console s ++ [Log args])
                           (builds s) (repairs s)).

Definition console_error (args : list arg) : M state unit :=
  modify (fun s => mkState (world s) (console s ++ [LogError args])
                           (builds s) (repairs s)).

Definition runCommand_build : M state command_result :=
  fun s =>
    let '(r, w) := npm_run_build (world s) in
    (Ok r, mkState w (console s) (S (builds s)) (repairs s)).

(** [for await (const message of query(...)) { body }]. *)
Definition for_await_query (prompt : jsstring)
  (body : sdk_message -> M state unit) : M state unit :=
  fun s =>
    let '((messages, thrown), w) := query prompt (world s) in
    (for_of messages body ;;
     match thrown with
     | Some e => throw e
     | None => ret tt
     end)
      (mkState w (console s) (builds s) (S (repairs s))).

Definition num (n : nat) : value := VNum (decimal_nat n).

Variable maxAttempts : nat.

(** The text [ (attempt ${attempt}/${maxAttempts})]. *)
Definition of_max (attempt : nat) : jsstring :=
  decimal_nat attempt ++ lit "/" ++ decimal_nat maxAttempts.

(** The body of the [for await] of lines 196 to 209: a message of the
    repair is printed again, tagged with the attempt. *)
Definition relay (attempt : nat) (message : sdk_message) : M state unit :=
  match message with
  | Text text =>
      console_log [Str CLAUDE_FIX;
                   Json (obj [("type", str "assistant");
                              ("content", text);
                              ("attempt", num attempt)])]
  | ToolUse name input =>
      console_log [Str TOOL_FIX;
                   Json (obj [("type", str "tool_use");
                              ("name", name);
                              ("input", input);
                              ("attempt", num attempt)])]
  | OtherMessage => ret tt
  end.

Definition attempting : console_call :=
  Log [Str (10 :: 55357 :: 56615 ::
            lit " Attempting to fix build errors with Claude Code...")%N].

Definition analyzing (attempt : nat) : console_call :=
  Log [Str CLAUDE_FIX;
       Json (obj [("type", str "assistant");
                  ("content", str "Analyzing build errors and creating fixes...");
                  ("attempt", num attempt)])].

(** Lines 164 to 218: one repair. *)
Definition heal (attempt : nat) (buildResult : command_result)
  : M state unit :=
  console_log [Str (10 :: 55357 :: 56615 ::
                    lit " Attempting to fix build errors with Claude Code...")%N] ;;
  console_log [Str HEALING_START] ;;
  let prompt := fix_prompt (output buildResult) in
  try_catch
    (console_log [Str CLAUDE_FIX;
                  Json (obj [("type", str "assistant");
                             ("content", str "Analyzing build errors and creating fixes...");
                             ("attempt", num attempt)])] ;;
     for_await_query prompt (relay attempt) ;;
     console_log [Str (9989 :: lit " Build error fixing completed")%N] ;;
     console_log [Str HEALING_END])
    (fun error =>
       console_error [Str (lit "Build fixing failed:"); Str (message error)] ;;
       console_log [Str HEALING_END]).

(** What [relay] prints for a list of messages. *)
Definition fix_logs (attempt : nat) (messages : list sdk_message)
  : list console_call :=
  flat_map (fun message =>
    match message with
    | Text text =>
        [Log [Str CLAUDE_FIX;
              Json (obj [("type", str "assistant");
                         ("content", text);
                         ("attempt", num attempt)])]]
    | ToolUse name input =>
        [Log [Str TOOL_FIX;
              Json (obj [("type", str "tool_use");
                         ("name", name);
                         ("input", input);
                         ("attempt", num attempt)])]]
    | OtherMessage => []
    end) messages.

(** The state one repair leaves behind. *)
Definition healed (attempt : nat) (buildResult : command_result)
  (s : state) : state :=
  let '((messages, thrown), w) :=
    query (fix_prompt (output buildResult)) (world s) in
  mkState w
    (console s ++ [attempting; Log [Str HEALING_START]; analyzing attempt]
       ++ fix_logs attempt messages
       ++ match thrown with
          | None =>
              [Log [Str (9989 :: lit " Build error fixing completed")%N]]
          | Some error =>
              [LogError [Str (lit "Build fixing failed:");
                         Str (message error)]]
          end
       ++ [Log [Str HEALING_END]])
    (builds s) (S (repairs s)).

(** The [for] loop of lines 148 to 227, from [attempt] on; [fuel] bounds
    the iterations still to run.  [true] is the build that succeeded,
    [false] the retries that ran out. *)
Fixpoint attempts_from (fuel attempt : nat) {struct fuel} : M state bool :=
  match fuel with
  | O => ret false
  | S fuel' =>
      if (attempt <=? maxAttempts)%nat then
        console_log [Str (10 :: 55357 :: 56589 ::
                          lit " Build verification attempt " ++
                          of_max attempt ++ lit "...")%N] ;;
        buildResult <- runCommand_build ;;
        if success buildResult then
          console_log [Str (9989 :: lit " Build successful!")%N] ;;
          ret true
        else
          console_log [Str (10060 :: lit " Build failed (attempt " ++
                            of_max attempt ++ lit ")")%N] ;;
          console_log [Str (lit "Build errors:")] ;;
          console_log [Str (output buildResult)] ;;
          if (attempt <? maxAttempts)%nat then
            heal attempt buildResult ;;
            attempts_from fuel' (S attempt)
          else
            console_log [Str (10060 :: lit " Build still failing after " ++
                              decimal_nat maxAttempts ++ lit " attempts")%N] ;;
            console_log [Str HEAL_FAILED;
                         Json (obj [("error", VStr give_up_text);
                                    ("attempts", num maxAttempts)])] ;;
            ret false
      else ret false
  end.

(** The pieces of console output of one iteration, and the states
    between its steps; the lemmas below describe the loop with them. *)
Definition verifying (attempt : nat) : console_call :=
  Log [Str (10 :: 55357 :: 56589 :: lit " Build verification attempt " ++
            of_max attempt ++ lit "...")%N].

Definition failed_logs (attempt : nat) (r : command_result)
  : list console_call :=
  [verifying attempt;
   Log [Str (10060 :: lit " Build failed (attempt " ++
             of_max attempt ++ lit ")")%N];
   Log [Str (lit "Build errors:")];
   Log [Str (output r)]].

(** After a failed build check and its report. *)
Definition built (attempt : nat) (s : state) : state :=
  let '(r, w) := npm_run_build (world s) in
  mkState w (console s ++ failed_logs attempt r) (S (builds s)) (repairs s).

(** The two lines the loop gives up with, lines 220 to 224. *)
Definition gave_up : list console_call :=
  [Log [Str (10060 :: lit " Build still failing after " ++
             decimal_nat maxAttempts ++ lit " attempts")%N];
   Log [Str HEAL_FAILED;
        Json (obj [("error", VStr give_up_text);
                   ("attempts", num maxAttempts)])]].

Definition add_console (logs : list console_call) (s : state) : state :=
  mkState (world s) (console s ++ logs) (builds s) (repairs s).

(** [verifyAndFixBuild()], lines 145 to 230: [attempt] runs from 1 to
    [maxAttempts], so [maxAttempts] iterations are all there can be. *)
Definition verifyAndFixBuild : M state bool :=
  attempts_from maxAttempts 1.

End Script.

(** *** The TypeScript driver, lines 624 to 770

    The same loop, run from outside the sandbox: the build and the repair
    are commands sent to the sandbox, and the function returns nothing. *)

(** The three commands [verifyAndFixBuild] sends. *)
Inductive command : Type :=
| NpmRunBuild
    (* [npm run build] in the project directory, line 636 *)
| WriteFixScript (buildError : jsstring) (attempt : nat)
    (* [cat > fix-build.js], the script of lines 657 to 724 *)
| RunFixScript.
    (* [node fix-build.js], line 735 *)

(** What [sandbox.process.executeCommand] resolves to. *)
Record response : Type := mkResponse {
  exitCode : Z;
  result : option jsstring
}.

(** [text.replace(/`/g, "\\`")]. *)
Fixpoint escape_backticks (text : jsstring) : jsstring :=
  match text with
  | [] => []
  | c :: text' =>
      if (c =? 96)%N then 92%N :: 96%N :: escape_backticks text'
      else c :: escape_backticks text'
  end.

(** [buildResult.result?.replace(...) || "Unknown build error"]. *)
Definition build_error_of (r : response) : jsstring :=
  match result r with
  | Some text =>
      if truthy (escape_backticks text) then escape_backticks text
      else lit "Unknown build error"
  | None => lit "Unknown build error"
  end.

Definition printed (x : option jsstring) : arg :=
  match x with
  | Some text => Str text
  | None => Undefined
  end.

Section Driver.

Variable World : Type.

(** [await sandbox.process.executeCommand(...)]: the sandbox answers, or
    the call is rejected. *)
Variable executeCommand : command -> World -> outcome response * World.

Variable maxAttempts : nat.

(** A command sent; the counters record the build checks and the runs of
    the repair script. *)
Definition execute (c : command) : M (state World) response :=
  fun s =>
    let '(r, w) := executeCommand c (world s) in
    (r, mkState w (console s)
          (match c with NpmRunBuild => S (builds s) | _ => builds s end)
          (match c with RunFixScript => S (repairs s) | _ => repairs s end)).

(** Lines 653 to 751: one repair. *)
Definition driver_heal (attempt : nat) (buildResult : response)
  : M (state World) unit :=
  console_log [Str (10 :: 55357 :: 56615 ::
                    lit " Attempting to fix build errors with Claude Code...")%N] ;;
  console_log [Str HEALING_START] ;;
  execute (WriteFixScript (build_error_of buildResult) attempt) ;;
  console_log [Str (55357 :: 56960 :: lit " Running build error fix...")%N] ;;
  fixResult <- execute RunFixScript ;;
  console_log [Str (lit "Fix result:"); printed (result fixResult)] ;;
  console_log [Str HEALING_END] ;;
  if negb (exitCode fixResult =? 0)%Z then
    console_log [Str (9888 :: 65039 ::
                      lit " Build fixing encountered issues, will retry build anyway")%N]
  else ret tt.

(** The [for] loop of lines 632 to 769, from [attempt] on. *)
Fixpoint driver_attempts_from (fuel attempt : nat) {struct fuel}
  : M (state World) unit :=
  match fuel with
  | O => ret tt
  | S fuel' =>
      if (attempt <=? maxAttempts)%nat then
        console_log [Str (10 :: 55357 :: 56589 ::
                          lit " Build verification attempt " ++
                          of_max maxAttempts attempt ++ lit "...")%N] ;;
        buildResult <- execute NpmRunBuild ;;
        if (exitCode buildResult =? 0)%Z then
          console_log [Str (9989 :: lit " Build successful!")%N]
        else
          console_log [Str (10060 :: lit " Build failed (attempt " ++
                            of_max maxAttempts attempt ++ lit ")")%N] ;;
          console_log [Str (lit "Build errors:")] ;;
          console_log [printed (result buildResult)] ;;
          if (attempt <? maxAttempts)%nat then
            driver_heal attempt buildResult ;;
            driver_attempts_from fuel' (S attempt)
          else
            console_log [Str (10060 :: lit " Build still failing after " ++
                              decimal_nat maxAttempts ++ lit " attempts")%N] ;;
            console_log [Str HEAL_FAILED;
                         Json (obj [("error", VStr give_up_text);
                                    ("attempts", num maxAttempts)])] ;;
            console_log [Str (9888 :: 65039 ::
                              lit " Continuing with development server despite build issues...")%N]
      else ret tt
  end.

(** The sandbox answers every command, and no build succeeds. *)
Definition answers_failing : Prop :=
  forall c w, exists r w',
    executeCommand c w = (Ok r, w')
    /\ (c = NpmRunBuild -> exitCode r <> 0%Z).

Definition driver_verifyAndFixBuild : M (state World) unit :=
  driver_attempts_from maxAttempts 1.

(** The three lines the driver gives up with, lines 753 to 766. *)
Definition driver_gave_up : list console_call :=
  gave_up maxAttempts ++
  [Log [Str (9888 :: 65039 ::
             lit " Continuing with development server despite build issues...")%N]].

End Driver.

(** The line that reports the exhausted retries, in both forms. *)
Definition heal_failed_line (maxAttempts : nat) : console_call :=
  Log [Str HEAL_FAILED;
       Json (obj [("error", VStr give_up_text);
                  ("attempts", num maxAttempts)])].

(** *** Sandboxes to run the loops in *)

(** A build that fails with one diagnostic whatever is done. *)
Definition diagnostic : jsstring := lit "Module not found: './Foo'".

Definition hopeless_build (w : unit) : command_result * unit :=
  (mkResult false diagnostic, w).

(** A repair that ends normally without a message. *)
Definition quiet_query (prompt : jsstring) (w : unit)
  : (list sdk_message * option exn) * unit :=
  (([], None), w).

(** A repair that yields one message and then throws. *)
Definition raising_query (prompt : jsstring) (w : unit)
  : (list sdk_message * option exn) * unit :=
  (([Text (str "Let me look at the imports")],
    Some (Error (lit "rate limit exceeded"))), w).

(** A sandbox that counts the repairs made; the build succeeds once there
    was one. *)
Definition mended_build (w : nat) : command_result * nat :=
  (mkResult (0 <? w)%nat (if (0 <? w)%nat then [] else diagnostic), w).

Definition mending_query (prompt : jsstring) (w : nat)
  : (list sdk_message * option exn) * nat :=
  (([ToolUse (str "Write") (obj [("file_path", str "Foo.tsx")])], None), S w).

(** The driver's sandbox in which no build succeeds. *)
Definition hopeless_sandbox (c : command) (w : unit)
  : outcome response * unit :=
  match c with
  | NpmRunBuild => (Ok (mkResponse 1 (Some diagnostic)), w)
  | WriteFixScript _ _ => (Ok (mkResponse 0 (Some [])), w)
  | RunFixScript => (Ok (mkResponse 0 (Some (lit "done"))), w)
  end.

(** The ceiling both forms fix, lines 146 and 630. *)
Definition maxAttempts_of_source : nat := 3.

End Repair.

(* ================================================================= *)
(** ** Further notions for the statements *)

Module RouteMore.
Import Route.

(** The text the child has written to its standard output, in order. *)
Definition stdout_text (events : list io_event) : jsstring :=
  flat_map (fun ev => match ev with
                      | Stdout data => data
                      | Stderr _ => []
                      end) events.

(** The words that mark a line as internal in the [else] branch of lines
    173 to 190. *)
Definition internal (output : jsstring) : bool :=
  includes output (lit "[Claude]:")
  || includes output (lit "[Tool]:")
  || includes output (lit "__").

(** A computation that leaves the partial-line buffer alone. *)
Definition keeps_buffer {A} (m : M state A) : Prop :=
  forall s, buffer (snd (m s)) = buffer s.

(** The value of [v.k] when reading it does not throw. *)
Definition property (v : value) (k : string) : value :=
  match v with
  | VObj props => lookup (lit k) props
  | _ => VUndefined
  end.

End RouteMore.

Module RepairMore.
Import Repair.

(** A console line that is exactly the word [marker]. *)
Definition is_line (marker : jsstring) (c : console_call) : bool :=
  match c with
  | Log [Str text] => str_eqb text marker
  | _ => false
  end.

(** A console line made of [__HEAL_FAILED__] and a payload. *)
Definition reports_failure (c : console_call) : bool :=
  match c with
  | Log [Str text; Json _] => str_eqb text HEAL_FAILED
  | _ => false
  end.

Definition count (f : console_call -> bool) (console : list console_call)
  : nat :=
  List.length (filter f console).

(** Every backtick has a backslash right before it; [prev] is the
    character before the text. *)
Fixpoint backticks_guarded (prev : char) (text : jsstring) : bool :=
  match text with
  | [] => true
  | c :: text' =>
      (if (c =? 96)%N then (prev =? 92)%N else true)
      && backticks_guarded c text'
  end.

(** No build prints a line that is exactly one of the two healing
    markers. *)
Definition quiet_builds {World : Type}
  (npm_run_build : World -> command_result * World) : Prop :=
  forall w,
    str_eqb (output (fst (npm_run_build w))) HEALING_START = false
    /\ str_eqb (output (fst (npm_run_build w))) HEALING_END = false.

End RepairMore.

(* ================================================================= *)
(** ** The modification script: [modifyApplication] and [runCommand]

    The script that [scripts/modify-app.ts] writes into the sandbox, lines
    37 to 235, for a project directory and a request whose text the
    template takes as it is. *)

Module Script.
Import Repair.

Definition CLAUDE_MESSAGE := lit "__CLAUDE_MESSAGE__".
Definition TOOL_USE := lit "__TOOL_USE__".
Definition MODIFICATION_COMPLETE := lit "__MODIFICATION_COMPLETE__".

(** A quotation mark. *)
Definition dq : jsstring := [34%N].

Definition pkill_command : jsstring :=
  lit "pkill -f " ++ dq ++ lit "next dev" ++ dq ++ lit " || true".

Definition build_command : jsstring := lit "npm run build".

Definition dev_command : jsstring :=
  lit "nohup npm run dev > dev-server.log 2>&1 &".

Definition health_command : jsstring :=
  lit "curl -s -o /dev/null -w " ++ dq ++ lit "%{http_code}" ++ dq
    ++ lit " http://localhost:3000".

(** The prompt of lines 49 to 61. *)
Definition modify_prompt (projectDir modificationRequest : jsstring)
  : jsstring :=
  lit "I need to modify an existing Next.js application based on this user request:

" ++ dq ++ modificationRequest ++ dq ++ lit "

The application is located at: " ++ projectDir ++ lit "

Please:
1. First, understand the current application structure by reading key files
2. Make the requested changes while maintaining the existing functionality
3. Ensure the modified app still builds and runs correctly
4. Test that the changes work as expected

Focus on making targeted changes that fulfill the user's request.".

Arguments modify_prompt : simpl never.

(** What a shell command does, as [runCommand] sees it: the chunks of
    its standard output and standard error in the order they arrive, and
    its exit code ([null] when a signal ended it). *)
Record shell_run : Type := mkShellRun {
  chunks : list jsstring;
  code : option Z
}.

Section Application.

Variable World : Type.

(** [spawn(command, { shell: true, cwd })]. *)
Variable shell : jsstring -> World -> shell_run * World.

(** [query] with the options of the first generation (12 turns), and
    with those of a repair (8 turns). *)
Variable generate : jsstring -> World -> (list sdk_message * option exn) * World.
Variable query : jsstring -> World -> (list sdk_message * option exn) * World.

(** What eight seconds do to the sandbox. *)
Variable eight_seconds : World -> World.

(** How [console.error] shows an error object. *)
Variable inspect : exn -> jsstring.

Variables projectDir modificationRequest : jsstring.

(** [runCommand], lines 128 to 143, as a function of the sandbox. *)
Definition runCommand_in (command : jsstring) (w : World)
  : command_result * World :=
  let '(run, w') := shell command w in
  (mkResult (match code run with Some 0%Z => true | _ => false end)
            (trim (List.concat (chunks run))),
   w').

(** [await runCommand(command, { cwd: projectDir })]. *)
Definition runCommand (command : jsstring) : M (state World) command_result :=
  fun s =>
    let '(r, w) := runCommand_in command (world s) in
    (Ok r, mkState w (console s) (builds s) (repairs s)).

(** The [for await] of lines 69 to 88. *)
Definition show (message : sdk_message) : M (state World) unit :=
  match message with
  | Text text =>
      console_log [Str CLAUDE_MESSAGE;
                   Json (obj [("type", str "assistant"); ("content", text)])]
  | ToolUse name input =>
      console_log [Str TOOL_USE;
                   Json (obj [("type", str "tool_use");
                              ("name", name);
                              ("input", input)])]
  | OtherMessage => ret tt
  end.

Definition for_await_generate (prompt : jsstring)
  (body : sdk_message -> M (state World) unit) : M (state World) unit :=
  fun s =>
    let '((messages, thrown), w) := generate prompt (world s) in
    (for_of messages body ;;
     match thrown with
     | Some e => throw e
     | None => ret tt
     end)
      (mkState w (console s) (builds s) (repairs s)).

(** [await new Promise(resolve => setTimeout(resolve, 8000))]. *)
Definition wait_eight_seconds : M (state World) unit :=
  modify (fun s => mkState (eight_seconds (world s)) (console s)
                           (builds s) (repairs s)).

(** Lines 90 to 120: the build is verified and the server restarted. *)
Definition test_application : M (state World) unit :=
  console_log [Str (55357 :: 56580 ::
                    lit " Testing the modified application...")%N] ;;
  runCommand pkill_command ;;
  buildSuccess <- verifyAndFixBuild (runCommand_in build_command) query
                    maxAttempts_of_source ;;
  if (buildSuccess : bool) then
    console_log [Str (9989 :: lit " Build successful after modifications")%N] ;;
    runCommand dev_command ;;
    wait_eight_seconds ;;
    healthCheck <- runCommand health_command ;;
    if truthy (output healthCheck)
       && includes (output healthCheck) (lit "200")
    then
      console_log [Str (9989 ::
                        lit " Application is running with modifications!")%N] ;;
      console_log [Str MODIFICATION_COMPLETE]
    else
      console_log [Str (9888 :: 65039 ::
                        lit "  Application may need more time to start")%N] ;;
      console_log [Str MODIFICATION_COMPLETE]
  else
    console_log [Str (10060 ::
                      lit " Build verification failed after modifications")%N] ;;
    console_log [Str MODIFICATION_COMPLETE].

(** [modifyApplication()], lines 45 to 126. *)
Definition modifyApplication : M (state World) unit :=
  console_log [Str (lit "Working on project:"); Str projectDir] ;;
  console_log [Str (lit "Modification request:"); Str modificationRequest] ;;
  let prompt := modify_prompt projectDir modificationRequest in
  try_catch
    (console_log [Str CLAUDE_MESSAGE;
                  Json (obj [("type", str "assistant");
                             ("content",
                              str "Starting to analyze your request and the current application...")])] ;;
     for_await_generate prompt show ;;
     test_application)
    (fun error =>
       console_error [Str (lit "Modification failed:"); Str (message error)] ;;
       throw error).

(** The script from its first line to the end of the process: the
    console and the exit code. *)
Definition script (w : World) : Z * state World :=
  let s0 :=
    mkState w [Log [Str (55358 :: 56598 ::
                         lit " Starting application modification...")%N]]
            0 0 in
  match modifyApplication s0 with
  | (Ok _, s) => (0%Z, s)
  | (Throw error, s) =>
      (1%Z,
       mkState (world s)
         (console s ++ [LogError [Str (lit "Fatal modification error:");
                                  Str (inspect error)]])
         (builds s) (repairs s))
  end.

End Application.

(** A sandbox in which every command prints [200] and exits with code 0. *)
Definition calm_shell (command : jsstring) (w : unit) : shell_run * unit :=
  (mkShellRun [lit " 200"; [NL]] (Some 0%Z), w).

End Script.

(* ================================================================= *)
(** ** The producer's side of a tagged line: [JSON.stringify] and
    [console.log] *)

Module Codec.
Import Repair.

(** A hexadecimal digit, in lower case. *)
Definition hex_char (d : N) : char :=
  if (d <? 10)%N then (48 + d)%N else (87 + d)%N.

(** The escape [\uXXXX] of a code unit. *)
Definition unicode_escape (c : char) : jsstring :=
  [92; 117; hex_char (c / 4096); hex_char ((c / 256) mod 16);
   hex_char ((c / 16) mod 16); hex_char (c mod 16)]%N.

Definition is_high (c : char) : bool := ((55296 <=? c) && (c <=? 56319))%N.
Definition is_low (c : char) : bool := ((56320 <=? c) && (c <=? 57343))%N.

(** [QuoteJSONString] without the quotation marks: the two-character
    escapes, [\uXXXX] for the other control characters and for a
    surrogate that has no partner, every other code unit as it is. *)
Fixpoint quote_chars (s : jsstring) : jsstring :=
  match s with
  | [] => []
  | c :: s' =>
      if (c =? 34)%N then 92%N :: 34%N :: quote_chars s'
      else if (c =? 92)%N then 92%N :: 92%N :: quote_chars s'
      else if (c =? 8)%N then 92%N :: 98%N :: quote_chars s'
      else if (c =? 12)%N then 92%N :: 102%N :: quote_chars s'
      else if (c =? 10)%N then 92%N :: 110%N :: quote_chars s'
      else if (c =? 13)%N then 92%N :: 114%N :: quote_chars s'
      else if (c =? 9)%N then 92%N :: 116%N :: quote_chars s'
      else if (c <? 32)%N then unicode_escape c ++ quote_chars s'
      else if is_high c then
        match s' with
        | d :: s'' =>
            if is_low d then c :: d :: quote_chars s''
            else unicode_escape c ++ quote_chars s'
        | [] => unicode_escape c
        end
      else if is_low c then unicode_escape c ++ quote_chars s'
      else c :: quote_chars s'
  end.

Definition quote (s : jsstring) : jsstring := 34%N :: quote_chars s ++ [34%N].

(** [parts.join(",")]. *)
Fixpoint join_comma (parts : list jsstring) : jsstring :=
  match parts with
  | [] => []
  | [part] => part
  | part :: parts' => part ++ 44%N :: join_comma parts'
  end.

(** [JSON.stringify(v)]; [None] is [undefined].  A property whose value
    is [undefined] is left out, and [undefined] in an array is printed as
    [null].  A number is printed as its numeral.  The properties of an
    object are printed in the order of the list, which is the order of a
    JavaScript object whose keys are distinct and not array indices. *)
Fixpoint JSON_stringify (v : value) : option jsstring :=
  match v with
  | VUndefined => None
  | VNull => Some (lit "null")
  | VBool true => Some (lit "true")
  | VBool false => Some (lit "false")
  | VNum numeral => Some numeral
  | VStr s => Some (quote s)
  | VArr items =>
      Some (91%N ::
            join_comma
              (map (fun item =>
                      match JSON_stringify item with
                      | Some text => text
                      | None => lit "null"
                      end) items)
            ++ [93%N])
  | VObj props =>
      Some (123%N ::
            join_comma
              (flat_map (fun kv =>
                           match JSON_stringify (snd kv) with
                           | Some text => [quote (fst kv) ++ 58%N :: text]
                           | None => []
                           end) props)
            ++ [125%N])
  end.

(** How [console.log] prints one argument after the first: a string as
    it is. *)
Definition show_arg (a : arg) : jsstring :=
  match a with
  | Str s => s
  | Json v =>
      match JSON_stringify v with
      | Some text => text
      | None => lit "undefined"
      end
  | Undefined => lit "undefined"
  end.

Fixpoint join_space (parts : list jsstring) : jsstring :=
  match parts with
  | [] => []
  | [part] => part
  | part :: parts' => part ++ 32%N :: join_space parts'
  end.

(** The line [console.log(...args)] writes, without its line terminator,
    when the first argument holds no format specifier. *)
Definition printed_line (c : console_call) : jsstring :=
  match c with
  | Log args | LogError args => join_space (map show_arg args)
  end.

(** A numeral of a natural number: digits, without a leading zero. *)
Definition natural_numeral (numeral : jsstring) : bool :=
  match numeral with
  | [] => false
  | [c] => is_digit c
  | c :: rest => is_digit c && negb (c =? 48)%N && forallb is_digit rest
  end.

(** A key that is not made of digits only, so not an array index. *)
Definition plain_key (k : jsstring) : bool :=
  negb (forallb is_digit k).

Fixpoint distinct (keys : list jsstring) : bool :=
  match keys with
  | [] => true
  | k :: keys' => negb (existsb (str_eqb k) keys') && distinct keys'
  end.

(** The values this file prints and reads back: no [undefined] inside,
    natural numbers, and objects whose keys are distinct and not array
    indices. *)
Fixpoint printable (v : value) : bool :=
  match v with
  | VUndefined => false
  | VNull | VBool _ | VStr _ => true
  | VNum numeral => natural_numeral numeral
  | VArr items => forallb printable items
  | VObj props =>
      forallb (fun kv => printable (snd kv)) props
      && forallb (fun kv => plain_key (fst kv)) props
      && distinct (map fst props)
  end.

(** The text of a value inside an array. *)
Definition text_of (v : value) : jsstring :=
  match JSON_stringify v with
  | Some text => text
  | None => lit "null"
  end.

(** What may follow a number: not a digit, a point or an exponent. *)
Definition stops (rest : jsstring) : bool :=
  match rest with
  | [] => true
  | c :: _ => negb (is_digit c || (c =? 46) || (c =? 101) || (c =? 69))%N
  end.

(** A bound on the calls of the parser's functions for a value. *)
Fixpoint size (v : value) : nat :=
  match v with
  | VArr items => S (fold_right (fun item n => S (size item + n)) 0 items)
  | VObj props => S (fold_right (fun kv n => S (size (snd kv) + n)) 0 props)
  | _ => 1
  end.

(** The printed members of an object. *)
Definition members (props : list (jsstring * value)) : list jsstring :=
  map (fun kv => quote (fst kv) ++ 58%N :: text_of (snd kv)) props.

(** The first character of a printed value starts a token. *)
Definition starts_token (text : jsstring) : Prop :=
  exists c tail,
    text = c :: tail /\ is_json_ws c = false
    /\ (c =? 93)%N = false /\ (c =? 125)%N = false.

End Codec.

(* ================================================================= *)
(** ** From the console of the script to the subscriber

    The driver prints the output of the script with [console.log]
    (line 256 of [scripts/modify-app.ts]), so a line of the script is a
    line of the standard output the handler reads. *)

Module Wire.
Import Repair Codec.

(** What a console call writes to the standard output: [console.log] the
    line and its terminator, [console.error] nothing. *)
Definition stdout_line (c : console_call) : jsstring :=
  match c with
  | Log _ => printed_line c ++ [NL]
  | LogError _ => []
  end.

Definition stdout_of (console : list console_call) : jsstring :=
  flat_map stdout_line console.

(** A tagged line the handler cannot mistake: the payload is an object
    that [printable] admits, and the tag is the first marker of the
    handler's [if] chain that the line holds. *)
Definition clear_line (c : console_call) : bool :=
  match c with
  | Log [Str marker; Json (VObj props)] =>
      printable (VObj props)
      && match Route.selected (printed_line c) with
         | Some m => str_eqb m marker
         | None => false
         end
  | _ => false
  end.

(** The event the handler writes for a message of the generation, lines
    55 to 85 of [route.ts]. *)
Definition shown_event (m : sdk_message) : list Route.frame :=
  match m with
  | Text text =>
      [Route.Data (obj [("type", str "claude_message"); ("content", text)])]
  | ToolUse name input =>
      [Route.Data (obj [("type", str "tool_use");
                        ("name", name);
                        ("input", input)])]
  | OtherMessage => []
  end.

(** The event the handler writes for a message of a repair, lines 87 to
    119 of [route.ts]. *)
Definition relayed_event (attempt : nat) (m : sdk_message)
  : list Route.frame :=
  match m with
  | Text text =>
      [Route.Data (obj [("type", str "healing_message");
                        ("content", text);
                        ("attempt", num attempt)])]
  | ToolUse name input =>
      [Route.Data (obj [("type", str "healing_tool");
                        ("name", name);
                        ("input", input);
                        ("attempt", num attempt)])]
  | OtherMessage => []
  end.

(** The console calls [show] and [relay] make for one message. *)
Definition shown (m : sdk_message) : list console_call :=
  console (snd (Script.show m (start tt))).

Definition relayed (attempt : nat) (m : sdk_message) : list console_call :=
  console (snd (relay attempt m (start tt))).

(** A well-formed line: printed by [console.log], without a line feed. *)
Definition one_line (c : console_call) : Prop :=
  ~ In NL (printed_line c) /\ exists args, c = Log args.

End Wire.

(* ================================================================= *)
(** ** The driver: [modifyApp] and [main] of [scripts/modify-app.ts]

    The process the handler spawns.  The Daytona SDK is the environment:
    [daytona.list], [sandbox.getUserRootDir] and
    [sandbox.process.executeCommand] answer or reject as the sandbox
    decides.  The constructor [new Daytona] is taken to return. *)

Module ModifyDriver.
Import Repair Codec.

(** The two commands [modifyApp] sends. *)
Inductive sandbox_command : Type :=
| WriteModifyScript (projectDir modificationRequest : jsstring)
    (* [cat > modify.js], the script of lines 37 to 235 *)
| RunModifyScript (claudeCodeDir : jsstring)
                  (ANTHROPIC_API_KEY : option jsstring).
    (* [node modify.js], lines 247 to 254 *)

(** An environment variable is set when it is a string that is not
    empty. *)
Definition is_set (variable : option jsstring) : bool :=
  match variable with
  | Some text => truthy text
  | None => false
  end.

(** [modifyResult.result?.includes(marker)]; [undefined] is falsy. *)
Definition result_includes (r : response) (marker : jsstring) : bool :=
  match result r with
  | Some text => includes text marker
  | None => false
  end.

Definition completed : jsstring :=
  (9989 :: lit " Modification completed successfully!")%N.

Definition issues : jsstring :=
  (9888 :: 65039 :: lit "  Modification may have encountered issues")%N.

Definition usage : jsstring :=
  lit "Usage: npx tsx scripts/modify-app.ts <sandbox-id> <modification-request>".

Section Driver.

Variable World : Type.

(** [process.env] after [dotenv.config]. *)
Variables DAYTONA_API_KEY ANTHROPIC_API_KEY : option jsstring.

(** [daytona.list()]: the sandboxes, by their [id]. *)
Variable daytona_list : World -> outcome (list jsstring) * World.

(** [sandbox.getUserRootDir()], as the templates print it. *)
Variable getUserRootDir : jsstring -> World -> outcome jsstring * World.

(** [sandbox.process.executeCommand(command, cwd, ...)]. *)
Variable executeCommand :
  jsstring -> sandbox_command -> jsstring -> World -> outcome response * World.

(** A call of the SDK. *)
Definition sdk {A} (f : World -> outcome A * World) : M (state World) A :=
  fun s =>
    let '(r, w) := f (world s) in
    (r, mkState w (console s) (builds s) (repairs s)).

(** The lines [modifyApp] prints before it lists the sandboxes. *)
Definition opening (sandboxId modificationRequest : jsstring)
  : list console_call :=
  [Log [Str (55357 :: 56615 ::
             lit " Starting modification for sandbox: " ++ sandboxId)%N];
   Log [Str (55357 :: 56541 :: lit " Request: " ++ modificationRequest)%N]].

(** [modifyApp], lines 8 to 269.  The result is the code [process.exit]
    was called with, if it was. *)
Definition modifyApp (sandboxId modificationRequest : jsstring)
  : M (state World) (option Z) :=
  if negb (is_set DAYTONA_API_KEY) || negb (is_set ANTHROPIC_API_KEY) then
    console_error
      [Str (lit "ERROR: DAYTONA_API_KEY and ANTHROPIC_API_KEY must be set")] ;;
    ret (Some 1%Z)
  else
    try_catch
      (console_log [Str (55357 :: 56615 ::
                         lit " Starting modification for sandbox: "
                         ++ sandboxId)%N] ;;
       console_log [Str (55357 :: 56541 ::
                         lit " Request: " ++ modificationRequest)%N] ;;
       sandboxes <- sdk daytona_list ;;
       match find (fun id => str_eqb id sandboxId) sandboxes with
       | None =>
           throw (Error (lit "Sandbox " ++ sandboxId ++ lit " not found"))
       | Some sandbox =>
           rootDir <- sdk (getUserRootDir sandbox) ;;
           let projectDir := rootDir ++ lit "/website-project" in
           let claudeCodeDir := rootDir ++ lit "/claude-code-tools" in
           console_log [Str (9989 :: lit " Connected to sandbox")%N] ;;
           console_log [Str (55357 :: 56541 ::
                             lit " Creating modification script...")%N] ;;
           sdk (executeCommand sandbox
                  (WriteModifyScript projectDir modificationRequest)
                  rootDir) ;;
           console_log [Str (55357 :: 56960 ::
                             lit " Running modification...")%N] ;;
           modifyResult <- sdk (executeCommand sandbox
                                  (RunModifyScript claudeCodeDir
                                                   ANTHROPIC_API_KEY)
                                  rootDir) ;;
           console_log [Str (lit "Modification output:")] ;;
           console_log [printed (result modifyResult)] ;;
           (if (exitCode modifyResult =? 0)%Z
               || result_includes modifyResult Script.MODIFICATION_COMPLETE
            then console_log [Str completed]
            else console_log [Str issues]) ;;
           ret None
       end)
      (fun error =>
         console_error [Str (10060 :: lit " Modification failed:")%N;
                        Str (message error)] ;;
         ret (Some 1%Z)).

(** [main], lines 272 to 282, up to the end of the process: its exit
    code. *)
Definition main (argv : list jsstring) : M (state World) Z :=
  let sandboxId := nth_error argv 2 in
  let modificationRequest := join_space (skipn 3 argv) in
  match sandboxId with
  | Some id =>
      if negb (truthy id) || negb (truthy modificationRequest) then
        console_error [Str usage] ;;
        ret 1%Z
      else
        exited <- modifyApp id modificationRequest ;;
        ret (match exited with Some code => code | None => 0%Z end)
  | None =>
      console_error [Str usage] ;;
      ret 1%Z
  end.

(** The sandbox is listed and every call of the SDK resolves. *)
Definition sdk_resolves (sandboxId : jsstring) : Prop :=
  (forall w, exists ids w',
      daytona_list w = (Ok ids, w') /\ In sandboxId ids)
  /\ (forall id w, exists dir w', getUserRootDir id w = (Ok dir, w'))
  /\ (forall id c cwd w, exists r w',
         executeCommand id c cwd w = (Ok r, w')).

End Driver.

(** The child process as the handler sees it when every console call
    arrives as one chunk: [console.log] on the standard output,
    [console.error] on the standard error. *)
Definition io_of (c : console_call) : Route.io_event :=
  match c with
  | Log _ => Route.Stdout (printed_line c ++ [NL])
  | LogError _ => Route.Stderr (printed_line c ++ [NL])
  end.

Definition child (code : Z) (console : list console_call) : Route.process :=
  Route.mkProcess None (map io_of console) (Route.Exit (Some code)).

(** The child of a run of [main]; a rejection nobody handles ends the
    process with code 1. *)
Definition spawned {World} (run : outcome Z * state World) : Route.process :=
  match fst run with
  | Ok code => child code (console (snd run))
  | Throw _ => child 1 (console (snd run))
  end.

(** A sandbox service that lists one sandbox and answers every command
    with the exit code 1 and the text of a crash. *)
Definition one_sandbox (_ : unit) : outcome (list jsstring) * unit :=
  (Ok [lit "3f2a9c1e"], tt).

Definition home (_ : jsstring) (_ : unit) : outcome jsstring * unit :=
  (Ok (lit "/home/daytona"), tt).

Definition no_sandbox (_ : unit) : outcome (list jsstring) * unit :=
  (Ok [], tt).

Definition crashing (_ : jsstring) (_ : sandbox_command) (_ : jsstring)
  (_ : unit) : outcome response * unit :=
  (Ok (mkResponse 1 (Some (lit "Fatal modification error: rate limit exceeded"))),
   tt).

End ModifyDriver.

(* ================================================================= *)
(** ** Further notions for the loop of the driver *)

Module DriverMore.
Import Repair RepairMore.

(** No build of the sandbox answers with a text that is exactly one of
    the two healing markers. *)
Definition quiet_sandbox {World : Type}
  (executeCommand : command -> World -> outcome response * World) : Prop :=
  forall w,
    match fst (executeCommand NpmRunBuild w) with
    | Ok r =>
        is_line HEALING_START (Log [printed (result r)]) = false
        /\ is_line HEALING_END (Log [printed (result r)]) = false
    | Throw _ => True
    end.

(** What a computation adds: build checks, runs of the fix script, and
    lines of each healing marker. *)
Definition adds {World : Type} (s s' : state World) (db dr ds de : nat)
  : Prop :=
  builds s' = builds s + db
  /\ repairs s' = repairs s + dr
  /\ count (is_line HEALING_START) (console s')
     = count (is_line HEALING_START) (console s) + ds
  /\ count (is_line HEALING_END) (console s')
     = count (is_line HEALING_END) (console s) + de.

(** A sandbox in which no build succeeds and the run of the fix script is
    rejected. *)
Definition rejecting_sandbox (c : command) (w : unit)
  : outcome response * unit :=
  match c with
  | NpmRunBuild => (Ok (mkResponse 1 (Some diagnostic)), w)
  | WriteFixScript _ _ => (Ok (mkResponse 0 (Some [])), w)
  | RunFixScript => (Throw (Error (lit "command timed out")), w)
  end.

End DriverMore.

(* ================================================================= *)
(** ** The arguments of the generation script: [main], lines 773 to 797 *)

Module Arguments.
Import Codec.

(** [[0-9a-f]] under the flag [i]. *)
Definition is_hex (c : char) : bool :=
  (is_digit c || ((97 <=? c) && (c <=? 102)) || ((65 <=? c) && (c <=? 70)))%N.

(** [[0-9a-f]{n}]: what is left of the text after [n] hexadecimal
    digits. *)
Fixpoint hex_run (n : nat) (s : jsstring) : option jsstring :=
  match n with
  | O => Some s
  | S n' =>
      match s with
      | c :: s' => if is_hex c then hex_run n' s' else None
      | [] => None
      end
  end.

(** [-]. *)
Definition dash (s : jsstring) : option jsstring :=
  match s with
  | c :: s' => if (c =? 45)%N then Some s' else None
  | [] => None
  end.

Definition and_then (r : option jsstring)
  (f : jsstring -> option jsstring) : option jsstring :=
  match r with
  | Some s => f s
  | None => None
  end.

(** [uuidRegex.test(s)] for
    [/^[0-9a-f]{8}-[0-9a-f]{4}-[0-9a-f]{4}-[0-9a-f]{4}-[0-9a-f]{12}$/i]. *)
Definition uuidRegex_test (s : jsstring) : bool :=
  match and_then (and_then (and_then (and_then (and_then (and_then
          (and_then (and_then (hex_run 8 s) dash) (hex_run 4)) dash)
          (hex_run 4)) dash) (hex_run 4)) dash) (hex_run 12) with
  | Some [] => true
  | _ => false
  end.

Definition default_prompt : jsstring :=
  lit "Create a modern blog website with markdown support and a dark theme. Include a home page, blog listing page, and individual blog post pages.".

(** The sandbox and the prompt [main] calls [generateWebsiteInDaytona]
    with. *)
Definition main_arguments (argv : list jsstring)
  : option jsstring * jsstring :=
  let args := skipn 2 argv in
  let '(sandboxId, prompt) :=
    match args with
    | [] => (None, None)
    | first :: rest =>
        if uuidRegex_test first then (Some first, Some (join_space rest))
        else (None, Some (join_space args))
    end in
  (sandboxId,
   match prompt with
   | Some text => if truthy text then text else default_prompt
   | None => default_prompt
   end).

(** The form of a UUID, in words: five groups of 8, 4, 4, 4 and 12
    hexadecimal digits with a hyphen between two groups. *)
Definition uuid_shaped (s : jsstring) : Prop :=
  exists a b c d e,
    s = a ++ 45%N :: b ++ 45%N :: c ++ 45%N :: d ++ 45%N :: e
    /\ map (@List.length char) [a; b; c; d; e] = [8; 4; 4; 4; 12]
    /\ forallb is_hex (a ++ b ++ c ++ d ++ e) = true.

End Arguments.

(* ================================================================= *)
(** * Properties *)

(** ** Lines and fragments *)

Module LineFacts.
Import Route.

Lemma split_not_nil sep s : split sep s <> [].
Proof.
  destruct s as [|c s]; cbn; [discriminate|].
  destruct (c =? sep)%N; [discriminate|].
  destruct (split sep s); discriminate.
Qed.

Lemma pop_snoc {A} (l : list A) (x : A) : pop (l ++ [x]) = (Some x, l).
Proof.
  unfold pop. destruct (l ++ [x]) as [|y l'] eqn:E.
  - destruct l; discriminate.
  - rewrite <- E. rewrite removelast_last. f_equal. f_equal.
    destruct l as [|z l]; cbn in E; inversion E; subst; cbn; [reflexivity|].
    rewrite last_last. reflexivity.
Qed.

(** [split] as the complete lines followed by the fragment. *)
Lemma split_lines_fragment t :
  split NL t = complete_lines t ++ [fragment t].
Proof.
  unfold complete_lines, fragment.
  destruct (exists_last (split_not_nil NL t)) as (l & x & E).
  rewrite E, pop_snoc. cbn [fst snd]. destruct x; reflexivity.
Qed.

Lemma lines_fragment_unique t ls f :
  split NL t = ls ++ [f] -> complete_lines t = ls /\ fragment t = f.
Proof.
  intros E. unfold complete_lines, fragment. rewrite E, pop_snoc.
  cbn [fst snd]. destruct f; auto.
Qed.

Lemma split_cons c t :
  split NL (c :: t) =
  if (c =? NL)%N then [] :: complete_lines t ++ [fragment t]
  else match complete_lines t with
       | [] => [c :: fragment t]
       | l :: ls => (c :: l) :: ls ++ [fragment t]
       end.
Proof.
  cbn [split]. rewrite (split_lines_fragment t).
  destruct (c =? NL)%N; [reflexivity|].
  destruct (complete_lines t); reflexivity.
Qed.

Lemma lines_cons c t :
  complete_lines (c :: t) =
    (if (c =? NL)%N then [] :: complete_lines t
     else match complete_lines t with
          | [] => []
          | l :: ls => (c :: l) :: ls
          end)
  /\ fragment (c :: t) =
     (if (c =? NL)%N then fragment t
      else match complete_lines t with
           | [] => c :: fragment t
           | _ :: _ => fragment t
           end).
Proof.
  apply lines_fragment_unique. rewrite split_cons.
  destruct (c =? NL)%N; [reflexivity|].
  destruct (complete_lines t); reflexivity.
Qed.

(** The lines of a text followed by more text: the complete lines of the
    text, then the lines of its fragment followed by the rest. *)
Lemma lines_app t u :
  complete_lines (t ++ u) = complete_lines t ++ complete_lines (fragment t ++ u)
  /\ fragment (t ++ u) = fragment (fragment t ++ u).
Proof.
  induction t as [|c t [IHl IHf]].
  - cbn. auto.
  - cbn [app].
    destruct (lines_cons c (t ++ u)) as [El Ef].
    destruct (lines_cons c t) as [El' Ef'].
    rewrite El, Ef, El', Ef', IHl, IHf.
    destruct (c =? NL)%N eqn:Ec; [auto|].
    destruct (complete_lines t) as [|l ls]; cbn [app].
    + destruct (lines_cons c (fragment t ++ u)) as [El2 Ef2].
      rewrite El2, Ef2, Ec. auto.
    + auto.
Qed.

Lemma fragment_no_newline t : ~ In NL (fragment t).
Proof.
  induction t as [|c t IH].
  - cbn. auto.
  - destruct (lines_cons c t) as [_ ->].
    destruct (c =? NL)%N eqn:Ec; [exact IH|].
    destruct (complete_lines t); [|exact IH].
    intros [H|H]; [|auto]. subst c. rewrite N.eqb_refl in Ec. discriminate.
Qed.

Lemma lines_no_newline t :
  ~ In NL t -> complete_lines t = [] /\ fragment t = t.
Proof.
  induction t as [|c t IH]; intros H.
  - cbn. auto.
  - destruct (lines_cons c t) as [-> ->].
    destruct (c =? NL)%N eqn:Ec.
    + apply N.eqb_eq in Ec. exfalso. apply H. left. auto.
    + destruct IH as [-> ->]; [intros H'; apply H; right; exact H'|]. auto.
Qed.

Lemma fragment_idem t : fragment (fragment t) = fragment t
  /\ complete_lines (fragment t) = [].
Proof.
  destruct (lines_no_newline _ (fragment_no_newline t)). auto.
Qed.

Lemma lines_terminated f u :
  ~ In NL f ->
  complete_lines (f ++ NL :: u) = f :: complete_lines u
  /\ fragment (f ++ NL :: u) = fragment u.
Proof.
  intros H. induction f as [|c f IH].
  - cbn [app]. destruct (lines_cons NL u) as [-> ->]. auto.
  - cbn [app]. destruct (lines_cons c (f ++ NL :: u)) as [-> ->].
    assert (Ec : (c =? NL)%N = false).
    { apply N.eqb_neq. intros ->. apply H. left. reflexivity. }
    rewrite Ec.
    destruct IH as [-> ->]; [intros H'; apply H; right; exact H'|]. auto.
Qed.

(** *** [trim] and [includes] *)

Lemma trimStart_spaces s :
  Forall (fun c => is_space c = true) s -> trimStart s = [].
Proof.
  induction 1 as [|c s Hc _ IH]; cbn; [reflexivity|]. rewrite Hc. exact IH.
Qed.

Lemma trim_spaces s :
  Forall (fun c => is_space c = true) s -> trim s = [].
Proof.
  intros H. unfold trim, trimEnd. rewrite (@trimStart_spaces s H). reflexivity.
Qed.

Lemma trimStart_keeps c s :
  is_space c = false -> In c s -> In c (trimStart s).
Proof.
  intros Hc. induction s as [|d s IH]; cbn; [auto|].
  intros [->|H].
  - rewrite Hc. left. reflexivity.
  - destruct (is_space d); [auto|]. right. exact H.
Qed.

Lemma trim_keeps c s :
  is_space c = false -> In c s -> truthy (trim s) = true.
Proof.
  intros Hc H. unfold trim, trimEnd.
  assert (Hin : In c (rev (trimStart (rev (trimStart s))))).
  { apply in_rev. rewrite rev_involutive.
    apply trimStart_keeps; [exact Hc|].
    apply in_rev. rewrite rev_involutive.
    apply trimStart_keeps; assumption. }
  destruct (rev (trimStart (rev (trimStart s)))); [destruct Hin|reflexivity].
Qed.

Lemma startsWith_In pat s c :
  startsWith pat s = true -> In c pat -> In c s.
Proof.
  revert s. induction pat as [|p pat IH]; intros s H Hin; [destruct Hin|].
  destruct s as [|d s]; cbn in H; [discriminate|].
  apply andb_prop in H. destruct H as [Hp Hs]. apply N.eqb_eq in Hp. subst d.
  destruct Hin as [->|Hin]; [left; reflexivity|right; eauto].
Qed.

Lemma find_from_In pat s i j c :
  find_from pat s i = Some j -> In c pat -> In c s.
Proof.
  revert i. induction s as [|d s IH]; intros i H Hin; cbn in H.
  - destruct (startsWith pat []) eqn:E; [|discriminate].
    eapply startsWith_In; eauto.
  - destruct (startsWith pat (d :: s)) eqn:E.
    + eapply startsWith_In; eauto.
    + right. eauto.
Qed.

(** A line that contains a word with a character that is not white space
    is not blank. *)
Lemma includes_not_blank line pat c :
  includes line pat = true -> In c pat -> is_space c = false ->
  truthy (trim line) = true.
Proof.
  unfold includes. intros H Hin Hc.
  destruct (find_from pat line 0) as [j|] eqn:E; [|discriminate].
  eapply trim_keeps; [exact Hc|]. eapply find_from_In; eauto.
Qed.

Lemma trimStart_idem s : trimStart (trimStart s) = trimStart s.
Proof.
  induction s as [|c s IH]; [reflexivity|]. cbn [trimStart].
  destruct (is_space c) eqn:Hc; [exact IH|]. cbn [trimStart]. rewrite Hc.
  reflexivity.
Qed.

Lemma trimStart_head s :
  trimStart s = []
  \/ exists c t, trimStart s = c :: t /\ is_space c = false.
Proof.
  induction s as [|c s IH]; [left; reflexivity|]. cbn [trimStart].
  destruct (is_space c) eqn:Hc; [exact IH|]. right. eauto.
Qed.

Lemma trimStart_snoc l c :
  is_space c = false -> trimStart (l ++ [c]) = trimStart l ++ [c].
Proof.
  intros Hc. induction l as [|d l IH]; cbn [app trimStart].
  - rewrite Hc. reflexivity.
  - destruct (is_space d); [exact IH|reflexivity].
Qed.

(** Trimming a trimmed string changes nothing. *)
Lemma trim_idem s : trim (trim s) = trim s.
Proof.
  unfold trim.
  assert (A : trimStart (trimEnd (trimStart s)) = trimEnd (trimStart s)).
  { destruct (trimStart_head s) as [->|(c & t & -> & Hc)]; [reflexivity|].
    unfold trimEnd. cbn [rev]. rewrite trimStart_snoc by exact Hc.
    rewrite rev_app_distr. cbn [rev app trimStart]. rewrite Hc. reflexivity. }
  rewrite A. unfold trimEnd. rewrite rev_involutive, trimStart_idem.
  reflexivity.
Qed.

End LineFacts.

(** ** The stream forwarder *)
Module RouteFacts.
Import Route LineFacts.

Lemma push_nil s : push [] s = s.
Proof. reflexivity. Qed.

Lemma push_app fs gs s : push (fs ++ gs) s = push gs (push fs s).
Proof. unfold push. apply fold_left_app. Qed.

Lemma push_fields fs s :
  buffer (push fs s) = buffer s
  /\ delivered (push fs s) = delivered s ++ fs
  /\ write_calls (push fs s) = write_calls s + List.length fs
  /\ close_calls (push fs s) = close_calls s.
Proof.
  revert s. induction fs as [|f fs IH]; intros s.
  - cbn. rewrite app_nil_r. repeat split; lia.
  - change (push (f :: fs) s) with (push fs (push [f] s)).
    destruct (IH (push [f] s)) as (Hb & Hd & Hw & Hc).
    rewrite Hb, Hd, Hw, Hc. cbn. rewrite <- app_assoc.
    repeat split; lia.
Qed.


Lemma state_eq (s t : state) :
  buffer s = buffer t -> delivered s = delivered t ->
  write_calls s = write_calls t -> close_calls s = close_calls t -> s = t.
Proof. destruct s, t; cbn; intros; subst; reflexivity. Qed.

Local Ltac leaf :=
  first
    [ exists []; split; [constructor|]; split; [cbn; lia|];
      intros ? ?; reflexivity
    | eexists [_]; (split; [|split]); cycle 2;
      [ intros ? ?; reflexivity
      | constructor; [reflexivity|constructor]
      | cbn; lia ] ].

Local Ltac parse_branch marker :=
  unfold try_catch, bind, JSON_parse_M, get, writer_write, always, ret, throw;
  match goal with
  | |- context [JSON_parse ?p] => destruct (JSON_parse p) as [[]|]
  end; leaf.

(** With a sink that takes every chunk the loop body returns normally,
    and writes at most one frame, which depends on the line alone. *)
Lemma on_line_writes line :
  exists fs,
    Forall (fun f => callback_frame f = true) fs
    /\ List.length fs <= 1
    /\ forall rejection s, on_line always rejection line s = (Ok tt, push fs s).
Proof.
  unfold on_line.
  destruct (negb (truthy (trim line))); [leaf|].
  destruct (includes line CLAUDE_MESSAGE); [parse_branch CLAUDE_MESSAGE|].
  destruct (includes line TOOL_USE); [parse_branch TOOL_USE|].
  destruct (includes line CLAUDE_FIX); [parse_branch CLAUDE_FIX|].
  destruct (includes line TOOL_FIX); [parse_branch TOOL_FIX|].
  destruct (includes line HEALING_START);
    [unfold writer_write, always; leaf|].
  destruct (includes line HEALING_END);
    [unfold writer_write, always; leaf|].
  destruct (includes line HEAL_SUCCESS);
    [unfold writer_write, always; leaf|].
  destruct (includes line HEAL_FAILED); [parse_branch HEAL_FAILED|].
  destruct (includes line MODIFICATION_COMPLETE);
    [unfold writer_write, always; leaf|].
  cbv zeta.
  match goal with |- context [if ?c then _ else _] => destruct c end;
    unfold writer_write, always, ret; leaf.
Qed.

Lemma on_line_always rejection line s :
  on_line always rejection line s = (Ok tt, push (line_frames line) s).
Proof.
  destruct (on_line_writes line) as (fs & _ & _ & H).
  unfold line_frames. rewrite !H. cbn [snd].
  destruct (push_fields fs initial) as (_ & -> & _). reflexivity.
Qed.

Lemma line_frames_callback line :
  Forall (fun f => callback_frame f = true) (line_frames line)
  /\ List.length (line_frames line) <= 1.
Proof.
  destruct (on_line_writes line) as (fs & Hf & Hl & H).
  unfold line_frames. rewrite H. cbn [snd].
  destruct (push_fields fs initial) as (_ & -> & _). auto.
Qed.

Lemma for_of_on_line rejection lines s :
  for_of lines (on_line always rejection) s
  = (Ok tt, push (flat_map line_frames lines) s).
Proof.
  revert s. induction lines as [|l lines IH]; intros s.
  - reflexivity.
  - cbn [for_of flat_map]. unfold bind. rewrite on_line_always, IH.
    rewrite push_app. reflexivity.
Qed.

Lemma stdout_data_always rejection data s :
  stdout_data always rejection data s = (Ok tt, fed data s).
Proof.
  unfold stdout_data, fed, complete_lines, fragment, bind, gets.
  destruct (pop (split NL (buffer s ++ data))) as [frag lines].
  unfold set_buffer, modify. cbn [fst snd]. apply for_of_on_line.
Qed.

Lemma fed_fields text s :
  buffer (fed text s) = fragment (buffer s ++ text)
  /\ delivered (fed text s)
     = delivered s ++ flat_map line_frames (complete_lines (buffer s ++ text))
  /\ write_calls (fed text s)
     = write_calls s
       + List.length (flat_map line_frames (complete_lines (buffer s ++ text)))
  /\ close_calls (fed text s) = close_calls s.
Proof.
  unfold fed.
  match goal with |- context [push ?fs ?st] =>
    destruct (push_fields fs st) as (-> & -> & -> & ->) end.
  cbn. auto.
Qed.

(** Feeding a text and then more text is feeding the two at once. *)
Lemma fed_app t u s : fed (t ++ u) s = fed u (fed t s).
Proof.
  destruct (fed_fields (t ++ u) s) as (Hb & Hd & Hw & Hc).
  destruct (fed_fields t s) as (Hb1 & Hd1 & Hw1 & Hc1).
  destruct (fed_fields u (fed t s)) as (Hb2 & Hd2 & Hw2 & Hc2).
  destruct (lines_app (buffer s ++ t) u) as (Hl & Hf).
  rewrite <- app_assoc in Hl, Hf.
  apply state_eq.
  - rewrite Hb, Hb2, Hb1. exact Hf.
  - rewrite Hd, Hd2, Hd1, Hb1, Hl, flat_map_app, app_assoc. reflexivity.
  - rewrite Hw, Hw2, Hw1, Hb1, Hl, flat_map_app, length_app. lia.
  - rewrite Hc, Hc2, Hc1. reflexivity.
Qed.

Lemma fed_nil s : ~ In NL (buffer s) -> fed [] s = s.
Proof.
  intros H. destruct (fed_fields [] s) as (Hb & Hd & Hw & Hc).
  rewrite app_nil_r in *.
  destruct (lines_no_newline _ H) as (Hl & Hf).
  rewrite Hl in *. cbn in Hd, Hw. rewrite app_nil_r in Hd.
  apply state_eq; auto. - congruence. - lia.
Qed.

Lemma fed_no_newline text s : ~ In NL (buffer (fed text s)).
Proof.
  destruct (fed_fields text s) as (-> & _). apply fragment_no_newline.
Qed.

(** The standard-output callbacks of a list of chunks, one after the
    other. *)
Lemma feed_chunks rejection chunks s :
  ~ In NL (buffer s) ->
  for_of chunks (fun c => dispatch always rejection (Stdout c)) s
  = (Ok tt, fed (List.concat chunks) s).
Proof.
  revert s. induction chunks as [|c chunks IH]; intros s H.
  - cbn. rewrite fed_nil by exact H. reflexivity.
  - cbn [for_of List.concat dispatch]. unfold bind, detached.
    rewrite stdout_data_always. cbn [snd].
    rewrite IH by apply fed_no_newline. rewrite fed_app. reflexivity.
Qed.

(** *** Whatever the sink does *)

Section Tame.

(** The frames a computation may write. *)
Variable allowed : frame -> bool.
Hypothesis callbacks_allowed :
  forall f, callback_frame f = true -> allowed f = true.

Lemma tame_ret {A} (a : A) : tame allowed (ret a).
Proof.
  intros s. cbn. split; [reflexivity|]. exists []. rewrite app_nil_r. auto.
Qed.

Lemma tame_throw {A} e : tame allowed (@throw state A e).
Proof.
  intros s. cbn. split; [reflexivity|]. exists []. rewrite app_nil_r. auto.
Qed.

Lemma tame_bind {A B} (m : M state A) (k : A -> M state B) :
  tame allowed m -> (forall a, tame allowed (k a)) -> tame allowed (bind m k).
Proof.
  intros Hm Hk s. unfold bind. destruct (Hm s) as (Hc & fs & Hd & Hf).
  destruct (m s) as [[a|e] s1]; cbn [snd] in *.
  - destruct (Hk a s1) as (Hc2 & gs & Hd2 & Hg). split; [congruence|].
    exists (fs ++ gs). rewrite Hd2, Hd, app_assoc. split; [reflexivity|].
    apply Forall_app; auto.
  - split; [exact Hc|]. exists fs. auto.
Qed.

Lemma tame_try_catch {A} (m : M state A) (h : exn -> M state A) :
  tame allowed m -> (forall e, tame allowed (h e)) ->
  tame allowed (try_catch m h).
Proof.
  intros Hm Hh s. unfold try_catch. destruct (Hm s) as (Hc & fs & Hd & Hf).
  destruct (m s) as [[a|e] s1]; cbn [snd] in *.
  - split; [exact Hc|]. exists fs. auto.
  - destruct (Hh e s1) as (Hc2 & gs & Hd2 & Hg). split; [congruence|].
    exists (fs ++ gs). rewrite Hd2, Hd, app_assoc. split; [reflexivity|].
    apply Forall_app; auto.
Qed.

Lemma tame_for_of {A} (xs : list A) (body : A -> M state unit) :
  (forall x, tame allowed (body x)) -> tame allowed (for_of xs body).
Proof.
  intros H. induction xs as [|x xs IH]; cbn [for_of].
  - apply tame_ret.
  - apply tame_bind; auto.
Qed.

Lemma tame_detached (m : M state unit) :
  tame allowed m -> tame allowed (detached m).
Proof. intros H s. exact (H s). Qed.

Lemma tame_set_buffer b : tame allowed (set_buffer b).
Proof.
  intros s. cbn. split; [reflexivity|]. exists []. rewrite app_nil_r. auto.
Qed.

Lemma tame_write accepts rejection f :
  allowed f = true -> tame allowed (writer_write accepts rejection f).
Proof.
  intros Hf s. unfold writer_write. destruct (accepts (write_calls s)); cbn.
  - split; [reflexivity|]. exists [f]. auto.
  - split; [reflexivity|]. exists []. rewrite app_nil_r. auto.
Qed.

Lemma tame_parse text : tame allowed (@JSON_parse_M state text).
Proof.
  unfold JSON_parse_M. destruct (JSON_parse text);
    [apply tame_ret | apply tame_throw].
Qed.

Lemma tame_get v k : tame allowed (@get state v k).
Proof.
  unfold get. destruct v; first [apply tame_ret | apply tame_throw].
Qed.

Local Ltac tame_tac :=
  repeat first
    [ apply tame_ret
    | apply tame_try_catch
    | apply tame_bind
    | apply tame_parse
    | apply tame_get
    | apply tame_write; apply callbacks_allowed; reflexivity
    | intro ].

Lemma tame_on_line accepts rejection line :
  tame allowed (on_line accepts rejection line).
Proof.
  unfold on_line.
  repeat match goal with
         | |- tame _ (if ?c then _ else _) => destruct c
         end; cbv zeta;
  try match goal with
      | |- tame _ (if ?c then _ else _) => destruct c
      end; tame_tac.
Qed.

Lemma tame_stdout_data accepts rejection data :
  tame allowed (stdout_data accepts rejection data).
Proof.
  unfold stdout_data. apply tame_bind.
  - unfold gets. intros s. cbn. split; [reflexivity|].
    exists []. rewrite app_nil_r. auto.
  - intros buf. destruct (pop (split NL (buf ++ data))) as [frag lines].
    apply tame_bind; [apply tame_set_buffer|].
    intros _. apply tame_for_of. intros l. apply tame_on_line.
Qed.

Lemma tame_stderr_data accepts rejection data :
  tame allowed (stderr_data accepts rejection data).
Proof.
  unfold stderr_data.
  match goal with |- tame _ (if ?c then _ else _) => destruct c end;
    tame_tac.
Qed.

Lemma tame_dispatch accepts rejection ev :
  tame allowed (dispatch accepts rejection ev).
Proof.
  destruct ev; cbn [dispatch]; apply tame_detached;
    [apply tame_stdout_data | apply tame_stderr_data].
Qed.

Lemma tame_spawn p : tame allowed (spawn p).
Proof.
  unfold spawn. destruct (spawn_throws p); [apply tame_throw|apply tame_ret].
Qed.

Lemma tame_wait e : tame allowed (wait_for_exit e).
Proof.
  unfold wait_for_exit. destruct e as [[[| |]|]|];
    first [apply tame_ret | apply tame_throw].
Qed.

End Tame.

Lemma dispatch_returns accepts rejection evs s :
  fst (for_of evs (dispatch accepts rejection) s) = Ok tt.
Proof.
  revert s. induction evs as [|ev evs IH]; intros s; cbn [for_of].
  - reflexivity.
  - unfold bind. destruct ev; cbn [dispatch]; unfold detached at 1; apply IH.
Qed.

(** [writer.close] is called once, in the [finally], whatever else
    happens. *)
Lemma forward_closes_once accepts rejection p s :
  close_calls (snd (forward accepts rejection p s)) = S (close_calls s).
Proof.
  unfold forward, try_catch_finally, try_finally.
  match goal with |- context [try_catch ?b ?h s] =>
    assert (H : tame (fun _ => true) (try_catch b h)) end.
  { apply tame_try_catch.
    - repeat (apply tame_bind; intros);
        first [ apply tame_spawn | apply tame_set_buffer | apply tame_wait
              | apply tame_write; reflexivity
              | apply tame_for_of; intros; apply tame_dispatch; reflexivity ].
    - intros e. apply tame_bind; intros; apply tame_write; reflexivity. }
  destruct (H s) as (Hc & _).
  match goal with |- context [try_catch ?b ?h s] =>
    destruct (try_catch b h s) as [r s1] end.
  cbn in *. rewrite Hc. reflexivity.
Qed.

(** *** The end of the stream *)

Lemma wait_pure e s :
  wait_for_exit e s = (fst (wait_for_exit e initial), s).
Proof. destruct e as [[[| |]|]|]; reflexivity. Qed.

(** The [try] block up to the end of the wait. *)
Lemma body_runs accepts rejection p (k : M state unit) :
  (spawn p ;; set_buffer [] ;; for_of (io p) (dispatch accepts rejection) ;;
   wait_for_exit (ends p) ;; k) initial
  = match termination p with
    | Ok _ => k (forwarding accepts rejection p)
    | Throw e => (Throw e, forwarding accepts rejection p)
    end.
Proof.
  destruct (spawn_throws p) as [e|] eqn:Hs.
  - unfold termination, forwarding, spawn. rewrite Hs. reflexivity.
  - assert (Hf : forwarding accepts rejection p
                 = snd (for_of (io p) (dispatch accepts rejection)
                          (with_buffer [] initial)))
      by (unfold forwarding, spawn; rewrite Hs; reflexivity).
    assert (Ht : termination p = fst (wait_for_exit (ends p) initial))
      by (unfold termination, spawn; rewrite Hs; reflexivity).
    rewrite Hf, Ht. unfold spawn. rewrite Hs.
    cbv [bind ret set_buffer modify].
    pose proof (dispatch_returns accepts rejection (io p)
                  (with_buffer [] initial)) as Hr.
    destruct (for_of (io p) (dispatch accepts rejection)
                (with_buffer [] initial)) as [r s1].
    cbn [fst snd] in *. subst r.
    rewrite wait_pure.
    destruct (wait_for_exit (ends p) initial) as [[[]|e] s2]; reflexivity.
Qed.

Lemma two_writes accepts rejection f g s :
  accepts (write_calls s) = true ->
  accepts (S (write_calls s)) = true ->
  (writer_write accepts rejection f ;; writer_write accepts rejection g) s
  = (Ok tt, push [f; g] s).
Proof.
  intros H1 H2. unfold bind, writer_write. rewrite H1. cbn. rewrite H2.
  reflexivity.
Qed.

(** When the sink takes the two frames written at the end, the subscriber
    receives the terminal signal and then the sentinel. *)
Lemma forward_accepted accepts rejection p :
  let s1 := forwarding accepts rejection p in
  accepts (write_calls s1) = true ->
  accepts (S (write_calls s1)) = true ->
  snd (forward accepts rejection p initial)
  = mkState (buffer s1) (delivered s1 ++ [terminal_event p; DONE])
            (S (S (write_calls s1))) 1.
Proof.
  intros s1 H1 H2.
  unfold forward, try_catch_finally, try_finally, try_catch.
  rewrite body_runs. fold s1. unfold terminal_event.
  assert (Hc : close_calls s1 = 0).
  { unfold s1, forwarding.
    match goal with |- close_calls (snd (?m initial)) = 0 =>
      assert (H : tame (fun _ => true) m) end.
    { repeat (apply tame_bind; intros);
        first [ apply tame_spawn | apply tame_set_buffer
              | apply tame_for_of; intros; apply tame_dispatch; reflexivity ]. }
    destruct (H initial) as (-> & _). reflexivity. }
  destruct (termination p) as [[]|e];
    rewrite (two_writes _ _ _ _ _ H1 H2); cbn; rewrite Hc, <- app_assoc;
    reflexivity.
Qed.

(** What the callbacks have delivered by then are frames of callbacks. *)
Lemma forwarding_frames accepts rejection p :
  Forall (fun f => callback_frame f = true)
    (delivered (forwarding accepts rejection p)).
Proof.
  unfold forwarding.
  match goal with |- context [snd (?m initial)] =>
    assert (H : tame callback_frame m) end.
  { repeat (apply tame_bind; intros);
      first [ apply tame_spawn | apply tame_set_buffer
            | apply tame_for_of; intros; apply tame_dispatch; auto ]. }
  destruct (H initial) as (_ & fs & -> & Hf). exact Hf.
Qed.

(** A child that only writes to its standard output, and a sink that takes
    every frame. *)
Lemma forwarding_stdout rejection chunks code :
  forwarding always rejection (stdout_only chunks code)
  = fed (List.concat chunks) initial.
Proof.
  unfold forwarding, stdout_only, spawn. cbn [spawn_throws io].
  unfold bind at 1. unfold ret at 1. unfold bind at 1.
  unfold set_buffer, modify. change (with_buffer [] initial) with initial.
  assert (E : forall cs s,
             for_of (map Stdout cs) (dispatch always rejection) s
             = for_of cs (fun c => dispatch always rejection (Stdout c)) s).
  { induction cs as [|c cs IH]; intros s; cbn [map for_of]; [reflexivity|].
    unfold bind. destruct (dispatch always rejection (Stdout c) s) as [[]?];
      [apply IH|reflexivity]. }
  rewrite E, feed_chunks by (cbn; auto). reflexivity.
Qed.

Lemma stderr_data_always rejection data s :
  stderr_data always rejection data s
  = (Ok tt,
     push (if includes data (lit "Error") || includes data (lit "Failed")
           then [error_event (trim data)] else []) s).
Proof.
  unfold stderr_data.
  destruct (includes data (lit "Error") || includes data (lit "Failed"));
    reflexivity.
Qed.

End RouteFacts.

(** ** The build / repair loop in the sandbox *)

Module RepairFacts.
Import Repair.

Section Facts.
Variable World : Type.
Variable npm_run_build : World -> command_result * World.
Variable query : jsstring -> World -> (list sdk_message * option exn) * World.
Variable maxAttempts : nat.

Lemma for_of_relay attempt (msgs : list sdk_message) (s : state World) :
  for_of msgs (relay attempt) s
  = (Ok tt, mkState (world s) (console s ++ fix_logs attempt msgs)
                    (builds s) (repairs s)).
Proof.
  revert s. induction msgs as [|m msgs IH]; intros s; cbn.
  - unfold ret. rewrite app_nil_r. destruct s; reflexivity.
  - unfold bind. destruct m; cbn; rewrite IH; cbn;
      rewrite <- ?app_assoc; reflexivity.
Qed.

Lemma heal_runs attempt br (s : state World) :
  heal query attempt br s = (Ok tt, healed query attempt br s).
Proof.
  unfold heal, healed, try_catch, bind, for_await_query, console_log,
    console_error, modify. cbn.
  destruct (query (fix_prompt (output br)) (world s)) as [[msgs thrown] w].
  unfold bind. rewrite for_of_relay. cbn.
  destruct thrown; cbn; rewrite <- ?app_assoc; cbn; reflexivity.
Qed.

Lemma step_success fuel attempt (s : state World) :
  attempt <= maxAttempts ->
  success (fst (npm_run_build (world s))) = true ->
  attempts_from npm_run_build query maxAttempts (S fuel) attempt s
  = (Ok true,
     mkState (snd (npm_run_build (world s)))
       (console s ++ [verifying maxAttempts attempt;
                      Log [Str (9989 :: lit " Build successful!")%N]])
       (S (builds s)) (repairs s)).
Proof.
  intros Hle Hok. cbn [attempts_from].
  apply Nat.leb_le in Hle. rewrite Hle.
  unfold bind, console_log, modify, runCommand_build, ret. cbn.
  destruct (npm_run_build (world s)) as [r w]. cbn in *. rewrite Hok. cbn.
  rewrite <- app_assoc. reflexivity.
Qed.

Lemma step_retry fuel attempt (s : state World) :
  attempt < maxAttempts ->
  success (fst (npm_run_build (world s))) = false ->
  attempts_from npm_run_build query maxAttempts (S fuel) attempt s
  = attempts_from npm_run_build query maxAttempts fuel (S attempt)
      (healed query attempt (fst (npm_run_build (world s)))
         (built npm_run_build maxAttempts attempt s)).
Proof.
  intros Hlt Hko. cbn [attempts_from].
  assert (Hle : (attempt <=? maxAttempts)%nat = true) by (apply Nat.leb_le; lia).
  apply Nat.ltb_lt in Hlt. rewrite Hle.
  unfold built, bind, console_log, modify, runCommand_build.
  cbn [world console builds repairs].
  destruct (npm_run_build (world s)) as [r w]. cbn [fst] in Hko.
  rewrite Hko, Hlt, heal_runs.
  unfold failed_logs, verifying. cbn [fst world console builds repairs].
  rewrite <- !app_assoc. reflexivity.
Qed.

Lemma step_exhausted fuel (s : state World) :
  success (fst (npm_run_build (world s))) = false ->
  attempts_from npm_run_build query maxAttempts (S fuel) maxAttempts s
  = (Ok false, add_console (gave_up maxAttempts)
                 (built npm_run_build maxAttempts maxAttempts s)).
Proof.
  intros Hko. cbn [attempts_from].
  rewrite Nat.leb_refl, Nat.ltb_irrefl.
  unfold built, add_console, gave_up, failed_logs, verifying.
  unfold bind, console_log, modify, runCommand_build, ret. cbn.
  destruct (npm_run_build (world s)) as [r w]. cbn in *. rewrite Hko. cbn.
  rewrite <- !app_assoc. reflexivity.
Qed.

Lemma built_counts attempt (s : state World) :
  builds (built npm_run_build maxAttempts attempt s) = S (builds s)
  /\ repairs (built npm_run_build maxAttempts attempt s) = repairs s
  /\ world (built npm_run_build maxAttempts attempt s)
     = snd (npm_run_build (world s))
  /\ console (built npm_run_build maxAttempts attempt s)
     = console s ++ failed_logs maxAttempts attempt
                      (fst (npm_run_build (world s))).
Proof.
  unfold built. destruct (npm_run_build (world s)); cbn. auto.
Qed.

Lemma healed_counts attempt br (s : state World) :
  builds (healed query attempt br s) = builds s
  /\ repairs (healed query attempt br s) = S (repairs s)
  /\ world (healed query attempt br s)
     = snd (query (fix_prompt (output br)) (world s)).
Proof.
  unfold healed.
  destruct (query (fix_prompt (output br)) (world s)) as [[? ?] ?]; cbn. auto.
Qed.

Lemma healed_console attempt br (s : state World) :
  exists logs,
    console (healed query attempt br s)
    = console s ++ [attempting; Log [Str HEALING_START]] ++ logs
        ++ [Log [Str HEALING_END]].
Proof.
  unfold healed.
  destruct (query (fix_prompt (output br)) (world s)) as [[msgs thrown] w].
  cbn [console]. eexists (_ :: _ ++ _). cbn. rewrite <- app_assoc. reflexivity.
Qed.

(** With a build check that never succeeds the loop runs every
    iteration that is left. *)
Lemma failing_from fuel :
  (forall w, success (fst (npm_run_build w)) = false) ->
  forall attempt (s : state World),
    fuel + attempt = S maxAttempts -> 1 <= fuel ->
    exists s',
      attempts_from npm_run_build query maxAttempts fuel attempt s
      = (Ok false, s')
      /\ builds s' = builds s + fuel
      /\ S (repairs s') = repairs s + fuel
      /\ exists pre, console s' = pre ++ gave_up maxAttempts.
Proof.
  intros Hfail. induction fuel as [|fuel IH]; intros attempt s Hsum Hpos.
  - lia.
  - destruct (Nat.eq_dec attempt maxAttempts) as [->|Hne].
    + assert (fuel = 0) by lia. subst fuel.
      rewrite step_exhausted by apply Hfail.
      eexists. split; [reflexivity|].
      destruct (built_counts maxAttempts s) as (Hb & Hr & _ & Hc).
      cbn [add_console builds repairs console]. rewrite Hb, Hr.
      repeat split; try lia. eexists. reflexivity.
    + rewrite step_retry by (try apply Hfail; lia).
      destruct (IH (S attempt)
                  (healed query attempt (fst (npm_run_build (world s)))
                     (built npm_run_build maxAttempts attempt s)))
        as (s' & Hrun & Hb & Hr & Hc); try lia.
      exists s'. split; [exact Hrun|].
      destruct (healed_counts attempt (fst (npm_run_build (world s)))
                  (built npm_run_build maxAttempts attempt s)) as (Hb1 & Hr1 & _).
      destruct (built_counts attempt s) as (Hb2 & Hr2 & _).
      rewrite Hb1, Hb2 in Hb. rewrite Hr1, Hr2 in Hr.
      repeat split; try lia. exact Hc.
Qed.

(** A run that ends in [false] has printed the give-up lines last, right
    after the report of a failed build. *)
Lemma false_from fuel :
  forall attempt (s : state World),
    fuel + attempt = S maxAttempts -> 1 <= fuel ->
    fst (attempts_from npm_run_build query maxAttempts fuel attempt s)
    = Ok false ->
    exists pre w,
      success (fst (npm_run_build w)) = false
      /\ console (snd (attempts_from npm_run_build query maxAttempts
                         fuel attempt s))
         = pre ++ [Log [Str (output (fst (npm_run_build w)))]]
               ++ gave_up maxAttempts.
Proof.
  induction fuel as [|fuel IH]; intros attempt s Hsum Hpos Hres.
  - lia.
  - destruct (success (fst (npm_run_build (world s)))) eqn:Hb.
    + rewrite step_success in Hres by (auto; lia). discriminate.
    + destruct (Nat.eq_dec attempt maxAttempts) as [->|Hne].
      * rewrite step_exhausted by exact Hb.
        destruct (built_counts maxAttempts s) as (_ & _ & _ & Hc).
        cbn [snd add_console console]. rewrite Hc.
        exists (console s ++ firstn 3 (failed_logs maxAttempts maxAttempts
                                         (fst (npm_run_build (world s))))),
          (world s).
        split; [exact Hb|]. cbn [failed_logs firstn].
        rewrite <- !app_assoc. reflexivity.
      * rewrite step_retry in * by (auto; lia).
        apply IH; auto; lia.
Qed.
(** The loop always returns: a repair that throws is caught inside
    [heal], and nothing else can throw. *)
Lemma attempts_from_returns fuel :
  forall attempt (s : state World),
    exists b s',
      attempts_from npm_run_build query maxAttempts fuel attempt s
      = (Ok b, s').
Proof.
  induction fuel as [|fuel IH]; intros attempt s.
  - cbn. unfold ret. eauto.
  - destruct (attempt <=? maxAttempts)%nat eqn:Hle.
    + apply Nat.leb_le in Hle.
      destruct (success (fst (npm_run_build (world s)))) eqn:Hb.
      * rewrite step_success by assumption. eauto.
      * destruct (Nat.eq_dec attempt maxAttempts) as [->|Hne].
        -- rewrite step_exhausted by assumption. eauto.
        -- rewrite step_retry by (auto; lia). apply IH.
    + cbn [attempts_from]. rewrite Hle. unfold ret. eauto.
Qed.

End Facts.
End RepairFacts.

(** ** The build / repair loop of the driver *)

Module DriverFacts.
Import Repair.
Section Facts.
Variable World : Type.
Variable executeCommand : command -> World -> outcome response * World.
Variable maxAttempts : nat.

Lemma execute_answers c (s : state World) :
  answers_failing executeCommand ->
  exists r w',
    execute executeCommand c s
    = (Ok r, mkState w' (console s)
               (match c with NpmRunBuild => S (builds s) | _ => builds s end)
               (match c with RunFixScript => S (repairs s) | _ => repairs s end))
    /\ (c = NpmRunBuild -> (exitCode r =? 0)%Z = false).
Proof.
  intros H. destruct (H c (world s)) as (r & w' & He & Hc).
  exists r, w'. unfold execute. rewrite He. split; [reflexivity|].
  intros ->. apply Z.eqb_neq. auto.
Qed.

Lemma driver_heal_answers attempt br (s : state World) :
  answers_failing executeCommand ->
  exists s',
    driver_heal executeCommand attempt br s = (Ok tt, s')
    /\ builds s' = builds s /\ repairs s' = S (repairs s).
Proof.
  intros H. unfold driver_heal, bind, console_log, modify.
  cbn [world console builds repairs].
  match goal with |- context [execute _ ?c ?st] =>
    destruct (execute_answers c st H) as (r1 & w1 & -> & _) end.
  match goal with |- context [execute _ ?c ?st] =>
    destruct (execute_answers c st H) as (r2 & w2 & -> & _) end.
  cbn [world console builds repairs].
  destruct (negb (exitCode r2 =? 0)%Z); unfold ret;
    eexists; split; try reflexivity; cbn; auto.
Qed.

Lemma driver_failing_from fuel :
  answers_failing executeCommand ->
  forall attempt (s : state World),
    fuel + attempt = S maxAttempts -> 1 <= fuel ->
    exists s',
      driver_attempts_from executeCommand maxAttempts fuel attempt s
      = (Ok tt, s')
      /\ builds s' = builds s + fuel
      /\ S (repairs s') = repairs s + fuel
      /\ exists pre, console s' = pre ++ driver_gave_up maxAttempts.
Proof.
  intros H. induction fuel as [|fuel IH]; intros attempt s Hsum Hpos.
  - lia.
  - cbn [driver_attempts_from].
    assert (Hle : (attempt <=? maxAttempts)%nat = true)
      by (apply Nat.leb_le; lia).
    rewrite Hle. unfold bind at 1. unfold console_log at 1. unfold modify.
    unfold bind at 1.
    match goal with |- context [execute _ ?c ?st] =>
      destruct (execute_answers c st H) as (r & w & -> & Hr) end.
    rewrite (Hr eq_refl).
    unfold bind at 1. unfold console_log at 1. unfold modify.
    unfold bind at 1. unfold console_log at 1. unfold modify.
    unfold bind at 1. unfold console_log at 1. unfold modify.
    cbn [world console builds repairs].
    destruct (attempt <? maxAttempts)%nat eqn:Hlt.
    + apply Nat.ltb_lt in Hlt. unfold bind at 1.
      match goal with |- context [driver_heal _ ?a ?b ?st] =>
        destruct (driver_heal_answers a b st H) as (s1 & -> & Hb1 & Hr1) end.
      destruct (IH (S attempt) s1) as (s' & Hrun & Hb & Hrp & Hc); try lia.
      exists s'. split; [exact Hrun|].
      cbn [builds repairs] in Hb1, Hr1.
      repeat split; try lia. exact Hc.
    + apply Nat.ltb_ge in Hlt. assert (fuel = 0) by lia. subst fuel.
      unfold bind, console_log, modify. cbn [world console builds repairs].
      eexists. split; [reflexivity|]. cbn [builds repairs console].
      repeat split; try lia.
      unfold driver_gave_up, gave_up. rewrite <- !app_assoc. cbn [app].
      eexists (console s ++ [_; _; _; _]).
      rewrite <- app_assoc. reflexivity.
Qed.
End Facts.
End DriverFacts.

(** ** Claims about the stream forwarder *)

Module Streaming.
Import Route LineFacts RouteFacts.

(** A line of plain output and a tagged line in one chunk: one [progress]
    event and one [tool_use] event. *)
Example plain_and_tagged_line :
  let q := fun text => 34%N :: lit text ++ [34%N] in
  let tagged :=
    lit "__TOOL_USE__{" ++ q "name" ++ lit ":" ++ q "Read" ++ lit ","
      ++ q "input" ++ lit ":{" ++ q "file_path" ++ lit ":" ++ q "a.ts"
      ++ lit "}}" in
  delivered (feed TypeError [lit "noise" ++ [NL] ++ tagged ++ [NL]])
  = [Data (obj [("type", str "progress"); ("message", str "noise")]);
     Data (obj [("type", str "tool_use");
                ("name", str "Read");
                ("input", obj [("file_path", str "a.ts")])])].
Proof. vm_compute. reflexivity. Qed.



(** C9.  A line that is empty or holds white space only is skipped: the
    loop body writes nothing and changes nothing, whatever the sink. *)
Theorem blank_line_skipped
  (accepts : nat -> bool) (rejection : exn) (line : jsstring) (s : state) :
  Forall (fun c => is_space c = true) line ->
  on_line accepts rejection line s = (Ok tt, s)
  /\ line_frames line = [].
Proof.
  intros H. unfold line_frames, on_line.
  rewrite (trim_spaces H). cbn. auto.
Qed.

Lemma blank_line_skipped_witness :
  on_line always TypeError [32; 9; 13; 160]%N initial = (Ok tt, initial)
  /\ line_frames [32; 9; 13; 160]%N = [].
Proof.
  apply blank_line_skipped. repeat constructor.
Defined.

(** C10.  A chunk of standard error is forwarded as one [error] event
    with its trimmed text exactly when it contains [Error] or [Failed];
    otherwise nothing is written.  The partial-line buffer is not touched
    and no marker is looked for. *)
Theorem stderr_chunk_forwarding
  (rejection : exn) (data : jsstring) (s : state) :
  let s' := snd (dispatch always rejection (Stderr data) s) in
  delivered s'
  = delivered s ++
    (if includes data (lit "Error") || includes data (lit "Failed")
     then [Data (obj [("type", str "error"); ("message", VStr (trim data))])]
     else [])
  /\ buffer s' = buffer s.
Proof.
  cbn [dispatch]. unfold detached. cbn [snd].
  rewrite stderr_data_always. cbn [snd].
  match goal with |- context [push ?fs s] =>
    destruct (push_fields fs s) as (-> & -> & _) end.
  auto.
Qed.



(** *** Malformed payloads *)

Local Ltac next_marker Hsel :=
  match type of Hsel with
  | (if includes ?l ?m then _ else _) = _ =>
      let E := fresh "E" in
      destruct (includes l m) eqn:E
  end.

(** C2, amended.  A line whose branch is one of the four that parse a
    payload ([__CLAUDE_MESSAGE__], [__TOOL_USE__], [__CLAUDE_FIX__],
    [__TOOL_FIX__]) and whose payload is not valid JSON writes no frame and
    changes nothing, whatever the sink.  A line whose branch is
    [__HEAL_FAILED__] and whose payload is not valid JSON writes the bare
    [healing_status] / [failed] event.  In both cases the lines before and
    after it are decoded as they would be without it. *)
Theorem malformed_payload
  (rejection : exn) (line marker : jsstring) :
  selected line = Some marker ->
  JSON_parse (payload line marker) = None ->
  (In marker parsed_markers ->
   line_frames line = []
   /\ forall accepts s, on_line accepts rejection line s = (Ok tt, s))
  /\ (marker = HEAL_FAILED -> line_frames line = [failed_status])
  /\ (forall before after s,
        for_of (before ++ line :: after) (on_line always rejection) s
        = (Ok tt, push (flat_map line_frames before ++ line_frames line
                          ++ flat_map line_frames after) s)).
Proof.
  intros Hsel Hparse. split; [|split].
  - intros Hin.
    assert (H : forall accepts rej s, on_line accepts rej line s = (Ok tt, s)).
    { intros accepts rej s. unfold selected, markers in Hsel. cbn [find] in Hsel.
      unfold on_line. destruct (negb (truthy (trim line))); [reflexivity|].
      repeat (next_marker Hsel;
              [ injection Hsel as <-;
                first [ unfold try_catch, bind, JSON_parse_M; rewrite Hparse;
                        reflexivity
                      | exfalso; vm_compute in Hin; intuition discriminate ]
              | ]).
      discriminate. }
    split; [|intros; apply H].
    unfold line_frames. rewrite H. reflexivity.
  - intros ->. unfold selected, markers in Hsel. cbn [find] in Hsel.
    unfold line_frames, on_line.
    repeat (next_marker Hsel; [|]);
      try discriminate;
      try solve [injection Hsel as Hm; vm_compute in Hm; discriminate].
    rewrite (@includes_not_blank line HEAL_FAILED 95%N) by
      (first [assumption | vm_compute; auto 20 | reflexivity]).
    cbn [negb].
    unfold try_catch, bind, JSON_parse_M. rewrite Hparse. reflexivity.
  - intros before after s. rewrite for_of_on_line.
    rewrite flat_map_app. reflexivity.
Qed.

Lemma malformed_payload_witness :
  let line := lit "[log] __TOOL_USE__{oops" in
  (In TOOL_USE parsed_markers ->
   line_frames line = []
   /\ forall accepts s, on_line accepts TypeError line s = (Ok tt, s))
  /\ (TOOL_USE = HEAL_FAILED -> line_frames line = [failed_status])
  /\ (forall before after s,
        for_of (before ++ line :: after) (on_line always TypeError) s
        = (Ok tt, push (flat_map line_frames before ++ line_frames line
                          ++ flat_map line_frames after) s)).
Proof.
  cbv zeta. apply malformed_payload; vm_compute; reflexivity.
Defined.

(** C2 as stated fails for [__HEAL_FAILED__]: the line holds the marker,
    the text after it is not valid JSON, and an event is delivered. *)
Lemma heal_failed_malformed_emits :
  let line := lit "__HEAL_FAILED__ {oops" in
  includes line HEAL_FAILED = true
  /\ selected line = Some HEAL_FAILED
  /\ JSON_parse (payload line HEAL_FAILED) = None
  /\ delivered (snd (on_line always TypeError line initial))
     = [Data (obj [("type", str "healing_status"); ("status", str "failed")])]
  /\ delivered (feed TypeError [line ++ [NL]]) <> [].
Proof. vm_compute. repeat split; discriminate. Qed.

(** *** The end of the stream *)




End Streaming.

(** ** Claims about the build / repair loop *)

Module BuildRepair.
Import Repair RepairFacts DriverFacts.

(** C3.  With a build check that fails on every call the loop makes
    exactly [maxAttempts] build checks and [maxAttempts - 1] repairs, and
    ends with the retries exhausted: the script returns [false], and the
    last marker printed is [__HEAL_FAILED__] with [attempts] equal to
    [maxAttempts].  The same holds for the driver when the sandbox answers
    its commands. *)
Theorem always_failing_build_exhausts
  (World : Type)
  (npm_run_build : World -> command_result * World)
  (query : jsstring -> World -> (list sdk_message * option exn) * World)
  (executeCommand : command -> World -> outcome response * World)
  (maxAttempts : nat) (w : World) :
  1 <= maxAttempts ->
  (forall w', success (fst (npm_run_build w')) = false) ->
  answers_failing executeCommand ->
  let script := verifyAndFixBuild npm_run_build query maxAttempts (start w) in
  let driver := driver_verifyAndFixBuild executeCommand maxAttempts (start w) in
  (fst script = Ok false
   /\ builds (snd script) = maxAttempts
   /\ repairs (snd script) = maxAttempts - 1
   /\ last (console (snd script)) (Log []) = heal_failed_line maxAttempts)
  /\ (fst driver = Ok tt
      /\ builds (snd driver) = maxAttempts
      /\ repairs (snd driver) = maxAttempts - 1
      /\ last (removelast (console (snd driver))) (Log [])
         = heal_failed_line maxAttempts).
Proof.
  intros Hmax Hfail Hans script driver. split.
  - destruct (@failing_from World npm_run_build query maxAttempts
                maxAttempts Hfail 1 (start w))
      as (s' & Hrun & Hb & Hr & pre & Hc); try lia.
    unfold script, verifyAndFixBuild. rewrite Hrun. cbn [fst snd].
    cbn [start builds repairs] in Hb, Hr.
    repeat split; try lia.
    rewrite Hc. unfold gave_up.
    change (pre ++ [?a; ?b]) with (pre ++ [a] ++ [b]).
    rewrite !app_assoc, last_last. reflexivity.
  - destruct (@driver_failing_from World executeCommand maxAttempts
                maxAttempts Hans 1 (start w))
      as (s' & Hrun & Hb & Hr & pre & Hc); try lia.
    unfold driver, driver_verifyAndFixBuild. rewrite Hrun. cbn [fst snd].
    cbn [start builds repairs] in Hb, Hr.
    repeat split; try lia.
    rewrite Hc. unfold driver_gave_up, gave_up.
    rewrite app_assoc, removelast_last.
    change (pre ++ [?a; ?b]) with (pre ++ [a] ++ [b]).
    rewrite !app_assoc, last_last. reflexivity.
Qed.

Lemma hopeless_sandbox_answers : answers_failing hopeless_sandbox.
Proof.
  intros c w. destruct c; eexists; eexists; (split; [reflexivity|]);
    intros H; try discriminate.
Qed.

Lemma always_failing_build_exhausts_witness :
  let script :=
    verifyAndFixBuild hopeless_build quiet_query maxAttempts_of_source
      (start tt) in
  let driver :=
    driver_verifyAndFixBuild hopeless_sandbox maxAttempts_of_source
      (start tt) in
  (fst script = Ok false
   /\ builds (snd script) = 3
   /\ repairs (snd script) = 2
   /\ last (console (snd script)) (Log []) = heal_failed_line 3)
  /\ (fst driver = Ok tt
      /\ builds (snd driver) = 3
      /\ repairs (snd driver) = 2
      /\ last (removelast (console (snd driver))) (Log [])
         = heal_failed_line 3).
Proof.
  apply (@always_failing_build_exhausts unit hopeless_build quiet_query
           hopeless_sandbox maxAttempts_of_source tt).
  - unfold maxAttempts_of_source. lia.
  - intros w'. reflexivity.
  - exact hopeless_sandbox_answers.
Defined.

(** C7.  With a ceiling of at least 2, a build check that fails on the
    first call and succeeds on the second, after the repair, makes the
    loop stop with success after exactly 2 build checks and 1 repair. *)
Theorem fail_once_then_succeed
  (World : Type)
  (npm_run_build : World -> command_result * World)
  (query : jsstring -> World -> (list sdk_message * option exn) * World)
  (maxAttempts : nat) (w : World) :
  2 <= maxAttempts ->
  let first := npm_run_build w in
  let repaired := snd (query (fix_prompt (output (fst first))) (snd first)) in
  success (fst first) = false ->
  success (fst (npm_run_build repaired)) = true ->
  let run := verifyAndFixBuild npm_run_build query maxAttempts (start w) in
  fst run = Ok true
  /\ builds (snd run) = 2
  /\ repairs (snd run) = 1.
Proof.
  intros Hmax first repaired Hko Hok run.
  unfold run, verifyAndFixBuild.
  destruct maxAttempts as [|[|m]]; try lia.
  rewrite step_retry by (first [exact Hko | lia]).
  set (s1 := healed query 1 (fst (npm_run_build (world (start w))))
               (built npm_run_build (S (S m)) 1 (start w))).
  destruct (healed_counts query 1 (fst (npm_run_build (world (start w))))
              (built npm_run_build (S (S m)) 1 (start w)))
    as (Hb & Hr & Hw).
  destruct (built_counts npm_run_build (S (S m)) 1 (start w))
    as (Hb' & Hr' & Hw' & _).
  fold s1 in Hb, Hr, Hw. rewrite Hw' in Hw. rewrite Hb' in Hb.
  rewrite Hr' in Hr. cbn [start world builds repairs] in Hb, Hr, Hw.
  rewrite step_success by (first [rewrite Hw; exact Hok | lia]).
  cbn [fst snd builds repairs]. rewrite Hb, Hr. auto.
Qed.

Lemma fail_once_then_succeed_witness :
  let run :=
    verifyAndFixBuild mended_build mending_query maxAttempts_of_source
      (start 0) in
  fst run = Ok true /\ builds (snd run) = 2 /\ repairs (snd run) = 1.
Proof.
  apply (@fail_once_then_succeed nat mended_build mending_query
           maxAttempts_of_source 0).
  - unfold maxAttempts_of_source. lia.
  - reflexivity.
  - reflexivity.
Defined.

(** C6.  In an iteration that is not the last, when the build fails and
    the repair throws after some messages: the exception is caught, the
    failure and then [__HEALING_END__] are printed, the repair is counted,
    and the loop goes on with the next attempt; it returns an outcome and
    does not throw. *)
Theorem raising_repair_is_recovered
  (World : Type)
  (npm_run_build : World -> command_result * World)
  (query : jsstring -> World -> (list sdk_message * option exn) * World)
  (maxAttempts fuel attempt : nat) (s : state World)
  (messages : list sdk_message) (error : exn) (w' : World) :
  attempt < maxAttempts ->
  let buildResult := fst (npm_run_build (world s)) in
  success buildResult = false ->
  query (fix_prompt (output buildResult)) (snd (npm_run_build (world s)))
  = ((messages, Some error), w') ->
  let s1 := built npm_run_build maxAttempts attempt s in
  let s2 :=
    mkState w'
      (console s1 ++ [attempting; Log [Str HEALING_START]; analyzing attempt]
         ++ fix_logs attempt messages
         ++ [LogError [Str (lit "Build fixing failed:"); Str (message error)];
             Log [Str HEALING_END]])
      (S (builds s)) (S (repairs s)) in
  heal query attempt buildResult s1 = (Ok tt, s2)
  /\ attempts_from npm_run_build query maxAttempts (S fuel) attempt s
     = attempts_from npm_run_build query maxAttempts fuel (S attempt) s2
  /\ exists outcome s',
       attempts_from npm_run_build query maxAttempts (S fuel) attempt s
       = (Ok outcome, s').
Proof.
  intros Hlt buildResult Hko Hq s1 s2.
  destruct (built_counts npm_run_build maxAttempts attempt s)
    as (Hb & Hr & Hw & _).
  assert (Hs : healed query attempt buildResult s1 = s2).
  { unfold healed, s2. fold s1 in Hb, Hr, Hw. rewrite Hw.
    unfold buildResult in *. rewrite Hq, Hb, Hr. reflexivity. }
  split; [|split].
  - rewrite heal_runs, Hs. reflexivity.
  - rewrite step_retry by assumption. fold buildResult s1. rewrite Hs.
    reflexivity.
  - apply attempts_from_returns.
Qed.

Lemma raising_repair_is_recovered_witness :
  let s1 := built hopeless_build 3 1 (start tt) in
  let s2 :=
    mkState tt
      (console s1 ++ [attempting; Log [Str HEALING_START]; analyzing 1]
         ++ fix_logs 1 [Text (str "Let me look at the imports")]
         ++ [LogError [Str (lit "Build fixing failed:");
                       Str (lit "rate limit exceeded")];
             Log [Str HEALING_END]])
      1 1 in
  heal raising_query 1 (fst (hopeless_build tt)) s1 = (Ok tt, s2)
  /\ attempts_from hopeless_build raising_query 3 3 1 (start tt)
     = attempts_from hopeless_build raising_query 3 2 2 s2
  /\ exists outcome s',
       attempts_from hopeless_build raising_query 3 3 1 (start tt)
       = (Ok outcome, s').
Proof.
  apply (@raising_repair_is_recovered unit hopeless_build raising_query
           3 2 1 (start tt) [Text (str "Let me look at the imports")]
           (Error (lit "rate limit exceeded")) tt).
  - lia.
  - reflexivity.
  - reflexivity.
Defined.

(** C4, amended.  Whenever the script's loop ends with the retries
    exhausted, the last line it prints is the [__HEAL_FAILED__] marker
    with the fixed text [Build verification failed after multiple fix
    attempts] as [error] and the ceiling as [attempts].  The output of the
    failed build is printed before it, as a console line of its own. *)
Theorem heal_failed_reports_fixed_text
  (World : Type)
  (npm_run_build : World -> command_result * World)
  (query : jsstring -> World -> (list sdk_message * option exn) * World)
  (maxAttempts : nat) (w : World) :
  1 <= maxAttempts ->
  let run := verifyAndFixBuild npm_run_build query maxAttempts (start w) in
  fst run = Ok false ->
  last (console (snd run)) (Log [])
  = Log [Str HEAL_FAILED;
         Json (obj [("error", VStr give_up_text);
                    ("attempts", num maxAttempts)])]
  /\ exists pre w' line,
       success (fst (npm_run_build w')) = false
       /\ console (snd run)
          = pre ++ [Log [Str (output (fst (npm_run_build w')))];
                    line;
                    heal_failed_line maxAttempts].
Proof.
  intros Hmax run Hres.
  destruct (@false_from World npm_run_build query maxAttempts
              maxAttempts 1 (start w)) as (pre & w' & Hko & Hc);
    [lia | lia | exact Hres |].
  fold (verifyAndFixBuild npm_run_build query maxAttempts) in Hc.
  fold run in Hc. split.
  - rewrite Hc. unfold gave_up.
    change (pre ++ [?a] ++ [?b; ?c]) with (pre ++ [a; b] ++ [c]).
    rewrite app_assoc, last_last. reflexivity.
  - exists pre, w'. eexists. split; [exact Hko|]. exact Hc.
Qed.

Lemma heal_failed_reports_fixed_text_witness :
  let run :=
    verifyAndFixBuild hopeless_build raising_query maxAttempts_of_source
      (start tt) in
  last (console (snd run)) (Log [])
  = Log [Str HEAL_FAILED;
         Json (obj [("error", VStr give_up_text); ("attempts", num 3)])]
  /\ exists pre w' line,
       success (fst (hopeless_build w')) = false
       /\ console (snd run)
          = pre ++ [Log [Str (output (fst (hopeless_build w')))];
                    line;
                    heal_failed_line 3].
Proof.
  apply (@heal_failed_reports_fixed_text unit hopeless_build raising_query
           maxAttempts_of_source tt).
  - unfold maxAttempts_of_source. lia.
  - reflexivity.
Defined.

(** C4 as stated fails: every build fails with the diagnostic [Module not
    found: './Foo'], the retries run out, and the [error] of the
    [__HEAL_FAILED__] line is the fixed text, not the diagnostic; in the
    script and in the driver. *)
Lemma heal_failed_omits_diagnostic :
  let script :=
    verifyAndFixBuild hopeless_build quiet_query maxAttempts_of_source
      (start tt) in
  let driver :=
    driver_verifyAndFixBuild hopeless_sandbox maxAttempts_of_source
      (start tt) in
  fst script = Ok false
  /\ output (fst (hopeless_build tt)) = diagnostic
  /\ last (console (snd script)) (Log [])
     = Log [Str HEAL_FAILED;
            Json (obj [("error", VStr give_up_text); ("attempts", num 3)])]
  /\ last (removelast (console (snd driver))) (Log [])
     = Log [Str HEAL_FAILED;
            Json (obj [("error", VStr give_up_text); ("attempts", num 3)])]
  /\ give_up_text <> diagnostic.
Proof. vm_compute. repeat split. discriminate. Qed.

End BuildRepair.

(** ** More about the stream forwarder *)

Module StreamingMore.
Import Route RouteMore LineFacts RouteFacts.


(** *** Whatever the sink does: the buffer *)

Lemma write_keeps_buffer accepts rejection f s :
  buffer (snd (writer_write accepts rejection f s)) = buffer s.
Proof. unfold writer_write. destruct (accepts (write_calls s)); reflexivity. Qed.

Section KeepsBuffer.

Variables (accepts : nat -> bool) (rejection : exn).

Lemma kb_ret {A} (a : A) : keeps_buffer (ret a).
Proof. intros s. reflexivity. Qed.

Lemma kb_throw {A} e : keeps_buffer (@throw state A e).
Proof. intros s. reflexivity. Qed.

Lemma kb_bind {A B} (m : M state A) (k : A -> M state B) :
  keeps_buffer m -> (forall a, keeps_buffer (k a)) -> keeps_buffer (bind m k).
Proof.
  intros Hm Hk s. unfold bind. specialize (Hm s).
  destruct (m s) as [[a|e] s1]; cbn [snd] in *; [|exact Hm].
  rewrite Hk. exact Hm.
Qed.

Lemma kb_try_catch {A} (m : M state A) (h : exn -> M state A) :
  keeps_buffer m -> (forall e, keeps_buffer (h e)) ->
  keeps_buffer (try_catch m h).
Proof.
  intros Hm Hh s. unfold try_catch. specialize (Hm s).
  destruct (m s) as [[a|e] s1]; cbn [snd] in *; [exact Hm|].
  rewrite Hh. exact Hm.
Qed.

Lemma kb_for_of {A} (xs : list A) (body : A -> M state unit) :
  (forall x, keeps_buffer (body x)) -> keeps_buffer (for_of xs body).
Proof.
  intros H. induction xs as [|x xs IH]; cbn [for_of].
  - apply kb_ret.
  - apply kb_bind; auto.
Qed.

Lemma kb_write f : keeps_buffer (writer_write accepts rejection f).
Proof. intros s. apply write_keeps_buffer. Qed.

Lemma kb_parse text : keeps_buffer (@JSON_parse_M state text).
Proof.
  unfold JSON_parse_M. destruct (JSON_parse text); [apply kb_ret|apply kb_throw].
Qed.

Lemma kb_get v k : keeps_buffer (@get state v k).
Proof. unfold get. destruct v; first [apply kb_ret | apply kb_throw]. Qed.

Lemma kb_on_line line : keeps_buffer (on_line accepts rejection line).
Proof.
  unfold on_line.
  repeat match goal with
         | |- keeps_buffer (if ?c then _ else _) => destruct c
         end; cbv zeta;
  try match goal with
      | |- keeps_buffer (if ?c then _ else _) => destruct c
      end;
  repeat first
    [ apply kb_ret | apply kb_try_catch | apply kb_bind | apply kb_parse
    | apply kb_get | apply kb_write | intro ].
Qed.

Lemma stdout_data_buffer data s :
  buffer (snd (stdout_data accepts rejection data s))
  = fragment (buffer s ++ data).
Proof.
  unfold stdout_data, fragment, bind, gets.
  destruct (pop (split NL (buffer s ++ data))) as [frag lines].
  unfold set_buffer, modify. cbn [fst snd].
  rewrite (kb_for_of lines (on_line accepts rejection) kb_on_line).
  reflexivity.
Qed.

Lemma stderr_data_buffer data s :
  buffer (snd (stderr_data accepts rejection data s)) = buffer s.
Proof.
  unfold stderr_data.
  destruct (includes data (lit "Error") || includes data (lit "Failed"));
    [apply write_keeps_buffer|reflexivity].
Qed.

Lemma dispatch_all_buffer events s :
  ~ In NL (buffer s) ->
  buffer (snd (for_of events (dispatch accepts rejection) s))
  = fragment (buffer s ++ stdout_text events).
Proof.
  revert s. induction events as [|ev events IH]; intros s Hs.
  - cbn. rewrite app_nil_r.
    destruct (lines_no_newline _ Hs) as (_ & ->). reflexivity.
  - cbn [for_of stdout_text flat_map]. unfold bind.
    destruct ev as [data|data]; cbn [dispatch]; unfold detached at 1.
    + rewrite IH; rewrite stdout_data_buffer.
      * destruct (lines_app (buffer s ++ data) (stdout_text events))
          as (_ & Hf).
        rewrite <- app_assoc in Hf. symmetry. exact Hf.
      * apply fragment_no_newline.
    + rewrite IH; rewrite stderr_data_buffer; [reflexivity|exact Hs].
Qed.

End KeepsBuffer.

(** X2.  Whatever the sink rejects, and whatever arrives on standard error in
    between, when the wait for the child ends the buffer holds exactly the
    fragment of the text written to standard output so far, and so never
    holds a line terminator. *)
Theorem buffer_is_the_fragment
  (accepts : nat -> bool) (rejection : exn) (p : process) :
  spawn_throws p = None ->
  buffer (forwarding accepts rejection p) = fragment (stdout_text (io p))
  /\ ~ In NL (buffer (forwarding accepts rejection p)).
Proof.
  intros Hs.
  assert (E : buffer (forwarding accepts rejection p)
              = fragment (stdout_text (io p))).
  { unfold forwarding, spawn. rewrite Hs.
    cbv [bind ret set_buffer modify].
    change (with_buffer [] initial) with initial.
    rewrite dispatch_all_buffer by (cbn; auto). reflexivity. }
  split; [exact E|]. rewrite E. apply fragment_no_newline.
Qed.

Lemma buffer_is_the_fragment_witness :
  let accepts := fun n => Nat.even n in
  let p := mkProcess None
             [Stdout (lit "__HEALING_START__
one"); Stderr (lit "Error: x
"); Stdout (lit " two
thr"); Stdout (lit "ee")]
             (Exit (Some 0%Z)) in
  buffer (forwarding accepts TypeError p) = fragment (stdout_text (io p))
  /\ ~ In NL (buffer (forwarding accepts TypeError p)).
Proof.
  cbv zeta. apply buffer_is_the_fragment. reflexivity.
Defined.

(** *** Whatever the sink does: one line, one frame *)

(** X3.  Whatever the sink rejects, one line delivers at most one frame, and
    calls [writer.write] at most twice (the second time in the [catch] of
    the [__HEAL_FAILED__] branch). *)
Theorem at_most_one_frame_per_line
  (accepts : nat -> bool) (rejection : exn) (line : jsstring) (s : state) :
  let s' := snd (on_line accepts rejection line s) in
  (delivered s' = delivered s \/ exists f, delivered s' = delivered s ++ [f])
  /\ write_calls s' <= write_calls s + 2.
Proof.
  unfold on_line.
  repeat match goal with
         | |- context [if ?c then _ else _] =>
             match c with
             | context [accepts] => fail 1
             | _ => destruct c
             end
         end; cbv zeta;
  unfold try_catch, bind, JSON_parse_M, get, writer_write, ret, throw;
  repeat match goal with
         | |- context [JSON_parse ?p] => destruct (JSON_parse p) as [[]|]
         end;
  cbn [fst snd write_calls delivered buffer close_calls];
  repeat match goal with
         | |- context [accepts ?n] => destruct (accepts n)
         end;
  cbn [fst snd write_calls delivered buffer close_calls];
  (split; [first [left; reflexivity | right; eexists; reflexivity] | lia]).
Qed.

(** *** Lines that are not forwarded *)

Local Ltac no_marker Hsel :=
  unfold selected, markers in Hsel; cbn [find] in Hsel;
  repeat match type of Hsel with
         | (if includes ?l ?m then _ else _) = _ =>
             destruct (includes l m); [discriminate|]
         end.

(** X4.  A line that holds none of the nine markers and, once trimmed, holds
    [[Claude]:], [[Tool]:] or two underscores in a row is not forwarded:
    nothing is written, whatever the sink.  This is the fate of the
    [__TOOL_RESULT__] lines and of the [[Claude]:] and [[Tool]:] log lines
    of the generation script. *)
Theorem internal_line_dropped
  (accepts : nat -> bool) (rejection : exn) (line : jsstring) (s : state) :
  selected line = None ->
  internal (trim line) = true ->
  on_line accepts rejection line s = (Ok tt, s).
Proof.
  intros Hsel Hint. unfold on_line.
  destruct (negb (truthy (trim line))); [reflexivity|].
  no_marker Hsel. cbv zeta. unfold internal in Hint.
  destruct (includes (trim line) (lit "[Claude]:")),
    (includes (trim line) (lit "[Tool]:")),
    (includes (trim line) (lit "__")); cbn in Hint; try discriminate;
    rewrite ?andb_false_r; reflexivity.
Qed.

Lemma internal_line_dropped_witness :
  on_line always TypeError (lit "__TOOL_RESULT__ {}") initial
  = (Ok tt, initial).
Proof.
  apply internal_line_dropped; vm_compute; reflexivity.
Defined.

(** X5.  Any other line without a marker is forwarded as a [progress] event
    that carries the line trimmed. *)
Theorem plain_line_forwarded (line : jsstring) :
  selected line = None ->
  truthy (trim line) = true ->
  internal (trim line) = false ->
  line_frames line
  = [Data (obj [("type", str "progress"); ("message", VStr (trim line))])].
Proof.
  intros Hsel Ht Hint. unfold line_frames, on_line. rewrite Ht. cbn [negb].
  no_marker Hsel. cbv zeta. unfold internal in Hint.
  apply orb_false_elim in Hint. destruct Hint as (Hint & H3).
  apply orb_false_elim in Hint. destruct Hint as (H1 & H2).
  rewrite H1, H2, H3. reflexivity.
Qed.

Lemma plain_line_forwarded_witness :
  line_frames (lit "  Installing dependencies...  ")
  = [Data (obj [("type", str "progress");
                ("message", VStr (trim (lit "  Installing dependencies...  ")))])].
Proof.
  apply plain_line_forwarded; vm_compute; reflexivity.
Defined.

(** *** Payloads that parse *)

Local Ltac walk Hsel :=
  unfold selected, markers in Hsel; cbn [find] in Hsel;
  repeat (match type of Hsel with
          | (if includes ?l ?m then _ else _) = _ =>
              let E := fresh "E" in destruct (includes l m) eqn:E
          end; [|]);
  try discriminate;
  try solve [let Hm := fresh "Hm" in
             injection Hsel as Hm; vm_compute in Hm; discriminate].

Local Ltac decode line marker Hparse :=
  unfold line_frames, on_line;
  rewrite (@includes_not_blank line marker 95%N) by
    (first [assumption | vm_compute; auto 20 | reflexivity]);
  cbn [negb];
  repeat match goal with
         | H : includes ?l ?m = _ |- context [includes ?l ?m] => rewrite H
         end;
  unfold try_catch, bind, JSON_parse_M; rewrite Hparse;
  match goal with
  | H : JSON_parse _ = Some ?v |- _ => destruct v
  end; reflexivity.



(** *** The order of the tests *)

(** X11.  The markers are tested in a fixed order and the first that the line
    contains decides.  A line that holds [__CLAUDE_MESSAGE__] anywhere,
    also inside the payload of another marker, is decoded as a
    [claude_message] or dropped; no other branch is tried. *)
Theorem first_marker_wins (line : jsstring) :
  includes line CLAUDE_MESSAGE = true ->
  line_frames line = []
  \/ exists content,
       line_frames line
       = [Data (obj [("type", str "claude_message"); ("content", content)])].
Proof.
  intros H. unfold line_frames, on_line.
  rewrite (@includes_not_blank line CLAUDE_MESSAGE 95%N) by
    (first [assumption | vm_compute; auto 20 | reflexivity]).
  cbn [negb]. rewrite H.
  unfold try_catch, bind, JSON_parse_M.
  destruct (JSON_parse (payload line CLAUDE_MESSAGE)) as [[]|];
    first [left; reflexivity | right; eexists; reflexivity].
Qed.

(** A tool line whose input quotes the word is lost. *)
Lemma first_marker_wins_witness :
  let q := fun text => 34%N :: lit text ++ [34%N] in
  let line :=
    lit "__TOOL_USE__ {" ++ q "name" ++ lit ":" ++ q "Grep" ++ lit ","
      ++ q "input" ++ lit ":" ++ q "__CLAUDE_MESSAGE__" ++ lit "}" in
  line_frames line = [].
Proof.
  cbv zeta.
  match goal with |- line_frames ?l = [] =>
    destruct (@first_marker_wins l) as [H|(content & H)] end.
  - vm_compute. reflexivity.
  - exact H.
  - exfalso. revert H. vm_compute. discriminate.
Defined.

End StreamingMore.

(** ** More about the build / repair loop *)

Module BuildRepairMore.
Import Repair RepairMore RepairFacts.

Section Loop.

Variable World : Type.
Variable npm_run_build : World -> command_result * World.
Variable query : jsstring -> World -> (list sdk_message * option exn) * World.
Variable maxAttempts : nat.

(** The counters over the iterations that are left. *)
Lemma counters_from fuel :
  forall attempt (s : state World),
    fuel + attempt = S maxAttempts -> 1 <= fuel ->
    let r := attempts_from npm_run_build query maxAttempts fuel attempt s in
    builds s < builds (snd r)
    /\ builds (snd r) <= builds s + fuel
    /\ repairs (snd r) + builds s + 1 = builds (snd r) + repairs s
    /\ (fst r = Ok true
        \/ (fst r = Ok false /\ builds (snd r) = builds s + fuel)).
Proof.
  induction fuel as [|fuel IH]; intros attempt s Hsum Hpos; [lia|].
  cbv zeta.
  destruct (success (fst (npm_run_build (world s)))) eqn:Hb.
  - rewrite step_success by (auto; lia). cbn [fst snd builds repairs].
    repeat split; try lia. left. reflexivity.
  - destruct (Nat.eq_dec attempt maxAttempts) as [->|Hne].
    + rewrite step_exhausted by exact Hb.
      destruct (built_counts npm_run_build maxAttempts maxAttempts s)
        as (Hb1 & Hr1 & _).
      cbn [fst snd add_console builds repairs]. rewrite Hb1, Hr1.
      repeat split; try lia. right. split; [reflexivity|lia].
    + rewrite step_retry by (auto; lia).
      set (s1 := healed query attempt (fst (npm_run_build (world s)))
                   (built npm_run_build maxAttempts attempt s)).
      destruct (healed_counts query attempt (fst (npm_run_build (world s)))
                  (built npm_run_build maxAttempts attempt s))
        as (Hb2 & Hr2 & _).
      destruct (built_counts npm_run_build maxAttempts attempt s)
        as (Hb1 & Hr1 & _).
      fold s1 in Hb2, Hr2. rewrite Hb1 in Hb2. rewrite Hr1 in Hr2.
      destruct (IH (S attempt) s1) as (H1 & H2 & H3 & H4); try lia.
      rewrite Hb2, Hr2 in *.
      repeat split; try lia.
      destruct H4 as [H4|(H4 & H5)]; [left; exact H4|right].
      split; [exact H4|lia].
Qed.

(** *** Counting markers on the console *)

Local Ltac decide_lines :=
  unfold count, attempting, analyzing, failed_logs, verifying, gave_up;
  cbn [filter app];
  repeat match goal with
         | |- context [if ?b then _ else _] =>
             let v := eval lazy in b in
             match v with
             | true => change b with true
             | false => change b with false
             end; cbv iota
         end;
  cbn [List.length filter app].

Lemma count_app f (a b : list console_call) :
  count f (a ++ b) = count f a + count f b.
Proof. unfold count. rewrite filter_app, length_app. reflexivity. Qed.

Lemma fix_logs_no_failure attempt messages :
  count reports_failure (fix_logs attempt messages) = 0.
Proof.
  induction messages as [|[text|name input|] messages IH]; cbn; auto.
Qed.

Lemma fix_logs_no_line marker attempt messages :
  count (is_line marker) (fix_logs attempt messages) = 0.
Proof.
  induction messages as [|[text|name input|] messages IH]; cbn; auto.
Qed.

Lemma healed_failures attempt br (s : state World) :
  count reports_failure (console (healed query attempt br s))
  = count reports_failure (console s).
Proof.
  unfold healed.
  destruct (query (fix_prompt (output br)) (world s)) as [[messages thrown] w].
  cbn [console]. rewrite !count_app, fix_logs_no_failure.
  destruct thrown; decide_lines; lia.
Qed.

Lemma built_failures attempt (s : state World) :
  count reports_failure (console (built npm_run_build maxAttempts attempt s))
  = count reports_failure (console s).
Proof.
  destruct (built_counts npm_run_build maxAttempts attempt s)
    as (_ & _ & _ & ->).
  rewrite count_app. decide_lines. lia.
Qed.

Lemma failures_from fuel :
  forall attempt (s : state World),
    fuel + attempt = S maxAttempts -> 1 <= fuel ->
    let r := attempts_from npm_run_build query maxAttempts fuel attempt s in
    (fst r = Ok true
     /\ count reports_failure (console (snd r))
        = count reports_failure (console s))
    \/ (fst r = Ok false
        /\ count reports_failure (console (snd r))
           = S (count reports_failure (console s))).
Proof.
  induction fuel as [|fuel IH]; intros attempt s Hsum Hpos; [lia|].
  cbv zeta.
  destruct (success (fst (npm_run_build (world s)))) eqn:Hb.
  - rewrite step_success by (auto; lia). left. split; [reflexivity|].
    cbn [snd console]. rewrite count_app. decide_lines. lia.
  - destruct (Nat.eq_dec attempt maxAttempts) as [->|Hne].
    + rewrite step_exhausted by exact Hb. right. split; [reflexivity|].
      cbn [snd add_console console]. rewrite count_app, built_failures.
      decide_lines. lia.
    + rewrite step_retry by (auto; lia).
      destruct (IH (S attempt)
                  (healed query attempt (fst (npm_run_build (world s)))
                     (built npm_run_build maxAttempts attempt s)))
        as [(H1 & H2)|(H1 & H2)]; try lia;
        rewrite healed_failures, built_failures in H2; auto.
Qed.

Lemma healed_lines attempt br (s : state World) :
  count (is_line HEALING_START) (console (healed query attempt br s))
  = S (count (is_line HEALING_START) (console s))
  /\ count (is_line HEALING_END) (console (healed query attempt br s))
     = S (count (is_line HEALING_END) (console s)).
Proof.
  unfold healed.
  destruct (query (fix_prompt (output br)) (world s)) as [[messages thrown] w].
  cbn [console]. rewrite !count_app, !fix_logs_no_line.
  destruct thrown; decide_lines; split; lia.
Qed.

Lemma built_lines attempt (s : state World) :
  quiet_builds npm_run_build ->
  count (is_line HEALING_START)
    (console (built npm_run_build maxAttempts attempt s))
  = count (is_line HEALING_START) (console s)
  /\ count (is_line HEALING_END)
       (console (built npm_run_build maxAttempts attempt s))
     = count (is_line HEALING_END) (console s).
Proof.
  intros Hq. destruct (Hq (world s)) as (Hs & He).
  destruct (built_counts npm_run_build maxAttempts attempt s)
    as (_ & _ & _ & ->).
  rewrite !count_app. unfold count, failed_logs. cbn [filter is_line].
  rewrite Hs, He. decide_lines. split; lia.
Qed.

Lemma lines_from fuel :
  quiet_builds npm_run_build ->
  forall attempt (s : state World),
    fuel + attempt = S maxAttempts -> 1 <= fuel ->
    let s' := snd (attempts_from npm_run_build query maxAttempts
                     fuel attempt s) in
    count (is_line HEALING_START) (console s') + repairs s
    = count (is_line HEALING_START) (console s) + repairs s'
    /\ count (is_line HEALING_END) (console s') + repairs s
       = count (is_line HEALING_END) (console s) + repairs s'.
Proof.
  intros Hq.
  induction fuel as [|fuel IH]; intros attempt s Hsum Hpos; [lia|].
  cbv zeta.
  destruct (success (fst (npm_run_build (world s)))) eqn:Hb.
  - rewrite step_success by (auto; lia). cbn [snd console repairs].
    rewrite !count_app. decide_lines. split; lia.
  - destruct (Nat.eq_dec attempt maxAttempts) as [->|Hne].
    + rewrite step_exhausted by exact Hb.
      cbn [snd add_console console repairs]. rewrite !count_app.
      destruct (built_lines maxAttempts s Hq) as (-> & ->).
      destruct (built_counts npm_run_build maxAttempts maxAttempts s)
        as (_ & -> & _).
      decide_lines. split; lia.
    + rewrite step_retry by (auto; lia).
      set (s1 := healed query attempt (fst (npm_run_build (world s)))
                   (built npm_run_build maxAttempts attempt s)).
      destruct (IH (S attempt) s1) as (H1 & H2); try lia.
      destruct (healed_lines attempt (fst (npm_run_build (world s)))
                  (built npm_run_build maxAttempts attempt s)) as (Hs & He).
      destruct (healed_counts query attempt (fst (npm_run_build (world s)))
                  (built npm_run_build maxAttempts attempt s))
        as (_ & Hr & _).
      destruct (built_lines attempt s Hq) as (Hs1 & He1).
      destruct (built_counts npm_run_build maxAttempts attempt s)
        as (_ & Hr1 & _).
      fold s1 in Hs, He, Hr. rewrite Hs1 in Hs. rewrite He1 in He.
      rewrite Hr1 in Hr. split; lia.
Qed.

End Loop.

(** X7.  Whatever the builds and the repairs do, one run of the loop makes at
    least one build check and at most [maxAttempts], and exactly one
    repair between two build checks; when it ends with the retries
    exhausted it has made all [maxAttempts] build checks. *)
Theorem retries_are_bounded
  (World : Type)
  (npm_run_build : World -> command_result * World)
  (query : jsstring -> World -> (list sdk_message * option exn) * World)
  (maxAttempts : nat) (w : World) :
  1 <= maxAttempts ->
  let run := verifyAndFixBuild npm_run_build query maxAttempts (start w) in
  1 <= builds (snd run) <= maxAttempts
  /\ repairs (snd run) + 1 = builds (snd run)
  /\ (fst run = Ok true
      \/ (fst run = Ok false /\ builds (snd run) = maxAttempts)).
Proof.
  intros Hmax run.
  destruct (@counters_from World npm_run_build query maxAttempts
              maxAttempts 1 (start w)) as (H1 & H2 & H3 & H4); try lia.
  fold (verifyAndFixBuild npm_run_build query maxAttempts) in H1, H2, H3, H4.
  fold run in H1, H2, H3, H4. cbn [start builds repairs] in *.
  repeat split; try lia.
  destruct H4 as [H4|(H4 & H5)]; [left; exact H4|right; split; [exact H4|lia]].
Qed.

Lemma retries_are_bounded_witness :
  let run :=
    verifyAndFixBuild mended_build mending_query maxAttempts_of_source
      (start 0) in
  1 <= builds (snd run) <= 3
  /\ repairs (snd run) + 1 = builds (snd run)
  /\ (fst run = Ok true
      \/ (fst run = Ok false /\ builds (snd run) = 3)).
Proof.
  apply (@retries_are_bounded nat mended_build mending_query
           maxAttempts_of_source 0).
  unfold maxAttempts_of_source. lia.
Defined.





(** *** The error text the driver hands to the fix script *)

Lemma escape_guarded prev text :
  backticks_guarded prev (escape_backticks text) = true.
Proof.
  revert prev. induction text as [|c text IH]; intros prev; [reflexivity|].
  cbn [escape_backticks]. destruct (c =? 96)%N eqn:Ec.
  - cbn [backticks_guarded]. rewrite IH. reflexivity.
  - cbn [backticks_guarded]. rewrite Ec, IH. reflexivity.
Qed.

(** X10.  The text is never empty: a missing or empty build output becomes
    [Unknown build error].  Every backtick in it has a backslash right
    before it. *)
Theorem build_error_text (r : response) :
  truthy (build_error_of r) = true
  /\ backticks_guarded 0%N (build_error_of r) = true
  /\ (result r = None \/ result r = Some [] ->
      build_error_of r = lit "Unknown build error").
Proof.
  unfold build_error_of. destruct (result r) as [text|].
  - destruct (truthy (escape_backticks text)) eqn:Et.
    + repeat split; auto using escape_guarded.
      intros [H|H]; [discriminate|]. injection H as ->. discriminate.
    + repeat split.
  - repeat split.
Qed.

Lemma build_error_text_witness :
  build_error_of (mkResponse 1 None) = lit "Unknown build error".
Proof.
  exact (proj2 (proj2 (build_error_text (mkResponse 1 None)))
           (or_introl eq_refl)).
Defined.

End BuildRepairMore.

(** ** The modification script *)

Module ScriptFacts.
Import Repair RepairMore RepairFacts LineFacts Script.

Section Facts.

Variable World : Type.
Variable shell : jsstring -> World -> shell_run * World.
Variable generate : jsstring -> World -> (list sdk_message * option exn) * World.
Variable query : jsstring -> World -> (list sdk_message * option exn) * World.
Variable eight_seconds : World -> World.
Variable inspect : exn -> jsstring.
Variables projectDir modificationRequest : jsstring.

(** Showing the messages of the generation only prints tagged lines. *)
Lemma for_of_show messages (s : state World) :
  exists logs,
    for_of messages (@show World) s
    = (Ok tt, mkState (world s) (console s ++ logs) (builds s) (repairs s))
    /\ forall marker, count (is_line marker) logs = 0.
Proof.
  revert s. induction messages as [|m messages IH]; intros s.
  - exists []. cbn. rewrite app_nil_r. destruct s. auto.
  - cbn [for_of]. unfold bind.
    destruct m as [text|name input|]; cbn [show];
      unfold console_log, modify, ret;
      match goal with |- context [for_of messages _ ?st] =>
        destruct (IH st) as (logs & -> & Hl) end;
      cbn [world console builds repairs].
    + eexists (_ :: logs). rewrite <- app_assoc. split; [reflexivity|].
      intros marker. specialize (Hl marker). unfold count in *. cbn. exact Hl.
    + eexists (_ :: logs). rewrite <- app_assoc. split; [reflexivity|].
      intros marker. specialize (Hl marker). unfold count in *. cbn. exact Hl.
    + exists logs. auto.
Qed.

(** After the generation the script always reaches the completion
    marker. *)
Lemma test_application_completes (s : state World) :
  exists s',
    test_application shell query eight_seconds s = (Ok tt, s')
    /\ last (console s') (Log []) = Log [Str MODIFICATION_COMPLETE].
Proof.
  unfold test_application.
  unfold bind at 1. unfold console_log at 1. unfold modify.
  unfold bind at 1. unfold runCommand at 1. cbn [world console builds repairs].
  destruct (runCommand_in shell pkill_command (world s)) as [r0 w0].
  unfold bind at 1. unfold verifyAndFixBuild.
  match goal with |- context [attempts_from ?b ?q ?m ?f ?a ?st] =>
    destruct (@attempts_from_returns World b q m f a st)
      as (ok & s1 & ->) end.
  destruct ok.
  - unfold wait_eight_seconds, bind, console_log, modify, runCommand.
    cbn [world console builds repairs].
    destruct (runCommand_in shell dev_command (world s1)) as [r1 w1].
    cbn [world console builds repairs].
    destruct (runCommand_in shell health_command (eight_seconds w1))
      as [r2 w2].
    destruct (truthy (output r2) && includes (output r2) (lit "200"));
      eexists; (split; [reflexivity|]); cbn [console];
      apply last_last.
  - unfold bind, console_log, modify. cbn [world console builds repairs].
    eexists; (split; [reflexivity|]); cbn [console]; apply last_last.
Qed.

(** [modifyApplication] up to the end of the generation. *)
Lemma modifyApplication_runs (s : state World) :
  let prompt := modify_prompt projectDir modificationRequest in
  exists logs,
    (forall marker, count (is_line marker) logs = 0)
    /\ let s1 :=
         mkState (snd (generate prompt (world s))) (console s ++ logs)
                 (builds s) (repairs s) in
       match snd (fst (generate prompt (world s))) with
       | None =>
           modifyApplication shell generate query eight_seconds
             projectDir modificationRequest s
           = test_application shell query eight_seconds s1
       | Some error =>
           modifyApplication shell generate query eight_seconds
             projectDir modificationRequest s
           = (Throw error,
              mkState (world s1)
                (console s1 ++ [LogError [Str (lit "Modification failed:");
                                          Str (message error)]])
                (builds s1) (repairs s1))
       end.
Proof.
  cbv zeta.
  destruct (generate (modify_prompt projectDir modificationRequest) (world s))
    as [[messages thrown] w1] eqn:Eg.
  cbn [fst snd].
  destruct (for_of_show messages
              (mkState w1
                 (console s ++
                  [Log [Str (lit "Working on project:"); Str projectDir];
                   Log [Str (lit "Modification request:");
                        Str modificationRequest];
                   Log [Str CLAUDE_MESSAGE;
                        Json (obj [("type", str "assistant");
                                   ("content",
                                    str "Starting to analyze your request and the current application...")])]])
                 (builds s) (repairs s))) as (logs & Hshow & Hl).
  cbn [world console builds repairs] in Hshow.
  exists (Log [Str (lit "Working on project:"); Str projectDir]
          :: Log [Str (lit "Modification request:"); Str modificationRequest]
          :: Log [Str CLAUDE_MESSAGE;
                  Json (obj [("type", str "assistant");
                             ("content",
                              str "Starting to analyze your request and the current application...")])]
          :: logs).
  split.
  - intros marker. specialize (Hl marker). unfold count in *.
    cbn [filter is_line]. exact Hl.
  - rewrite <- !app_assoc in Hshow. cbn [app] in Hshow.
    destruct thrown as [error|];
      cbv [modifyApplication try_catch for_await_generate bind console_log
           console_error modify throw ret];
      cbn [world console builds repairs];
      rewrite Eg;
      rewrite <- ?app_assoc; cbn [app];
      rewrite Hshow.
    + cbn [world console builds repairs]. rewrite <- ?app_assoc.
      cbn [app]. reflexivity.
    + destruct (test_application_completes
                  (mkState w1
                     (console s ++
                      Log [Str (lit "Working on project:"); Str projectDir]
                      :: Log [Str (lit "Modification request:");
                              Str modificationRequest]
                      :: Log [Str CLAUDE_MESSAGE;
                              Json (obj [("type", str "assistant");
                                         ("content",
                                          str "Starting to analyze your request and the current application...")])]
                      :: logs)
                     (builds s) (repairs s))) as (s' & E & _).
      rewrite E. reflexivity.
Qed.

End Facts.





(** X14.  What [runCommand] resolves to: the command succeeded exactly when its
    exit code is 0 (a command ended by a signal failed), and the output,
    standard output and standard error together in order of arrival, has
    no white space at either end, so that trimming it again changes
    nothing. *)
Theorem runCommand_result
  (World : Type) (shell : jsstring -> World -> shell_run * World)
  (command : jsstring) (w : World) :
  let r := fst (runCommand_in shell command w) in
  (success r = true <-> code (fst (shell command w)) = Some 0%Z)
  /\ output r = trim (List.concat (chunks (fst (shell command w))))
  /\ trim (output r) = output r.
Proof.
  unfold runCommand_in. destruct (shell command w) as [run w'].
  cbn [fst success output]. repeat split.
  - destruct (code run) as [[| |]|]; intros H; try discriminate; reflexivity.
  - intros ->. reflexivity.
  - apply trim_idem.
Qed.

End ScriptFacts.

(** ** Printing and reading back *)

Module CodecFacts.
Import Repair Codec.

(** *** Strings *)

Lemma hex_digit_char d : (d < 16)%N -> hex_digit (hex_char d) = Some d.
Proof.
  intros H.
  assert (E : (d = 0 \/ d = 1 \/ d = 2 \/ d = 3 \/ d = 4 \/ d = 5 \/ d = 6
               \/ d = 7 \/ d = 8 \/ d = 9 \/ d = 10 \/ d = 11 \/ d = 12
               \/ d = 13 \/ d = 14 \/ d = 15)%N) by lia.
  repeat (destruct E as [->|E]; [reflexivity|]). subst d. reflexivity.
Qed.

Lemma hex4_escape c :
  (c < 65536)%N ->
  hex4 (hex_char (c / 4096)) (hex_char ((c / 256) mod 16))
       (hex_char ((c / 16) mod 16)) (hex_char (c mod 16))
  = Some c.
Proof.
  intros H. unfold hex4.
  assert (H16 : (16 <> 0)%N) by discriminate.
  pose proof (N.div_mod c 16 H16) as E1.
  pose proof (N.mod_lt c 16 H16) as L1.
  pose proof (N.div_mod (c / 16) 16 H16) as E2.
  pose proof (N.mod_lt (c / 16) 16 H16) as L2.
  pose proof (N.div_mod (c / 16 / 16) 16 H16) as E3.
  pose proof (N.mod_lt (c / 16 / 16) 16 H16) as L3.
  assert (D2 : (c / 256 = c / 16 / 16)%N)
    by (rewrite N.Div0.div_div; reflexivity).
  assert (D3 : (c / 4096 = c / 16 / 16 / 16)%N)
    by (rewrite !N.Div0.div_div; reflexivity).
  assert (L4 : (c / 4096 < 16)%N)
    by (apply N.Div0.div_lt_upper_bound; exact H).
  rewrite D2, D3 in *.
  rewrite !hex_digit_char by assumption.
  f_equal.
  set (q1 := (c / 16)%N) in *. set (q2 := (q1 / 16)%N) in *.
  set (q3 := (q2 / 16)%N) in *.
  set (r1 := (c mod 16)%N) in *. set (r2 := (q1 mod 16)%N) in *.
  set (r3 := (q2 mod 16)%N) in *.
  clearbody q1 q2 q3 r1 r2 r3. lia.
Qed.

Lemma parse_unicode_escape c tail :
  (c < 65536)%N ->
  parse_chars (unicode_escape c ++ tail)
  = match parse_chars tail with
    | Some (str, r) => Some (c :: str, r)
    | None => None
    end.
Proof.
  intros H. unfold unicode_escape. cbn [app parse_chars].
  change (92 =? 34)%N with false. change (92 <? 32)%N with false.
  change (92 =? 92)%N with true. change (117 =? 117)%N with true.
  cbv iota. rewrite hex4_escape by exact H. reflexivity.
Qed.

(** The parser reads a quoted string back, whatever its characters. *)
Lemma parse_quote_chars n :
  forall s rest,
    List.length s <= n ->
    parse_chars (quote_chars s ++ 34%N :: rest) = Some (s, rest).
Proof.
  induction n as [|n IH]; intros s rest Hn.
  - destruct s; [reflexivity|cbn in Hn; lia].
  - destruct s as [|c s]; [reflexivity|]. cbn [List.length] in Hn.
    assert (Hs : forall r, parse_chars (quote_chars s ++ 34%N :: r)
                           = Some (s, r)) by (intros; apply IH; lia).
    cbn [quote_chars].
    destruct (c =? 34)%N eqn:E34.
    { apply N.eqb_eq in E34. subst c. cbn [app parse_chars].
      change (92 =? 34)%N with false. change (92 <? 32)%N with false.
      change (92 =? 92)%N with true. change (34 =? 117)%N with false.
      cbv iota. rewrite Hs. reflexivity. }
    destruct (c =? 92)%N eqn:E92.
    { apply N.eqb_eq in E92. subst c. cbn [app parse_chars].
      change (92 =? 34)%N with false. change (92 <? 32)%N with false.
      change (92 =? 92)%N with true. change (92 =? 117)%N with false.
      cbv iota. rewrite Hs. reflexivity. }
    destruct (c =? 8)%N eqn:E8.
    { apply N.eqb_eq in E8. subst c. cbn [app parse_chars].
      change (92 =? 34)%N with false. change (92 <? 32)%N with false.
      change (92 =? 92)%N with true. change (98 =? 117)%N with false.
      cbv iota. rewrite Hs. reflexivity. }
    destruct (c =? 12)%N eqn:E12.
    { apply N.eqb_eq in E12. subst c. cbn [app parse_chars].
      change (92 =? 34)%N with false. change (92 <? 32)%N with false.
      change (92 =? 92)%N with true. change (102 =? 117)%N with false.
      cbv iota. rewrite Hs. reflexivity. }
    destruct (c =? 10)%N eqn:E10.
    { apply N.eqb_eq in E10. subst c. cbn [app parse_chars].
      change (92 =? 34)%N with false. change (92 <? 32)%N with false.
      change (92 =? 92)%N with true. change (110 =? 117)%N with false.
      cbv iota. rewrite Hs. reflexivity. }
    destruct (c =? 13)%N eqn:E13.
    { apply N.eqb_eq in E13. subst c. cbn [app parse_chars].
      change (92 =? 34)%N with false. change (92 <? 32)%N with false.
      change (92 =? 92)%N with true. change (114 =? 117)%N with false.
      cbv iota. rewrite Hs. reflexivity. }
    destruct (c =? 9)%N eqn:E9.
    { apply N.eqb_eq in E9. subst c. cbn [app parse_chars].
      change (92 =? 34)%N with false. change (92 <? 32)%N with false.
      change (92 =? 92)%N with true. change (116 =? 117)%N with false.
      cbv iota. rewrite Hs. reflexivity. }
    destruct (c <? 32)%N eqn:E32.
    { rewrite <- app_assoc, parse_unicode_escape, Hs; [reflexivity|].
      apply N.ltb_lt in E32. lia. }
    assert (Lit : forall tail,
               parse_chars (c :: tail)
               = match parse_chars tail with
                 | Some (str, r) => Some (c :: str, r)
                 | None => None
                 end).
    { intros tail. cbn [parse_chars]. rewrite E34, E32, E92. reflexivity. }
    destruct (is_high c) eqn:Eh.
    { assert (Hc : (c < 65536)%N).
      { unfold is_high in Eh. apply andb_prop in Eh. destruct Eh as (_ & Eh).
        apply N.leb_le in Eh. lia. }
      destruct s as [|d s'].
      - rewrite parse_unicode_escape by exact Hc. reflexivity.
      - destruct (is_low d) eqn:El.
        + cbn [app]. rewrite Lit.
          assert (Hd : (56320 <= d)%N).
          { unfold is_low in El. apply andb_prop in El. destruct El as (El & _).
            apply N.leb_le in El. exact El. }
          cbn [parse_chars].
          replace (d =? 34)%N with false by (symmetry; apply N.eqb_neq; lia).
          replace (d <? 32)%N with false by (symmetry; apply N.ltb_ge; lia).
          replace (d =? 92)%N with false by (symmetry; apply N.eqb_neq; lia).
          rewrite IH by (cbn [List.length] in Hn; lia). reflexivity.
        + rewrite <- app_assoc, parse_unicode_escape, Hs by exact Hc.
          reflexivity. }
    destruct (is_low c) eqn:El.
    { rewrite <- app_assoc, parse_unicode_escape, Hs; [reflexivity|].
      unfold is_low in El. apply andb_prop in El. destruct El as (_ & El).
      apply N.leb_le in El. lia. }
    cbn [app]. rewrite Lit, Hs. reflexivity.
Qed.

Lemma parse_quote s rest :
  parse_chars (quote_chars s ++ 34%N :: rest) = Some (s, rest).
Proof. apply parse_quote_chars with (n := List.length s). lia. Qed.

(** *** Numbers and keywords *)

Lemma skip_ws_token c s : is_json_ws c = false -> skip_ws (c :: s) = c :: s.
Proof. intros H. cbn [skip_ws]. rewrite H. reflexivity. Qed.

Lemma take_digits_all ds rest :
  forallb is_digit ds = true ->
  match rest with [] => true | c :: _ => negb (is_digit c) end = true ->
  take_digits (ds ++ rest) = (ds, rest).
Proof.
  intros Hd Hr. induction ds as [|d ds IH]; cbn [app].
  - destruct rest as [|c rest]; [reflexivity|]. cbn [take_digits].
    apply negb_true_iff in Hr. rewrite Hr. reflexivity.
  - cbn [forallb] in Hd. apply andb_prop in Hd. destruct Hd as (Hd & Hds).
    cbn [take_digits]. rewrite Hd, (IH Hds). reflexivity.
Qed.

Lemma stops_parts rest :
  stops rest = true ->
  match rest with [] => true | c :: _ => negb (is_digit c) end = true
  /\ match rest with
     | [] => True
     | c :: _ => (c =? 46)%N = false /\ (c =? 101)%N = false
                 /\ (c =? 69)%N = false
     end.
Proof.
  destruct rest as [|c rest]; cbn [stops]; [auto|].
  intros H. apply negb_true_iff in H.
  apply orb_false_elim in H. destruct H as (H & H69).
  apply orb_false_elim in H. destruct H as (H & H101).
  apply orb_false_elim in H. destruct H as (Hd & H46).
  rewrite Hd. auto.
Qed.

Lemma digit_range c : is_digit c = true -> (48 <= c <= 57)%N.
Proof.
  unfold is_digit. intros H. apply andb_prop in H. destruct H as (H1 & H2).
  apply N.leb_le in H1. apply N.leb_le in H2. lia.
Qed.

(** The parser reads the numeral of a natural number back. *)
Lemma parse_number_natural numeral rest :
  natural_numeral numeral = true -> stops rest = true ->
  parse_number (numeral ++ rest) = Some (numeral, rest).
Proof.
  intros Hn Hs. destruct (stops_parts rest Hs) as (Hnd & Hsep).
  destruct numeral as [|c ds]; [discriminate|].
  assert (Hc : is_digit c = true).
  { destruct ds; cbn [natural_numeral] in Hn; [exact Hn|].
    apply andb_prop in Hn. destruct Hn as (Hn & _).
    apply andb_prop in Hn. destruct Hn as (Hn & _). exact Hn. }
  pose proof (digit_range c Hc) as Hrange.
  assert (Hminus : (c =? 45)%N = false) by (apply N.eqb_neq; lia).
  assert (Hds : ds = [] \/ ((c =? 48)%N = false /\ forallb is_digit ds = true)).
  { destruct ds as [|d ds]; [left; reflexivity|right].
    cbn [natural_numeral] in Hn.
    apply andb_prop in Hn. destruct Hn as (Hn & Hds).
    apply andb_prop in Hn. destruct Hn as (_ & Hz).
    apply negb_true_iff in Hz. auto. }
  unfold parse_number. cbn [app]. rewrite Hminus, Hc. cbn [negb].
  destruct Hds as [->|(Hz & Hds)].
  - cbn [app].
    destruct rest as [|p rest'].
    + destruct (c =? 48)%N; cbn; reflexivity.
    + destruct Hsep as (H46 & H101 & H69). apply negb_true_iff in Hnd.
      destruct (c =? 48)%N; cbn [take_digits]; rewrite ?Hnd, H46, H101, H69;
        cbn [orb app]; reflexivity.
  - rewrite Hz, (take_digits_all ds rest Hds Hnd).
    destruct rest as [|p rest'].
    + rewrite !app_nil_r. reflexivity.
    + destruct Hsep as (H46 & H101 & H69). rewrite H46, H101, H69.
      cbn [orb app]. rewrite !app_nil_r. reflexivity.
Qed.

(** *** Values *)

Lemma text_of_arr items :
  text_of (VArr items) = 91%N :: join_comma (map text_of items) ++ [93%N].
Proof. reflexivity. Qed.

Lemma printable_stringify v :
  printable v = true -> JSON_stringify v = Some (text_of v).
Proof. destruct v as [| |[|]| | | |]; intros H; try discriminate; reflexivity. Qed.

Lemma text_of_obj props :
  forallb (fun kv => printable (snd kv)) props = true ->
  text_of (VObj props) = 123%N :: join_comma (members props) ++ [125%N].
Proof.
  intros H. unfold text_of. cbn [JSON_stringify]. do 3 f_equal.
  induction props as [|[k v] props IH]; [reflexivity|].
  cbn [forallb snd] in H. apply andb_prop in H. destruct H as (Hv & Hp).
  cbn [flat_map members map fst snd]. rewrite (printable_stringify v Hv).
  cbn [app]. f_equal. apply IH. exact Hp.
Qed.

Lemma text_starts_token v : printable v = true -> starts_token (text_of v).
Proof.
  destruct v as [| |[|]|numeral|s|items|props]; intros H; try discriminate;
    try (eexists; eexists; split; [reflexivity|]; repeat split; reflexivity).
  cbn [printable] in H. destruct numeral as [|c ds]; [discriminate|].
  assert (Hc : is_digit c = true).
  { destruct ds; cbn [natural_numeral] in H; [exact H|].
    apply andb_prop in H. destruct H as (H & _).
    apply andb_prop in H. destruct H as (H & _). exact H. }
  pose proof (digit_range c Hc).
  exists c, ds. split; [reflexivity|]. unfold is_json_ws.
  repeat split;
    repeat (apply orb_false_intro); apply N.eqb_neq; lia.
Qed.

Lemma join_starts_token (texts : list jsstring) tail :
  texts <> [] -> Forall starts_token texts ->
  starts_token (join_comma texts ++ tail).
Proof.
  intros Hne Hall. destruct texts as [|t texts]; [contradiction|].
  inversion Hall as [|? ? (c & tl & -> & H1 & H2 & H3) _]; subst.
  destruct texts; cbn [join_comma app]; exists c; eexists;
    (split; [reflexivity|auto]).
Qed.

Lemma size_positive v : 1 <= size v.
Proof. destruct v; cbn; lia. Qed.

(** One step of each function of the parser. *)
Lemma parse_elements_step fuel s acc :
  parse_elements (S fuel) s acc
  = match parse_value fuel s with
    | Some (v, r) =>
        match skip_ws r with
        | c :: r' =>
            if (c =? 44)%N then parse_elements fuel r' (v :: acc)
            else if (c =? 93)%N then Some (VArr (rev (v :: acc)), r')
            else None
        | [] => None
        end
    | None => None
    end.
Proof. reflexivity. Qed.

Lemma parse_members_step fuel s acc :
  parse_members (S fuel) s acc
  = match skip_ws s with
    | c :: r =>
        if (c =? 34)%N then
          match parse_chars r with
          | Some (k, r1) =>
              match skip_ws r1 with
              | c1 :: r2 =>
                  if (c1 =? 58)%N then
                    match parse_value fuel r2 with
                    | Some (v, r3) =>
                        match skip_ws r3 with
                        | c3 :: r4 =>
                            if (c3 =? 44)%N then
                              parse_members fuel r4 ((k, v) :: acc)
                            else if (c3 =? 125)%N then
                              Some (VObj (rev ((k, v) :: acc)), r4)
                            else None
                        | [] => None
                        end
                    | None => None
                    end
                  else None
              | [] => None
              end
          | None => None
          end
        else None
    | [] => None
    end.
Proof. reflexivity. Qed.

Lemma parse_array_step fuel r :
  parse_value (S fuel) (91%N :: r)
  = match skip_ws r with
    | c2 :: r2 =>
        if (c2 =? 93)%N then Some (VArr [], r2) else parse_elements fuel r []
    | [] => None
    end.
Proof. reflexivity. Qed.

Lemma parse_object_step fuel r :
  parse_value (S fuel) (123%N :: r)
  = match skip_ws r with
    | c2 :: r2 =>
        if (c2 =? 125)%N then Some (VObj [], r2) else parse_members fuel r []
    | [] => None
    end.
Proof. reflexivity. Qed.

Lemma parse_string_step fuel r :
  parse_value (S fuel) (34%N :: r)
  = match parse_chars r with
    | Some (str, r') => Some (VStr str, r')
    | None => None
    end.
Proof. reflexivity. Qed.

Lemma parse_digit_step fuel c r :
  is_digit c = true ->
  parse_value (S fuel) (c :: r)
  = match parse_number (c :: r) with
    | Some (n, r') => Some (VNum n, r')
    | None => None
    end.
Proof.
  intros Hc. pose proof (digit_range c Hc).
  cbn [parse_value skip_ws]. unfold is_json_ws.
  replace (c =? 32)%N with false by (symmetry; apply N.eqb_neq; lia).
  replace (c =? 9)%N with false by (symmetry; apply N.eqb_neq; lia).
  replace (c =? 10)%N with false by (symmetry; apply N.eqb_neq; lia).
  replace (c =? 13)%N with false by (symmetry; apply N.eqb_neq; lia).
  cbn [orb].
  replace (c =? 123)%N with false by (symmetry; apply N.eqb_neq; lia).
  replace (c =? 91)%N with false by (symmetry; apply N.eqb_neq; lia).
  replace (c =? 34)%N with false by (symmetry; apply N.eqb_neq; lia).
  replace (c =? 116)%N with false by (symmetry; apply N.eqb_neq; lia).
  replace (c =? 102)%N with false by (symmetry; apply N.eqb_neq; lia).
  replace (c =? 110)%N with false by (symmetry; apply N.eqb_neq; lia).
  reflexivity.
Qed.

Lemma items_smaller items x :
  In x items ->
  S (size x) <= fold_right (fun item n => S (size item + n)) 0 items.
Proof.
  induction items as [|y items IH]; intros H; [destruct H|].
  cbn [fold_right]. destruct H as [->|H]; [lia|]. specialize (IH H). lia.
Qed.

Lemma props_smaller (props : list (jsstring * value)) kv :
  In kv props ->
  S (size (snd kv))
  <= fold_right (fun kv n => S (size (snd kv) + n)) 0 props.
Proof.
  induction props as [|y props IH]; intros H; [destruct H|].
  cbn [fold_right]. destruct H as [->|H]; [lia|]. specialize (IH H). lia.
Qed.

Section RoundTrip.

(** The values up to some size are read back. *)
Variable n : nat.
Hypothesis read_back :
  forall v, size v <= n -> printable v = true ->
  forall fuel rest,
    size v <= fuel -> stops rest = true ->
    parse_value fuel (text_of v ++ rest) = Some (v, rest).

Lemma elements_read_back items :
  items <> [] ->
  (forall x, In x items -> size x <= n /\ printable x = true) ->
  forall acc fuel rest,
    fold_right (fun item k => S (size item + k)) 0 items <= fuel ->
    parse_elements fuel (join_comma (map text_of items) ++ 93%N :: rest) acc
    = Some (VArr (rev acc ++ items), rest).
Proof.
  induction items as [|x items IH]; intros Hne Hall acc fuel rest Hfuel;
    [contradiction|].
  cbn [fold_right] in Hfuel. destruct fuel as [|fuel]; [lia|].
  destruct (Hall x (or_introl eq_refl)) as (Hx & Px).
  rewrite parse_elements_step.
  destruct items as [|y items].
  - cbn [map join_comma].
    rewrite read_back; [|exact Hx|exact Px|cbn in Hfuel; lia|reflexivity].
    rewrite skip_ws_token by reflexivity.
    cbn [N.eqb Pos.eqb rev]. reflexivity.
  - cbn [map join_comma]. rewrite <- app_assoc. cbn [app].
    rewrite read_back; [|exact Hx|exact Px|lia|reflexivity].
    rewrite skip_ws_token by reflexivity.
    cbn [N.eqb Pos.eqb].
    change (join_comma (text_of y :: map text_of items))
      with (join_comma (map text_of (y :: items))).
    rewrite IH; [|discriminate| |lia].
    + cbn [rev]. rewrite <- app_assoc. reflexivity.
    + intros z Hz. apply Hall. right. exact Hz.
Qed.

Lemma parse_members_key fuel k tail acc :
  parse_members (S fuel) (quote k ++ 58%N :: tail) acc
  = match parse_value fuel tail with
    | Some (v, r3) =>
        match skip_ws r3 with
        | c3 :: r4 =>
            if (c3 =? 44)%N then parse_members fuel r4 ((k, v) :: acc)
            else if (c3 =? 125)%N then Some (VObj (rev ((k, v) :: acc)), r4)
            else None
        | [] => None
        end
    | None => None
    end.
Proof.
  rewrite parse_members_step.
  unfold quote. cbn [app]. rewrite skip_ws_token by reflexivity.
  cbn [N.eqb Pos.eqb]. rewrite <- app_assoc. cbn [app]. rewrite parse_quote.
  rewrite skip_ws_token by reflexivity. reflexivity.
Qed.

Lemma members_read_back props :
  props <> [] ->
  (forall kv, In kv props -> size (snd kv) <= n /\ printable (snd kv) = true) ->
  forall acc fuel rest,
    fold_right (fun kv k => S (size (snd kv) + k)) 0 props <= fuel ->
    parse_members fuel (join_comma (members props) ++ 125%N :: rest) acc
    = Some (VObj (rev acc ++ props), rest).
Proof.
  induction props as [|[k v] props IH]; intros Hne Hall acc fuel rest Hfuel;
    [contradiction|].
  cbn [fold_right snd] in Hfuel. destruct fuel as [|fuel]; [lia|].
  destruct (Hall (k, v) (or_introl eq_refl)) as (Hv & Pv). cbn [snd] in Hv, Pv.
  destruct props as [|kv props].
  - cbn [members map join_comma fst snd].
    rewrite <- app_assoc. cbn [app]. rewrite parse_members_key.
    rewrite read_back; [|exact Hv|exact Pv|cbn in Hfuel; lia|reflexivity].
    rewrite skip_ws_token by reflexivity.
    cbn [N.eqb Pos.eqb rev]. reflexivity.
  - change (members ((k, v) :: kv :: props))
      with ((quote k ++ 58%N :: text_of v) :: members (kv :: props)).
    change (join_comma ((quote k ++ 58%N :: text_of v) :: members (kv :: props)))
      with ((quote k ++ 58%N :: text_of v)
              ++ 44%N :: join_comma (members (kv :: props))).
    rewrite <- !app_assoc. cbn [app].
    rewrite parse_members_key.
    rewrite read_back; [|exact Hv|exact Pv|lia|reflexivity].
    rewrite skip_ws_token by reflexivity.
    cbn [N.eqb Pos.eqb].
    rewrite IH; [|discriminate| |lia].
    + cbn [rev]. rewrite <- app_assoc. reflexivity.
    + intros z Hz. apply Hall. right. exact Hz.
Qed.

End RoundTrip.

Lemma forallb_In {A} (f : A -> bool) l x :
  forallb f l = true -> In x l -> f x = true.
Proof. intros H Hin. rewrite forallb_forall in H. auto. Qed.

Lemma natural_starts numeral :
  natural_numeral numeral = true ->
  exists c ds, numeral = c :: ds /\ is_digit c = true.
Proof.
  destruct numeral as [|c ds]; [discriminate|]. intros H.
  exists c, ds. split; [reflexivity|].
  destruct ds; cbn [natural_numeral] in H; [exact H|].
  apply andb_prop in H. destruct H as (H & _).
  apply andb_prop in H. destruct H as (H & _). exact H.
Qed.

(** The parser reads a printed value back, whatever follows it. *)
Lemma value_read_back n :
  forall v, size v <= n -> printable v = true ->
  forall fuel rest,
    size v <= fuel -> stops rest = true ->
    parse_value fuel (text_of v ++ rest) = Some (v, rest).
Proof.
  induction n as [|n IH]; intros v Hn Hp fuel rest Hfuel Hstops.
  { pose proof (size_positive v). lia. }
  destruct fuel as [|fuel]; [pose proof (size_positive v); lia|].
  destruct v as [| |[|]|numeral|s|items|props]; try discriminate.
  - reflexivity.
  - reflexivity.
  - reflexivity.
  - cbn [printable] in Hp.
    destruct (natural_starts numeral Hp) as (c & ds & -> & Hc).
    change (text_of (VNum (c :: ds))) with (c :: ds). cbn [app].
    rewrite parse_digit_step by exact Hc.
    change (c :: ds ++ rest) with ((c :: ds) ++ rest).
    rewrite parse_number_natural by assumption. reflexivity.
  - change (text_of (VStr s)) with (34%N :: quote_chars s ++ [34%N]).
    cbn [app]. rewrite <- app_assoc. cbn [app].
    rewrite parse_string_step, parse_quote. reflexivity.
  - rewrite text_of_arr. cbn [app]. rewrite <- app_assoc. cbn [app].
    rewrite parse_array_step.
    destruct items as [|x items]; [reflexivity|].
    cbn [printable] in Hp. cbn [size] in Hn, Hfuel.
    assert (Hall : forall y, In y (x :: items) ->
                             size y <= n /\ printable y = true).
    { intros y Hy. split; [|eapply forallb_In; eauto].
      pose proof (items_smaller (x :: items) y Hy). lia. }
    destruct (@join_starts_token (map text_of (x :: items)) (93%N :: rest))
      as (c & tail & E & Hws & H93 & _).
    { discriminate. }
    { apply Forall_forall. intros t Ht. apply in_map_iff in Ht.
      destruct Ht as (y & <- & Hy). apply text_starts_token.
      apply Hall. exact Hy. }
    rewrite E at 1. rewrite skip_ws_token by exact Hws. rewrite H93.
    rewrite (elements_read_back IH); [reflexivity|discriminate|exact Hall|lia].
  - cbn [printable] in Hp. apply andb_prop in Hp. destruct Hp as (Hp & _).
    apply andb_prop in Hp. destruct Hp as (Hp & _).
    rewrite text_of_obj by exact Hp. cbn [app]. rewrite <- app_assoc.
    cbn [app]. rewrite parse_object_step.
    destruct props as [|kv props]; [reflexivity|].
    cbn [size] in Hn, Hfuel.
    assert (Hall : forall y, In y (kv :: props) ->
                             size (snd y) <= n /\ printable (snd y) = true).
    { intros y Hy. split.
      - pose proof (props_smaller (kv :: props) y Hy). lia.
      - exact (forallb_In (fun kv => printable (snd kv)) _ _ Hp Hy). }
    assert (E : exists tail,
               join_comma (members (kv :: props)) ++ 125%N :: rest
               = 34%N :: tail).
    { destruct kv as [k v]. destruct props;
        cbn [members map join_comma fst snd]; unfold quote; cbn [app];
        eexists; reflexivity. }
    destruct E as (tail & E). rewrite E at 1.
    rewrite skip_ws_token by reflexivity. cbn [N.eqb Pos.eqb].
    rewrite (members_read_back IH); [reflexivity|discriminate|exact Hall|lia].
Qed.

(** The text of a value is at least as long as the value is large. *)
Lemma join_length_items items :
  (forall x, In x items -> size x <= List.length (text_of x)) ->
  fold_right (fun item k => S (size item + k)) 0 items
  <= S (List.length (join_comma (map text_of items))).
Proof.
  induction items as [|x items IH]; intros H; [cbn; lia|].
  cbn [fold_right]. pose proof (H x (or_introl eq_refl)) as Hx.
  assert (IH' := IH (fun y Hy => H y (or_intror Hy))).
  destruct items as [|y items].
  - cbn [map join_comma fold_right]. lia.
  - change (join_comma (map text_of (x :: y :: items)))
      with (text_of x ++ 44%N :: join_comma (map text_of (y :: items))).
    rewrite length_app. cbn [List.length]. lia.
Qed.

Lemma join_length_members props :
  (forall kv, In kv props -> size (snd kv) <= List.length (text_of (snd kv))) ->
  fold_right (fun kv k => S (size (snd kv) + k)) 0 props
  <= S (List.length (join_comma (members props))).
Proof.
  induction props as [|[k v] props IH]; intros H; [cbn; lia|].
  cbn [fold_right snd]. pose proof (H (k, v) (or_introl eq_refl)) as Hx.
  cbn [snd] in Hx.
  assert (IH' := IH (fun y Hy => H y (or_intror Hy))).
  destruct props as [|y props].
  - cbn [members map join_comma fold_right fst snd].
    rewrite length_app. cbn [List.length]. lia.
  - change (join_comma (members ((k, v) :: y :: props)))
      with ((quote k ++ 58%N :: text_of v)
              ++ 44%N :: join_comma (members (y :: props))).
    repeat (rewrite length_app; cbn [List.length]). lia.
Qed.

Lemma size_le_text n :
  forall v, size v <= n -> printable v = true ->
  size v <= List.length (text_of v).
Proof.
  induction n as [|n IH]; intros v Hn Hp.
  { pose proof (size_positive v). lia. }
  destruct v as [| |[|]|numeral|s|items|props]; try discriminate.
  - vm_compute. lia.
  - vm_compute. lia.
  - vm_compute. lia.
  - cbn [printable] in Hp.
    destruct (natural_starts numeral Hp) as (c & ds & -> & _).
    change (text_of (VNum (c :: ds))) with (c :: ds).
    cbn [size List.length]. lia.
  - change (text_of (VStr s)) with (34%N :: quote_chars s ++ [34%N]).
    cbn [size List.length]. lia.
  - rewrite text_of_arr. cbn [size List.length]. rewrite length_app.
    cbn [List.length]. cbn [printable] in Hp. cbn [size] in Hn.
    pose proof (@join_length_items items) as J.
    assert (forall x, In x items -> size x <= List.length (text_of x)).
    { intros x Hx. apply IH; [|eapply forallb_In; eauto].
      pose proof (items_smaller items x Hx). lia. }
    specialize (J H). lia.
  - cbn [printable] in Hp. apply andb_prop in Hp. destruct Hp as (Hp & _).
    apply andb_prop in Hp. destruct Hp as (Hp & _).
    rewrite text_of_obj by exact Hp. cbn [size List.length].
    rewrite length_app. cbn [List.length]. cbn [size] in Hn.
    pose proof (@join_length_members props) as J.
    assert (forall kv, In kv props ->
                       size (snd kv) <= List.length (text_of (snd kv))).
    { intros kv Hkv. apply IH.
      - pose proof (props_smaller props kv Hkv). lia.
      - exact (forallb_In (fun kv => printable (snd kv)) _ _ Hp Hkv). }
    specialize (J H). lia.
Qed.

Lemma parse_text_of v :
  printable v = true -> JSON_parse (text_of v) = Some v.
Proof.
  intros Hp. unfold JSON_parse.
  pose proof (@size_le_text (size v) v (le_n _) Hp) as Hs.
  pose proof (@value_read_back (size v) v (le_n _) Hp
                (2 * List.length (text_of v) + 2) []) as R.
  rewrite app_nil_r in R. rewrite R; [reflexivity|lia|reflexivity].
Qed.

(** *** One value, one line *)

Lemma hex_char_no_newline d : hex_char d <> 10%N.
Proof. unfold hex_char. destruct (d <? 10)%N; lia. Qed.

Lemma unicode_escape_no_newline c : ~ In 10%N (unicode_escape c).
Proof.
  unfold unicode_escape. intros H.
  repeat (destruct H as [H|H];
          [first [discriminate | exact (@hex_char_no_newline _ H)]|]).
  destruct H.
Qed.

Lemma quote_chars_no_newline n :
  forall s, List.length s <= n -> ~ In 10%N (quote_chars s).
Proof.
  induction n as [|n IH]; intros s Hn.
  { destruct s; [intros []|cbn in Hn; lia]. }
  destruct s as [|c s]; [intros []|]. cbn [List.length] in Hn.
  assert (Hs : ~ In 10%N (quote_chars s)) by (apply IH; lia).
  assert (Esc : ~ In 10%N (unicode_escape c ++ quote_chars s)).
  { intros H. apply in_app_or in H. destruct H as [H|H];
      [exact (@unicode_escape_no_newline _ H)|exact (Hs H)]. }
  cbn [quote_chars].
  destruct (c =? 34)%N; [intros [H|[H|H]]; [discriminate|discriminate|auto]|].
  destruct (c =? 92)%N; [intros [H|[H|H]]; [discriminate|discriminate|auto]|].
  destruct (c =? 8)%N; [intros [H|[H|H]]; [discriminate|discriminate|auto]|].
  destruct (c =? 12)%N; [intros [H|[H|H]]; [discriminate|discriminate|auto]|].
  destruct (c =? 10)%N eqn:E10;
    [intros [H|[H|H]]; [discriminate|discriminate|auto]|].
  destruct (c =? 13)%N; [intros [H|[H|H]]; [discriminate|discriminate|auto]|].
  destruct (c =? 9)%N; [intros [H|[H|H]]; [discriminate|discriminate|auto]|].
  apply N.eqb_neq in E10.
  destruct (c <? 32)%N; [exact Esc|].
  destruct (is_high c).
  - destruct s as [|d s]; [apply unicode_escape_no_newline|].
    destruct (is_low d) eqn:Ed; [|exact Esc].
    assert (Hd : d <> 10%N).
    { intros ->. discriminate. }
    intros [H|[H|H]]; [auto|auto|].
    revert H. apply IH. cbn [List.length] in Hn. lia.
  - destruct (is_low c); [exact Esc|].
    intros [H|H]; auto.
Qed.

Lemma join_no_newline (parts : list jsstring) :
  Forall (fun part => ~ In 10%N part) parts -> ~ In 10%N (join_comma parts).
Proof.
  induction 1 as [|part parts Hp _ IH]; [intros []|].
  destruct parts as [|q parts]; [exact Hp|].
  change (join_comma (part :: q :: parts))
    with (part ++ 44%N :: join_comma (q :: parts)).
  intros H. apply in_app_or in H. destruct H as [H|[H|H]];
    [auto|discriminate|auto].
Qed.

Lemma quote_no_newline s : ~ In 10%N (quote s).
Proof.
  unfold quote. intros [H|H]; [discriminate|].
  apply in_app_or in H. destruct H as [H|[H|[]]]; [|discriminate].
  exact (@quote_chars_no_newline (List.length s) s (le_n _) H).
Qed.

Lemma digits_no_newline ds : forallb is_digit ds = true -> ~ In 10%N ds.
Proof.
  intros H Hin. pose proof (forallb_In is_digit ds 10%N H Hin). discriminate.
Qed.

Lemma natural_digits numeral :
  natural_numeral numeral = true -> forallb is_digit numeral = true.
Proof.
  destruct numeral as [|c ds]; [discriminate|].
  destruct ds as [|d ds]; cbn [natural_numeral forallb]; intros H.
  - rewrite H. reflexivity.
  - apply andb_prop in H. destruct H as (H & Hds).
    apply andb_prop in H. destruct H as (-> & _). exact Hds.
Qed.

(** The text of a value holds no line feed. *)
Lemma text_no_newline n :
  forall v, size v <= n -> printable v = true -> ~ In 10%N (text_of v).
Proof.
  induction n as [|n IH]; intros v Hn Hp.
  { pose proof (size_positive v). lia. }
  destruct v as [| |[|]|numeral|s|items|props]; try discriminate.
  - vm_compute. intuition discriminate.
  - vm_compute. intuition discriminate.
  - vm_compute. intuition discriminate.
  - apply digits_no_newline, natural_digits. exact Hp.
  - apply quote_no_newline.
  - rewrite text_of_arr. cbn [printable] in Hp. cbn [size] in Hn.
    intros [H|H]; [discriminate|].
    apply in_app_or in H. destruct H as [H|[H|[]]]; [|discriminate].
    revert H. apply join_no_newline. apply Forall_forall.
    intros t Ht. apply in_map_iff in Ht. destruct Ht as (x & <- & Hx).
    apply IH; [|eapply forallb_In; eauto].
    pose proof (items_smaller items x Hx). lia.
  - cbn [printable] in Hp. apply andb_prop in Hp. destruct Hp as (Hp & _).
    apply andb_prop in Hp. destruct Hp as (Hp & _).
    rewrite text_of_obj by exact Hp. cbn [size] in Hn.
    intros [H|H]; [discriminate|].
    apply in_app_or in H. destruct H as [H|[H|[]]]; [|discriminate].
    revert H. apply join_no_newline. apply Forall_forall.
    intros t Ht. apply in_map_iff in Ht. destruct Ht as (kv & <- & Hkv).
    intros H. apply in_app_or in H. destruct H as [H|[H|H]];
      [exact (@quote_no_newline _ H)|discriminate|].
    revert H. apply IH.
    + pose proof (props_smaller props kv Hkv). lia.
    + exact (forallb_In (fun kv => printable (snd kv)) _ _ Hp Hkv).
Qed.

(** *** The numeral of an attempt *)

Lemma lit_cons c s : lit (String c s) = N_of_ascii c :: lit s.
Proof. reflexivity. Qed.

Lemma digits_of_uint d :
  forallb is_digit (lit (NilEmpty.string_of_uint d)) = true.
Proof.
  induction d; cbn [NilEmpty.string_of_uint]; rewrite ?lit_cons;
    cbn [forallb]; rewrite ?IHd; reflexivity.
Qed.

Lemma natural_head c ds :
  is_digit c = true -> (c =? 48)%N = false -> forallb is_digit ds = true ->
  natural_numeral (c :: ds) = true.
Proof.
  intros Hc H0 Hds. cbn [natural_numeral]. destruct ds; [exact Hc|].
  rewrite Hc, H0, Hds. reflexivity.
Qed.

Lemma natural_decimal n : natural_numeral (decimal_nat n) = true.
Proof.
  unfold decimal_nat.
  pose proof (DecimalNat.Unsigned.to_of (Nat.to_uint n)) as H.
  rewrite DecimalNat.Unsigned.of_to in H.
  destruct (Nat.to_uint n) as [|d|d|d|d|d|d|d|d|d|d];
    try (cbn [NilZero.string_of_uint NilEmpty.string_of_uint];
         rewrite lit_cons;
         apply natural_head; [reflexivity|reflexivity|apply digits_of_uint]).
  - discriminate.
  - rewrite DecimalFacts.unorm_D0 in H. unfold Decimal.unorm in H.
    destruct (Decimal.nzhead d) eqn:E;
      first [ discriminate H
            | exfalso; exact (DecimalFacts.nzhead_nonzero _ _ E)
            | injection H as ->; reflexivity ].
Qed.

End CodecFacts.

(** ** From the console of the script to the subscriber *)

Module WireFacts.
Import Repair Codec Wire LineFacts RouteFacts CodecFacts.

Lemma str_eqb_eq a b : str_eqb a b = true -> a = b.
Proof.
  revert b. induction a as [|x a IH]; intros [|y b] H; try discriminate;
    [reflexivity|].
  cbn [str_eqb] in H. apply andb_prop in H. destruct H as (Hx & Hab).
  apply N.eqb_eq in Hx. subst y. f_equal. apply IH. exact Hab.
Qed.

Lemma startsWith_app pat s : startsWith pat (pat ++ s) = true.
Proof.
  induction pat as [|p pat IH]; [reflexivity|].
  cbn [app startsWith]. rewrite N.eqb_refl. exact IH.
Qed.

Lemma find_at_start pat s : find_from pat (pat ++ s) 0 = Some 0.
Proof.
  destruct pat as [|p pat]; [destruct s; reflexivity|].
  pose proof (startsWith_app (p :: pat) s) as H. cbn [app] in H.
  cbn [app]. unfold find_from. rewrite H. reflexivity.
Qed.

(** The payload of a line that starts with its marker. *)
Lemma payload_tagged marker props :
  forallb (fun kv => printable (snd kv)) props = true ->
  Route.payload (marker ++ 32%N :: text_of (VObj props)) marker
  = text_of (VObj props).
Proof.
  intros Hp. unfold Route.payload, indexOf, substring.
  rewrite find_at_start. cbn [Z.of_nat Z.add].
  rewrite Z.max_r by lia. rewrite Nat2Z.id.
  rewrite skipn_app, skipn_all, Nat.sub_diag. cbn [app skipn].
  rewrite text_of_obj by exact Hp.
  unfold trim. cbn [trimStart].
  change (is_space 32%N) with true. cbv iota.
  change (is_space 123%N) with false. cbv iota.
  unfold trimEnd.
  assert (R : rev (123%N :: join_comma (members props) ++ [125%N])
              = 125%N :: rev (join_comma (members props)) ++ [123%N]).
  { change (123%N :: join_comma (members props) ++ [125%N])
      with ((123%N :: join_comma (members props)) ++ [125%N]).
    rewrite rev_app_distr. reflexivity. }
  transitivity
    (rev (trimStart (125%N :: rev (join_comma (members props)) ++ [123%N]))).
  { f_equal. f_equal. exact R. }
  cbn [trimStart]. change (is_space 125%N) with false. cbv iota.
  transitivity (rev (rev (123%N :: join_comma (members props) ++ [125%N])));
    [f_equal; symmetry; exact R | apply rev_involutive].
Qed.

Lemma printed_tagged marker props :
  printed_line (Log [Str marker; Json (VObj props)])
  = marker ++ 32%N :: text_of (VObj props).
Proof. reflexivity. Qed.

Lemma marker_no_newline marker :
  In marker Route.markers -> ~ In NL marker /\ In 95%N marker.
Proof.
  intros H. unfold Route.markers in H.
  repeat (destruct H as [<-|H];
          [split; [vm_compute; intuition discriminate
                  |vm_compute; auto 30]|]).
  destruct H.
Qed.

(** What [clear_line] says. *)
Lemma clear_line_inv c :
  clear_line c = true ->
  exists marker props,
    c = Log [Str marker; Json (VObj props)]
    /\ printable (VObj props) = true
    /\ Route.selected (printed_line c) = Some marker
    /\ ~ In NL (printed_line c)
    /\ JSON_parse (Route.payload (printed_line c) marker) = Some (VObj props).
Proof.
  destruct c as [args|args]; [|discriminate].
  destruct args as [|[marker|v0|] [|[s|v|] [|? ?]]]; try discriminate;
    destruct v as [| | | | | |props]; try discriminate.
  intros H. cbn [clear_line] in H. apply andb_prop in H.
  destruct H as (Hp & Hsel).
  destruct (Route.selected (printed_line (Log [Str marker; Json (VObj props)])))
    as [m|] eqn:E; [|discriminate].
  apply str_eqb_eq in Hsel. subst m.
  exists marker, props. split; [reflexivity|]. split; [exact Hp|].
  split; [reflexivity|].
  assert (Hp' : forallb (fun kv => printable (snd kv)) props = true).
  { cbn [printable] in Hp. apply andb_prop in Hp. destruct Hp as (Hp & _).
    apply andb_prop in Hp. destruct Hp as (Hp & _). exact Hp. }
  split.
  - rewrite printed_tagged. intros H. apply in_app_or in H.
    destruct H as [H|[H|H]].
    + unfold Route.selected in E. apply find_some in E.
      destruct (@marker_no_newline marker (proj1 E)) as (Hm & _). exact (Hm H).
    + discriminate.
    + exact (@text_no_newline (size (VObj props)) (VObj props) (le_n _) Hp H).
  - rewrite printed_tagged, payload_tagged by exact Hp'.
    apply parse_text_of. exact Hp.
Qed.

(** *** One line *)

Local Ltac walk Hsel :=
  unfold Route.selected, Route.markers in Hsel; cbn [find] in Hsel;
  repeat (match type of Hsel with
          | (if includes ?l ?m then _ else _) = _ =>
              let E := fresh "E" in destruct (includes l m) eqn:E
          end; [|]);
  try discriminate;
  try solve [let Hm := fresh "Hm" in
             injection Hsel as Hm; vm_compute in Hm; discriminate].

Local Ltac decode line marker Hparse :=
  unfold Route.line_frames, Route.on_line;
  rewrite (@includes_not_blank line marker 95%N) by
    (first [assumption | vm_compute; auto 30 | reflexivity]);
  cbn [negb];
  repeat match goal with
         | H : includes ?l ?m = _ |- context [includes ?l ?m] => rewrite H
         end;
  unfold try_catch, bind, JSON_parse_M; rewrite Hparse.

Lemma shown_decoded m :
  forallb clear_line (shown m) = true ->
  flat_map Route.line_frames (map printed_line (shown m)) = shown_event m
  /\ Forall one_line (shown m).
Proof.
  destruct m as [text|name input|]; [| |split; [reflexivity|constructor]].
  - change (shown (Text text))
      with [Log [Str Route.CLAUDE_MESSAGE;
                 Json (obj [("type", str "assistant"); ("content", text)])]].
    cbn [forallb]. rewrite andb_true_r. intros Hc.
    destruct (clear_line_inv _ Hc) as (marker & props & Ec & Hp & Hsel & Hnl & Hparse).
    injection Ec as <- <-.
    split; [|constructor; [split; [exact Hnl|eauto]|constructor]].
    cbn [map flat_map]. rewrite app_nil_r.
    match type of Hsel with Route.selected ?l = _ => set (line := l) in * end.
    walk Hsel. decode line Route.CLAUDE_MESSAGE Hparse.
    destruct text; reflexivity.
  - change (shown (ToolUse name input))
      with [Log [Str Route.TOOL_USE;
                 Json (obj [("type", str "tool_use");
                            ("name", name);
                            ("input", input)])]].
    cbn [forallb]. rewrite andb_true_r. intros Hc.
    destruct (clear_line_inv _ Hc) as (marker & props & Ec & Hp & Hsel & Hnl & Hparse).
    injection Ec as <- <-.
    split; [|constructor; [split; [exact Hnl|eauto]|constructor]].
    cbn [map flat_map]. rewrite app_nil_r.
    match type of Hsel with Route.selected ?l = _ => set (line := l) in * end.
    walk Hsel. decode line Route.TOOL_USE Hparse.
    destruct name, input; reflexivity.
Qed.

Lemma relayed_decoded attempt m :
  forallb clear_line (relayed attempt m) = true ->
  flat_map Route.line_frames (map printed_line (relayed attempt m))
  = relayed_event attempt m
  /\ Forall one_line (relayed attempt m).
Proof.
  destruct m as [text|name input|]; [| |split; [reflexivity|constructor]].
  - change (relayed attempt (Text text))
      with [Log [Str Route.CLAUDE_FIX;
                 Json (obj [("type", str "assistant");
                            ("content", text);
                            ("attempt", num attempt)])]].
    cbn [forallb]. rewrite andb_true_r. intros Hc.
    destruct (clear_line_inv _ Hc) as (marker & props & Ec & Hp & Hsel & Hnl & Hparse).
    injection Ec as <- <-.
    split; [|constructor; [split; [exact Hnl|eauto]|constructor]].
    cbn [map flat_map]. rewrite app_nil_r.
    match type of Hsel with Route.selected ?l = _ => set (line := l) in * end.
    walk Hsel. decode line Route.CLAUDE_FIX Hparse.
    destruct text; reflexivity.
  - change (relayed attempt (ToolUse name input))
      with [Log [Str Route.TOOL_FIX;
                 Json (obj [("type", str "tool_use");
                            ("name", name);
                            ("input", input);
                            ("attempt", num attempt)])]].
    cbn [forallb]. rewrite andb_true_r. intros Hc.
    destruct (clear_line_inv _ Hc) as (marker & props & Ec & Hp & Hsel & Hnl & Hparse).
    injection Ec as <- <-.
    split; [|constructor; [split; [exact Hnl|eauto]|constructor]].
    cbn [map flat_map]. rewrite app_nil_r.
    match type of Hsel with Route.selected ?l = _ => set (line := l) in * end.
    walk Hsel. decode line Route.TOOL_FIX Hparse.
    destruct name, input; reflexivity.
Qed.

(** *** All the lines *)

Lemma stdout_lines calls :
  Forall one_line calls ->
  Route.complete_lines (stdout_of calls) = map printed_line calls
  /\ Route.fragment (stdout_of calls) = [].
Proof.
  induction 1 as [|c calls (Hnl & args & ->) _ (IHl & IHf)];
    [split; reflexivity|].
  change (stdout_of (Log args :: calls))
    with ((printed_line (Log args) ++ [NL]) ++ stdout_of calls).
  rewrite <- app_assoc. cbn [app].
  destruct (lines_terminated (printed_line (Log args)) (stdout_of calls) Hnl)
    as (-> & ->).
  rewrite IHl, IHf. split; reflexivity.
Qed.

Lemma delivered_lines rejection chunks code :
  Route.delivered
    (Route.forwarding Route.always rejection (Route.stdout_only chunks code))
  = flat_map Route.line_frames (Route.complete_lines (List.concat chunks)).
Proof.
  rewrite forwarding_stdout.
  destruct (fed_fields (List.concat chunks) Route.initial) as (_ & -> & _).
  reflexivity.
Qed.

Section Calls.

Variable message : Type.
Variable calls_of : message -> list console_call.
Variable event_of : message -> list Route.frame.

Hypothesis decoded :
  forall m,
    forallb clear_line (calls_of m) = true ->
    flat_map Route.line_frames (map printed_line (calls_of m)) = event_of m
    /\ Forall one_line (calls_of m).

Lemma calls_decoded messages :
  forallb clear_line (flat_map calls_of messages) = true ->
  flat_map Route.line_frames (map printed_line (flat_map calls_of messages))
  = flat_map event_of messages
  /\ Forall one_line (flat_map calls_of messages).
Proof.
  induction messages as [|m messages IH]; [split; [reflexivity|constructor]|].
  cbn [flat_map]. rewrite forallb_app. intros H. apply andb_prop in H.
  destruct H as (Hm & Hms).
  destruct (decoded m Hm) as (Em & Lm). destruct (IH Hms) as (Ems & Lms).
  split.
  - rewrite map_app, flat_map_app, Em, Ems. reflexivity.
  - apply Forall_app. auto.
Qed.

Lemma calls_delivered messages rejection chunks code :
  forallb clear_line (flat_map calls_of messages) = true ->
  List.concat chunks = stdout_of (flat_map calls_of messages) ->
  Route.delivered
    (Route.forwarding Route.always rejection (Route.stdout_only chunks code))
  = flat_map event_of messages.
Proof.
  intros Hc Hchunks. rewrite delivered_lines, Hchunks.
  destruct (calls_decoded messages Hc) as (E & L).
  destruct (stdout_lines L) as (-> & _). exact E.
Qed.

End Calls.

(** The console after the messages of a generation, and of a repair. *)
Lemma console_of_show (World : Type) messages (s : state World) :
  for_of messages (@Script.show World) s
  = (Ok tt, mkState (world s) (console s ++ flat_map shown messages)
                    (builds s) (repairs s)).
Proof.
  revert s. induction messages as [|m messages IH]; intros s.
  - cbn. rewrite app_nil_r. destruct s. reflexivity.
  - cbn [for_of flat_map]. unfold bind.
    destruct m as [text|name input|]; cbn [Script.show];
      unfold console_log, modify, ret; rewrite IH;
      cbn [world console builds repairs];
      rewrite <- ?app_assoc; reflexivity.
Qed.

Lemma console_of_relay (World : Type) attempt messages (s : state World) :
  for_of messages (@relay World attempt) s
  = (Ok tt, mkState (world s) (console s ++ flat_map (relayed attempt) messages)
                    (builds s) (repairs s)).
Proof.
  revert s. induction messages as [|m messages IH]; intros s.
  - cbn. rewrite app_nil_r. destruct s. reflexivity.
  - cbn [for_of flat_map]. unfold bind.
    destruct m as [text|name input|]; cbn [relay];
      unfold console_log, modify, ret; rewrite IH;
      cbn [world console builds repairs];
      rewrite <- ?app_assoc; reflexivity.
Qed.

End WireFacts.

(** ** What the script prints is what the subscriber receives *)

Module EndToEnd.
Import Repair Codec Wire CodecFacts WireFacts.

(** X15.  [JSON.stringify] and [JSON.parse] are inverse on the values the
    script prints: strings with any code units (quotation marks,
    backslashes, control characters, lone surrogates), natural numbers,
    booleans, [null], and arrays and objects of these.  The text holds no
    line feed, so a payload never spans two lines of the output. *)
Theorem printed_value_is_read_back (v : value) :
  printable v = true ->
  exists text,
    JSON_stringify v = Some text
    /\ ~ In NL text
    /\ JSON_parse text = Some v.
Proof.
  intros Hp. exists (text_of v). split; [apply printable_stringify; exact Hp|].
  split.
  - exact (@text_no_newline (size v) v (le_n _) Hp).
  - apply parse_text_of. exact Hp.
Qed.

Lemma printed_value_is_read_back_witness :
  let v :=
    obj [("type", str "tool_use");
         ("name", str "Write");
         ("input",
          obj [("file_path", str "app/page.tsx");
               ("content", VStr (lit "export default" ++ [10; 34; 92; 9; 55357]%N));
               ("lines", VArr [VNum (lit "12"); VNull; VBool true; VArr []])]);
         ("attempt", num 2)] in
  exists text,
    JSON_stringify v = Some text
    /\ ~ In NL text
    /\ JSON_parse text = Some v.
Proof.
  cbv zeta.
  apply (printed_value_is_read_back
           (obj [("type", str "tool_use");
                 ("name", str "Write");
                 ("input",
                  obj [("file_path", str "app/page.tsx");
                       ("content",
                        VStr (lit "export default" ++ [10; 34; 92; 9; 55357]%N));
                       ("lines",
                        VArr [VNum (lit "12"); VNull; VBool true; VArr []])]);
                 ("attempt", num 2)])).
  vm_compute. reflexivity.
Defined.

Lemma text_line_is_clear (t : jsstring) :
  forallb clear_line (shown (Text (VStr t))) = true.
Proof.
  change (shown (Text (VStr t)))
    with [Log [Str Route.CLAUDE_MESSAGE;
               Json (obj [("type", str "assistant"); ("content", VStr t)])]].
  cbn [forallb]. rewrite andb_true_r.
  unfold obj. cbn [map fst snd]. cbn [clear_line].
  apply andb_true_intro. split; [reflexivity|].
  rewrite printed_tagged.
  unfold Route.selected, Route.markers. cbn [find].
  unfold includes at 1. rewrite find_at_start. reflexivity.
Qed.







End EndToEnd.

(** ** The driver *)

Module ModifyDriverFacts.
Import Repair Codec ModifyDriver WireFacts.

Lemma str_eqb_refl a : str_eqb a a = true.
Proof.
  induction a as [|x a IH]; [reflexivity|].
  cbn [str_eqb]. rewrite N.eqb_refl. exact IH.
Qed.

Lemma find_listed ids sandboxId :
  In sandboxId ids ->
  find (fun id => str_eqb id sandboxId) ids = Some sandboxId.
Proof.
  induction ids as [|id ids IH]; intros H; [destruct H|].
  cbn [find]. destruct (str_eqb id sandboxId) eqn:E.
  - apply str_eqb_eq in E. subst id. reflexivity.
  - destruct H as [->|H]; [rewrite str_eqb_refl in E; discriminate|auto].
Qed.

Lemma find_unlisted ids sandboxId :
  ~ In sandboxId ids ->
  find (fun id => str_eqb id sandboxId) ids = None.
Proof.
  induction ids as [|id ids IH]; intros H; [reflexivity|].
  cbn [find]. destruct (str_eqb id sandboxId) eqn:E.
  - apply str_eqb_eq in E. subst id. exfalso. apply H. left. reflexivity.
  - apply IH. intros Hin. apply H. right. exact Hin.
Qed.

(** *** A word that holds no space is found on one side of a space *)

Lemma startsWith_sep pat a c b :
  ~ In c pat -> startsWith pat (a ++ c :: b) = startsWith pat a.
Proof.
  revert a. induction pat as [|p pat IH]; intros a H; [reflexivity|].
  destruct a as [|x a]; cbn [app startsWith].
  - replace (p =? c)%N with false; [reflexivity|].
    symmetry. apply N.eqb_neq. intros ->. apply H. left. reflexivity.
  - rewrite IH; [reflexivity|]. intros Hin. apply H. right. exact Hin.
Qed.

Lemma found_anywhere pat s i :
  match find_from pat s i with Some _ => true | None => false end
  = includes s pat.
Proof.
  unfold includes. generalize 0. revert i.
  induction s as [|x s IH]; intros i j; cbn [find_from].
  - destruct (startsWith pat []); reflexivity.
  - destruct (startsWith pat (x :: s)); [reflexivity|]. apply IH.
Qed.

Lemma includes_cons x s pat :
  includes (x :: s) pat = startsWith pat (x :: s) || includes s pat.
Proof.
  unfold includes at 1. cbn [find_from].
  destruct (startsWith pat (x :: s)); [reflexivity|]. apply found_anywhere.
Qed.

Lemma includes_sep pat a c b :
  pat <> [] -> ~ In c pat ->
  includes (a ++ c :: b) pat = includes a pat || includes b pat.
Proof.
  intros Hne Hc. induction a as [|x a IH].
  - cbn [app]. rewrite includes_cons.
    change (c :: b) with ([] ++ c :: b) at 1.
    rewrite startsWith_sep by exact Hc.
    destruct pat; [contradiction|reflexivity].
  - cbn [app]. rewrite includes_cons, IH.
    change (x :: a ++ c :: b) with ((x :: a) ++ c :: b).
    rewrite startsWith_sep by exact Hc.
    rewrite includes_cons, orb_assoc. reflexivity.
Qed.

(** The report of a missing sandbox holds the words only if the
    identifier does. *)
Lemma not_found_report sandboxId word :
  word <> [] -> ~ In 32%N word ->
  includes ((10060 :: lit " Modification failed:")%N) word = false ->
  includes (lit "Sandbox") word = false ->
  includes (lit "not found" ++ [NL]) word = false ->
  includes
    (printed_line
       (LogError [Str (10060 :: lit " Modification failed:")%N;
                  Str (lit "Sandbox " ++ sandboxId ++ lit " not found")])
       ++ [NL]) word
  = includes sandboxId word.
Proof.
  intros Hne Hsp HA HB HC.
  transitivity
    (includes
       ((10060 :: lit " Modification failed:")%N
          ++ 32%N :: (lit "Sandbox"
                        ++ 32%N :: (sandboxId
                                      ++ 32%N :: (lit "not found" ++ [NL]))))
       word).
  { f_equal.
    change (printed_line
              (LogError [Str (10060 :: lit " Modification failed:")%N;
                         Str (lit "Sandbox " ++ sandboxId ++ lit " not found")]))
      with ((10060 :: lit " Modification failed:")%N
              ++ 32%N :: (lit "Sandbox" ++ [32%N]) ++ sandboxId
              ++ 32%N :: lit "not found").
    repeat (progress (rewrite <- ?app_assoc; cbn [app])). reflexivity. }
  etransitivity; [apply includes_sep; assumption|].
  rewrite HA. cbn [orb].
  etransitivity; [apply includes_sep; assumption|].
  rewrite HB. cbn [orb].
  etransitivity; [apply includes_sep; assumption|].
  rewrite HC. apply orb_false_r.
Qed.

Section Facts.

Variable World : Type.
Variables DAYTONA_API_KEY ANTHROPIC_API_KEY : option jsstring.
Variable daytona_list : World -> outcome (list jsstring) * World.
Variable getUserRootDir : jsstring -> World -> outcome jsstring * World.
Variable executeCommand :
  jsstring -> sandbox_command -> jsstring -> World -> outcome response * World.

Lemma modifyApp_resolves sandboxId modificationRequest (s : state World) :
  is_set DAYTONA_API_KEY = true ->
  is_set ANTHROPIC_API_KEY = true ->
  sdk_resolves daytona_list getUserRootDir executeCommand sandboxId ->
  exists dir r w3 w4 before,
    executeCommand sandboxId
      (RunModifyScript (dir ++ lit "/claude-code-tools") ANTHROPIC_API_KEY)
      dir w3 = (Ok r, w4)
    /\ modifyApp DAYTONA_API_KEY ANTHROPIC_API_KEY daytona_list getUserRootDir
         executeCommand sandboxId modificationRequest s
       = (Ok None,
          mkState w4
            (console s ++ before ++
               [Log [Str (lit "Modification output:")];
                Log [printed (result r)];
                Log [Str (if (exitCode r =? 0)%Z
                             || result_includes r Script.MODIFICATION_COMPLETE
                          then completed else issues)]])
            (builds s) (repairs s)).
Proof.
  intros HD HA (Hl & Hr & He).
  destruct (Hl (world s)) as (ids & w1 & El & Hin).
  pose proof (find_listed ids sandboxId Hin) as Ef.
  destruct (Hr sandboxId w1) as (dir & w2 & Er).
  destruct (He sandboxId
              (WriteModifyScript (dir ++ lit "/website-project")
                                 modificationRequest) dir w2)
    as (r1 & w3 & E1).
  destruct (He sandboxId
              (RunModifyScript (dir ++ lit "/claude-code-tools")
                               ANTHROPIC_API_KEY) dir w3)
    as (r & w4 & E2).
  exists dir, r, w3, w4.
  eexists (opening sandboxId modificationRequest ++ [_; _; _]).
  split; [exact E2|].
  unfold modifyApp. rewrite HD, HA. cbn [negb orb].
  cbv [try_catch bind console_log modify sdk ret throw].
  cbn [world console builds repairs]. rewrite El, Ef.
  cbn [world console builds repairs]. rewrite Er.
  cbn [world console builds repairs]. rewrite E1.
  cbn [world console builds repairs]. rewrite E2.
  cbn [world console builds repairs].
  destruct ((exitCode r =? 0)%Z
            || result_includes r Script.MODIFICATION_COMPLETE);
    cbn [world console builds repairs]; rewrite <- !app_assoc; reflexivity.
Qed.

Lemma modifyApp_ends sandboxId modificationRequest (s : state World) :
  exists exited s',
    modifyApp DAYTONA_API_KEY ANTHROPIC_API_KEY daytona_list getUserRootDir
      executeCommand sandboxId modificationRequest s
    = (Ok exited, s')
    /\ ((exited = None
         /\ (last (console s') (Log []) = Log [Str completed]
             \/ last (console s') (Log []) = Log [Str issues]))
        \/ (exited = Some 1%Z
            /\ exists args, last (console s') (Log []) = LogError args)).
Proof.
  unfold modifyApp.
  destruct (negb (is_set DAYTONA_API_KEY) || negb (is_set ANTHROPIC_API_KEY)).
  { cbv [bind console_error modify ret]. do 2 eexists.
    split; [reflexivity|]. right. split; [reflexivity|].
    cbn [console]. eexists. apply last_last. }
  cbv [try_catch bind console_log console_error modify sdk ret throw].
  cbn [world console builds repairs].
  destruct (daytona_list (world s)) as [[ids|e] w1];
    [destruct (find (fun id => str_eqb id sandboxId) ids) as [sandbox|]|].
  - cbn [world console builds repairs].
    destruct (getUserRootDir sandbox w1) as [[dir|e] w2].
    + cbn [world console builds repairs].
      destruct (executeCommand sandbox
                  (WriteModifyScript (dir ++ lit "/website-project")
                                     modificationRequest) dir w2)
        as [[r1|e] w3].
      * cbn [world console builds repairs].
        destruct (executeCommand sandbox
                    (RunModifyScript (dir ++ lit "/claude-code-tools")
                                     ANTHROPIC_API_KEY) dir w3)
          as [[r|e] w4].
        -- cbn [world console builds repairs].
           destruct ((exitCode r =? 0)%Z
                     || result_includes r Script.MODIFICATION_COMPLETE);
             do 2 eexists; (split; [reflexivity|]); left;
             (split; [reflexivity|]); cbn [console];
             [left|right]; apply last_last.
        -- do 2 eexists. split; [reflexivity|]. right.
           split; [reflexivity|]. cbn [console]. eexists. apply last_last.
      * do 2 eexists. split; [reflexivity|]. right.
        split; [reflexivity|]. cbn [console]. eexists. apply last_last.
    + do 2 eexists. split; [reflexivity|]. right.
      split; [reflexivity|]. cbn [console]. eexists. apply last_last.
  - do 2 eexists. split; [reflexivity|]. right.
    split; [reflexivity|]. cbn [console]. eexists. apply last_last.
  - do 2 eexists. split; [reflexivity|]. right.
    split; [reflexivity|]. cbn [console]. eexists. apply last_last.
Qed.

End Facts.

(** What the handler sends after the child has ended. *)
Lemma child_ending rejection code console :
  Route.delivered
    (snd (Route.forward Route.always rejection (child code console)
            Route.initial))
  = Route.delivered
      (Route.forwarding Route.always rejection (child code console))
    ++ [Route.terminal_event (child code console); Route.DONE].
Proof.
  rewrite RouteFacts.forward_accepted by reflexivity. reflexivity.
Qed.

End ModifyDriverFacts.

(** ** The driver and the handler *)

Module DriverEnd.
Import Repair Codec ModifyDriver ModifyDriverFacts.






End DriverEnd.

(** ** The loop of the driver, whatever the sandbox answers *)

Module DriverLoop.
Import Repair RepairMore DriverMore.

Section Loop.

Variable World : Type.
Variable executeCommand : command -> World -> outcome response * World.
Variable maxAttempts : nat.

Local Ltac decide_lines :=
  unfold count; cbn [filter app];
  repeat match goal with
         | |- context [if ?b then _ else _] =>
             let v := eval lazy in b in
             match v with
             | true => change b with true
             | false => change b with false
             end; cbv iota
         end;
  cbn [List.length filter app].

Local Ltac decide_in H :=
  repeat match type of H with
         | context [if ?b then _ else _] =>
             let v := eval lazy in b in
             match v with
             | true => change b with true in H
             | false => change b with false in H
             end; cbv iota in H
         end;
  cbn [List.length] in H.

Lemma driver_heal_adds attempt br (s : state World) :
  let r := driver_heal executeCommand attempt br s in
  exists dr de,
    adds s (snd r) 0 dr 1 de
    /\ ((fst r = Ok tt /\ dr = 1 /\ de = 1)
        \/ ((exists e, fst r = Throw e) /\ dr <= 1 /\ de = 0)).
Proof.
  cbv zeta. unfold driver_heal.
  cbv [bind console_log modify execute ret].
  cbn [world console builds repairs].
  destruct (executeCommand (WriteFixScript (build_error_of br) attempt)
              (world s)) as [[r1|e] w1];
    cbv beta iota; cbn [world console builds repairs].
  - destruct (executeCommand RunFixScript w1) as [[r2|e] w2];
      cbv beta iota; cbn [world console builds repairs].
    + exists 1, 1. split; [|left].
      * destruct (negb (exitCode r2 =? 0)%Z); cbv beta iota; cbn [fst snd];
          unfold adds; cbn [builds repairs console];
          rewrite !BuildRepairMore.count_app; decide_lines;
          destruct (printed (result r2)); cbn [List.length];
          repeat split; lia.
      * destruct (negb (exitCode r2 =? 0)%Z); cbv beta iota; cbn [fst]; auto.
    + exists 1, 0. split; [|right; split; [eexists; reflexivity|split; [lia|reflexivity]]].
      cbn [fst snd]. unfold adds. cbn [builds repairs console].
      rewrite !BuildRepairMore.count_app. decide_lines. repeat split; lia.
  - exists 0, 0. split; [|right; split; [eexists; reflexivity|split; [lia|reflexivity]]].
    cbn [fst snd]. unfold adds. cbn [builds repairs console].
    rewrite !BuildRepairMore.count_app. decide_lines. repeat split; lia.
Qed.

Lemma driver_attempts_adds fuel :
  quiet_sandbox executeCommand ->
  forall attempt (s : state World),
    fuel + attempt = S maxAttempts -> 1 <= fuel ->
    let r := driver_attempts_from executeCommand maxAttempts fuel attempt s in
    exists db dr ds de,
      adds s (snd r) db dr ds de
      /\ 1 <= db <= fuel
      /\ de <= dr /\ dr <= ds /\ ds <= de + 1 /\ ds <= db
      /\ (fst r = Ok tt -> ds = de /\ ds < db).
Proof.
  intros Hq. induction fuel as [|fuel IH]; intros attempt s Hsum Hpos; [lia|].
  cbv zeta. cbn [driver_attempts_from].
  assert (Hle : (attempt <=? maxAttempts)%nat = true)
    by (apply Nat.leb_le; lia).
  rewrite Hle. cbv [bind console_log modify execute].
  cbn [world console builds repairs].
  pose proof (Hq (world s)) as Hquiet.
  destruct (executeCommand NpmRunBuild (world s)) as [[br|e] w1];
    cbv beta iota; cbn [world console builds repairs fst] in *.
  - destruct Hquiet as (Hs & He).
    destruct (exitCode br =? 0)%Z; cbv beta iota;
      cbn [world console builds repairs].
    + exists 1, 0, 0, 0. cbn [fst snd]. split; [|repeat split; lia].
      unfold adds. cbn [builds repairs console].
      rewrite !BuildRepairMore.count_app. decide_lines.
      repeat split; lia.
    + destruct (attempt <? maxAttempts)%nat eqn:Hlt; cbv beta iota;
        cbn [world console builds repairs].
      * apply Nat.ltb_lt in Hlt.
        match goal with |- context [driver_heal _ attempt br ?st] =>
          destruct (driver_heal_adds attempt br st)
            as (dr1 & de1 & (Hb1 & Hr1 & Hs1 & He1) & Hheal);
          destruct (driver_heal executeCommand attempt br st) as [o s3]
        end.
        cbn [fst snd builds repairs console] in *.
        rewrite !BuildRepairMore.count_app in Hs1, He1.
        unfold count in Hs1, He1. cbn [filter app] in Hs1, He1.
        rewrite Hs in Hs1. rewrite He in He1.
        decide_in Hs1. decide_in He1.
        fold (count (is_line HEALING_START) (console s3)) in Hs1.
        fold (count (is_line HEALING_END) (console s3)) in He1.
        fold (count (is_line HEALING_START) (console s)) in Hs1.
        fold (count (is_line HEALING_END) (console s)) in He1.
        destruct Hheal as [(-> & -> & ->)|((e & ->) & Hdr & ->)].
        -- destruct (IH (S attempt) s3)
             as (db & dr & ds & de & (Hb & Hr & Hss & Hee) & Hdb & H1 & H2
                 & H3 & H4 & Hok); try lia.
           exists (S db), (S dr), (S ds), (S de).
           split; [unfold adds; repeat split; lia|].
           repeat split; try lia; destruct (Hok H); lia.
        -- exists 1, dr1, 1, 0. cbn [fst snd].
           split; [unfold adds; repeat split; lia|].
           repeat split; try lia; discriminate.
      * apply Nat.ltb_ge in Hlt.
        exists 1, 0, 0, 0. cbn [fst snd]. split; [|repeat split; lia].
        unfold adds. cbn [builds repairs console].
        rewrite !BuildRepairMore.count_app.
        unfold count. cbn [filter app]. rewrite Hs, He.
        decide_lines. repeat split; lia.
  - exists 1, 0, 0, 0. cbn [fst snd].
    split; [|repeat split; try lia; discriminate].
    unfold adds. cbn [builds repairs console].
    rewrite !BuildRepairMore.count_app. decide_lines. repeat split; lia.
Qed.

End Loop.



End DriverLoop.

(** ** The arguments of the generation script *)

Module ArgumentsFacts.
Import Codec Arguments.

Lemma hex_run_inv n :
  forall s r,
    hex_run n s = Some r ->
    exists h, s = h ++ r /\ List.length h = n /\ forallb is_hex h = true.
Proof.
  induction n as [|n IH]; intros s r H.
  - injection H as <-. exists []. auto.
  - destruct s as [|c s]; [discriminate|]. cbn [hex_run] in H.
    destruct (is_hex c) eqn:Hc; [|discriminate].
    destruct (IH s r H) as (h & -> & Hl & Hh).
    exists (c :: h). cbn [app List.length forallb]. rewrite Hc, Hh, Hl. auto.
Qed.

Lemma hex_run_app h r :
  forallb is_hex h = true -> hex_run (List.length h) (h ++ r) = Some r.
Proof.
  induction h as [|c h IH]; intros H; [reflexivity|].
  cbn [forallb] in H. apply andb_prop in H. destruct H as (Hc & Hh).
  cbn [List.length app hex_run]. rewrite Hc. apply IH. exact Hh.
Qed.

Lemma hex_run_exact n h r :
  List.length h = n -> forallb is_hex h = true -> hex_run n (h ++ r) = Some r.
Proof. intros <-. apply hex_run_app. Qed.

Lemma hex_run_all n h :
  List.length h = n -> forallb is_hex h = true -> hex_run n h = Some [].
Proof.
  intros Hl Hh. rewrite <- (app_nil_r h). apply hex_run_exact; assumption.
Qed.

Lemma dash_inv s r : dash s = Some r -> s = 45%N :: r.
Proof.
  destruct s as [|c s]; [discriminate|]. cbn [dash].
  destruct (c =? 45)%N eqn:E; [|discriminate].
  apply N.eqb_eq in E. subst c. intros H. injection H as ->. reflexivity.
Qed.

(** The test accepts exactly the texts of the form of a UUID. *)
Lemma uuidRegex_shape s : uuidRegex_test s = true <-> uuid_shaped s.
Proof.
  split.
  - unfold uuidRegex_test. intros H.
    destruct (hex_run 8 s) as [s1|] eqn:E1; [|discriminate].
    cbn [and_then] in H.
    destruct (dash s1) as [s2|] eqn:D1; [|discriminate]. cbn [and_then] in H.
    destruct (hex_run 4 s2) as [s3|] eqn:E2; [|discriminate].
    cbn [and_then] in H.
    destruct (dash s3) as [s4|] eqn:D2; [|discriminate]. cbn [and_then] in H.
    destruct (hex_run 4 s4) as [s5|] eqn:E3; [|discriminate].
    cbn [and_then] in H.
    destruct (dash s5) as [s6|] eqn:D3; [|discriminate]. cbn [and_then] in H.
    destruct (hex_run 4 s6) as [s7|] eqn:E4; [|discriminate].
    cbn [and_then] in H.
    destruct (dash s7) as [s8|] eqn:D4; [|discriminate]. cbn [and_then] in H.
    destruct (hex_run 12 s8) as [[|? ?]|] eqn:E5; try discriminate.
    apply hex_run_inv in E1, E2, E3, E4, E5.
    apply dash_inv in D1, D2, D3, D4.
    destruct E1 as (a & -> & La & Ha). destruct E2 as (b & -> & Lb & Hb).
    destruct E3 as (c & -> & Lc & Hc). destruct E4 as (d & -> & Ld & Hd).
    destruct E5 as (e & -> & Le & He). subst.
    exists a, b, c, d, e. rewrite app_nil_r. split; [reflexivity|].
    split; [cbn [map]; congruence|].
    rewrite !forallb_app.
    repeat (apply andb_true_intro; split); assumption.
  - intros (a & b & c & d & e & -> & Hl & Hh).
    cbn [map] in Hl. injection Hl as La Lb Lc Ld Le.
    rewrite !forallb_app in Hh.
    apply andb_prop in Hh. destruct Hh as (Ha & Hh).
    apply andb_prop in Hh. destruct Hh as (Hb & Hh).
    apply andb_prop in Hh. destruct Hh as (Hc & Hh).
    apply andb_prop in Hh. destruct Hh as (Hd & He).
    unfold uuidRegex_test.
    rewrite (@hex_run_exact 8 a _ La Ha). cbn [and_then dash N.eqb Pos.eqb].
    rewrite (@hex_run_exact 4 b _ Lb Hb). cbn [and_then dash N.eqb Pos.eqb].
    rewrite (@hex_run_exact 4 c _ Lc Hc). cbn [and_then dash N.eqb Pos.eqb].
    rewrite (@hex_run_exact 4 d _ Ld Hd). cbn [and_then dash N.eqb Pos.eqb].
    rewrite (@hex_run_all 12 e Le He). reflexivity.
Qed.

(** X23.  The arguments of the generation script.  The prompt handed to
    the generator is never empty: without words it is the default prompt.
    A sandbox is named only by a first argument of the form of a UUID,
    which is then no part of the prompt; a first argument of any other form
    is the first word of the prompt. *)
Theorem generation_arguments (argv : list jsstring) :
  let sandboxId := fst (main_arguments argv) in
  let prompt := snd (main_arguments argv) in
  truthy prompt = true
  /\ match sandboxId with
     | Some id =>
         uuid_shaped id
         /\ exists rest,
              skipn 2 argv = id :: rest
              /\ (prompt = join_space rest
                  \/ (join_space rest = [] /\ prompt = default_prompt))
     | None =>
         (forall first rest,
             skipn 2 argv = first :: rest -> ~ uuid_shaped first)
         /\ (prompt = join_space (skipn 2 argv)
             \/ (join_space (skipn 2 argv) = []
                 /\ prompt = default_prompt))
     end.
Proof.
  cbv zeta. unfold main_arguments.
  destruct (skipn 2 argv) as [|first rest] eqn:Eargs.
  - cbn [fst snd]. split; [reflexivity|]. split; [discriminate|].
    right. split; reflexivity.
  - destruct (uuidRegex_test first) eqn:Et; cbn [fst snd].
    + split.
      * destruct (join_space rest); reflexivity.
      * split; [apply uuidRegex_shape; exact Et|].
        exists rest. split; [reflexivity|].
        destruct (join_space rest); [right; split|left]; reflexivity.
    + split.
      * destruct (join_space (first :: rest)); reflexivity.
      * split.
        -- intros f r E. injection E as <- <-. intros Hs.
           apply uuidRegex_shape in Hs. congruence.
        -- destruct (join_space (first :: rest)); [right; split|left];
             reflexivity.
Qed.

End ArgumentsFacts.

